(** * kastore: a keyed-array store and its file format

    A shallow embedding of [c/kastore.c].  C integers are mathematical
    integers with the wrap-around of their width written out ([size_t] and
    [uint64_t] are 64 bits wide: the [__unix__] LP64 build is the one
    modelled), memory reachable from a pointer is the list of bytes that can
    be read from it, and the C library calls the store makes act on an
    explicit [world]: the file system, [errno], and a log of the resources
    handed back to the system.  The host is little-endian, [malloc],
    [calloc] and [realloc] do not fail, and a stream fails only when its file
    is gone or, for a read, at the end of the file; the [assert]s of the
    source are left out. *)

From Stdlib Require Import ZArith List Lia Bool String Ascii Permutation Sorted.
From coqutil Require Import Byte Word.LittleEndianList.
Import ListNotations.
Local Open Scope Z_scope.

(** ** Constants and types of kastore.h *)

(** Modelled from the spec: [kastore.h] is not among the sources; the header
    block is "fixed size, 64 bytes". *)
Definition KAS_HEADER_SIZE : Z := 64.

(** Modelled from the spec: [kastore.h] is not among the sources; an item
    descriptor is "fixed size, 64 bytes". *)
Definition KAS_ITEM_DESCRIPTOR_SIZE : Z := 64.

(** Modelled from the spec: [kastore.h] is not among the sources;
    "ARRAY_ALIGN = 8". *)
Definition KAS_ARRAY_ALIGN : Z := 8.

(** Modelled from the spec: [kastore.h] is not among the sources; the type
    tags are the integers 0..7. *)
Definition KAS_NUM_TYPES : Z := 8.

(** Modelled from the spec: [kastore.h] is not among the sources; the
    "current format version (major, minor)" is taken to be (1, 0). *)
Definition KAS_FILE_VERSION_MAJOR : Z := 1.

(** Modelled from the spec: see [KAS_FILE_VERSION_MAJOR]. *)
Definition KAS_FILE_VERSION_MINOR : Z := 0.

(** Modelled from the spec: [kastore.h] is not among the sources; "a distinct
    8-byte magic", here the bytes of the literal "\211KAS\r\n\032\n"; none of
    them is NUL. *)
Definition KAS_MAGIC : list byte := map byte.of_Z [137; 75; 65; 83; 13; 10; 26; 10].

(** Modelled from the spec: [kastore.h] is not among the sources; the two open
    modes are distinct non-zero tags, so a zeroed store is in neither. *)
Definition KAS_READ : Z := 1.

(** Modelled from the spec: see [KAS_READ]. *)
Definition KAS_WRITE : Z := 2.

(** Modelled from the spec: [kastore.h] is not among the sources; the
    "do not memory-map" flag is the lowest bit of the open flags. *)
Definition KAS_NO_MMAP : Z := 1.

(** Modelled from the spec: [kastore.h] is not among the sources; the error
    taxonomy of section 7, with [KAS_OK] for the return value 0. *)
Inductive kas_err : Type :=
| KAS_OK
| KAS_ERR_GENERIC
| KAS_ERR_IO
| KAS_ERR_BAD_MODE
| KAS_ERR_NO_MEMORY
| KAS_ERR_BAD_FILE_FORMAT
| KAS_ERR_VERSION_TOO_OLD
| KAS_ERR_VERSION_TOO_NEW
| KAS_ERR_BAD_TYPE
| KAS_ERR_DUPLICATE_KEY
| KAS_ERR_EMPTY_KEY
| KAS_ERR_KEY_NOT_FOUND.

Definition is_ok (e : kas_err) : bool :=
  match e with KAS_OK => true | _ => false end.

(** Modelled from the spec: the struct [kaitem_t] of [kastore.h], with the
    fields the source reads and writes.  [key] and [array] are pointers: the
    bytes readable from them. *)
Record kaitem_t : Type := mk_item {
  type : Z;
  key_len : Z;
  array_len : Z;
  key : list byte;
  array : list byte;
  key_start : Z;
  array_start : Z
}.

(** What [memset(item, 0, sizeof)] and [calloc] leave in an item. *)
Definition zero_item : kaitem_t := mk_item 0 0 0 [] [] 0 0.

Definition set_type (it : kaitem_t) (v : Z) : kaitem_t :=
  mk_item v (key_len it) (array_len it) (key it) (array it) (key_start it) (array_start it).
Definition set_key (it : kaitem_t) (start len : Z) (p : list byte) : kaitem_t :=
  mk_item (type it) len (array_len it) p (array it) start (array_start it).
Definition set_array (it : kaitem_t) (start len : Z) (p : list byte) : kaitem_t :=
  mk_item (type it) (key_len it) len (key it) p (key_start it) start.
Definition set_key_start (it : kaitem_t) (v : Z) : kaitem_t :=
  mk_item (type it) (key_len it) (array_len it) (key it) (array it) v (array_start it).
Definition set_array_start (it : kaitem_t) (v : Z) : kaitem_t :=
  mk_item (type it) (key_len it) (array_len it) (key it) (array it) (key_start it) v.

(** ** The C library, as far as the store uses it *)

Module Libc.

(** Arithmetic on [size_t] and [uint64_t]. *)
Definition SIZE_RANGE : Z := 2 ^ 64.
Definition add64 (a b : Z) : Z := (a + b) mod SIZE_RANGE.
Definition sub64 (a b : Z) : Z := (a - b) mod SIZE_RANGE.
Definition mul64 (a b : Z) : Z := (a * b) mod SIZE_RANGE.

(** The C operator [!]. *)
Definition lnot (x : Z) : Z := if x =? 0 then 1 else 0.

(** [memcmp]: only the sign of the result is specified by C, so it is
    returned as -1, 0 or 1.  Reading past either block is undefined in C
    and ends the comparison here. *)
Fixpoint memcmp (s1 s2 : list byte) (n : nat) : Z :=
  match n, s1, s2 with
  | S n', c1 :: s1', c2 :: s2' =>
      if byte.unsigned c1 <? byte.unsigned c2 then -1
      else if byte.unsigned c2 <? byte.unsigned c1 then 1
      else memcmp s1' s2' n'
  | _, _, _ => 0
  end.

(** The character of a C string at its head; the end of the list is the
    terminating NUL. *)
Definition head_char (s : list byte) : Z :=
  match s with [] => 0 | c :: _ => byte.unsigned c end.

(** [strncmp]: like [memcmp], but equal NUL characters end it. *)
Fixpoint strncmp (s1 s2 : list byte) (n : nat) : Z :=
  match n with
  | O => 0
  | S n' =>
      let c1 := head_char s1 in
      let c2 := head_char s2 in
      if c1 <? c2 then -1
      else if c2 <? c1 then 1
      else if c1 =? 0 then 0
      else strncmp (tl s1) (tl s2) n'
  end.

(** [memcpy(&x, p + off, n)] on a little-endian host, for an unsigned
    integer [x] of [n] bytes. *)
Definition load (p : list byte) (off : Z) (n : nat) : Z :=
  le_combine (firstn n (skipn (Z.to_nat off) p)).

(** The resources a store hands back to the system. *)
Inductive event : Type :=
| EvFreeKey
| EvFreeItems
| EvFreeBuffer
| EvMunmap (len : Z)
| EvFclose (name : string).

(** The world outside the store. *)
Record world : Type := mk_world {
  fs : string -> option (list byte);
  errno : Z;
  log : list event
}.

Definition set_fs (w : world) (name : string) (content : list byte) : world :=
  mk_world (fun n => if String.eqb n name then Some content else fs w n)
           (errno w) (log w).
Definition set_errno (w : world) (e : Z) : world :=
  mk_world (fs w) e (log w).
Definition emit (w : world) (evs : list event) : world :=
  mk_world (fs w) (errno w) (log w ++ evs).

Definition ENOENT : Z := 2.
Definition EBADF : Z := 9.

(** An open stream: the file it is on, the position, the end-of-file
    indicator. *)
Record FILE : Type := mk_FILE {
  f_name : string;
  f_pos : nat;
  f_eof : bool
}.

Inductive fmode : Type := rb | wb.

(** [fopen]: "rb" needs the file to exist, "wb" creates or empties it. *)
Definition fopen (name : string) (m : fmode) (w : world) : option FILE * world :=
  match m with
  | rb => match fs w name with
          | Some _ => (Some (mk_FILE name 0 false), w)
          | None => (None, set_errno w ENOENT)
          end
  | wb => (Some (mk_FILE name 0 false), set_fs w name [])
  end.

(** [fwrite(ptr, size, 1, stream)] on a stream that is only ever written
    in sequence: the bytes go to the end of the file.  The result is the
    number of objects written, 0 when [size] is 0. *)
Definition fwrite (ptr : list byte) (size : Z) (stream : option FILE) (w : world)
  : Z * option FILE * world :=
  match stream with
  | None => (0, stream, set_errno w EBADF)
  | Some f =>
      match fs w (f_name f) with
      | None => (0, stream, set_errno w EBADF)
      | Some old =>
          if size =? 0 then (0, stream, w)
          else
            let data := firstn (Z.to_nat size) ptr in
            (1, Some (mk_FILE (f_name f) (f_pos f + Z.to_nat size) (f_eof f)),
             set_fs w (f_name f) (old ++ data))
      end
  end.

(** [fread(ptr, size, 1, stream)]: the object is read whole, or the stream
    runs into the end of the file and 0 is returned. *)
Definition fread (size : Z) (stream : option FILE) (w : world)
  : Z * list byte * option FILE * world :=
  match stream with
  | None => (0, [], stream, set_errno w EBADF)
  | Some f =>
      match fs w (f_name f) with
      | None => (0, [], stream, set_errno w EBADF)
      | Some content =>
          let avail := skipn (f_pos f) content in
          if size =? 0 then (0, [], stream, w)
          else if size <=? Z.of_nat (List.length avail) then
            (1, firstn (Z.to_nat size) avail,
             Some (mk_FILE (f_name f) (f_pos f + Z.to_nat size) (f_eof f)), w)
          else
            (0, avail, Some (mk_FILE (f_name f) (List.length content) true), w)
      end
  end.

Definition feof (stream : option FILE) : bool :=
  match stream with Some f => f_eof f | None => false end.

(** [fseek(stream, 0, SEEK_SET)]. *)
Definition fseek0 (stream : option FILE) (w : world) : Z * option FILE * world :=
  match stream with
  | None => (-1, stream, set_errno w EBADF)
  | Some f => (0, Some (mk_FILE (f_name f) 0 false), w)
  end.

(** [fclose]: 0 on success. *)
Definition fclose (stream : option FILE) (w : world) : Z * world :=
  match stream with
  | None => (-1, set_errno w EBADF)
  | Some f =>
      match fs w (f_name f) with
      | None => (-1, emit (set_errno w EBADF) [EvFclose (f_name f)])
      | Some _ => (0, emit w [EvFclose (f_name f)])
      end
  end.

(** [stat(name, &st)]: the size of the file, if there is one. *)
Definition stat_size (name : string) (w : world) : option Z :=
  match fs w name with
  | Some content => Some (Z.of_nat (List.length content))
  | None => None
  end.

End Libc.
Import Libc.

(** The backing buffer of a store opened for reading: [read_buffer] is a raw
    pointer in the source; where the memory came from is kept here. *)
Inductive buffer : Type :=
| NullBuffer
| Mapped (b : list byte)
| Heap (b : list byte).

Definition buffer_bytes (b : buffer) : list byte :=
  match b with NullBuffer => [] | Mapped l | Heap l => l end.

(** Modelled from the spec: the struct [kastore_t] of [kastore.h], with the
    fields the source reads and writes.  [items] holds the [num_items] slots
    of the block behind [self->items]; the pointer is NULL when it is empty
    ([calloc] and [realloc] are only called for one slot or more). *)
Record kastore_t : Type := mk_store {
  flags : Z;
  mode : Z;
  file_version : Z * Z;
  num_items : Z;
  items : list kaitem_t;
  file : option FILE;
  filename : string;
  file_size : Z;
  read_buffer : buffer
}.

(** [memset(self, 0, sizeof( *self ))]. *)
Definition zero_store : kastore_t :=
  mk_store 0 0 (0, 0) 0 [] None EmptyString 0 NullBuffer.

Definition set_items (s : kastore_t) (n : Z) (l : list kaitem_t) : kastore_t :=
  mk_store (flags s) (mode s) (file_version s) n l (file s) (filename s)
           (file_size s) (read_buffer s).
Definition set_file (s : kastore_t) (f : option FILE) : kastore_t :=
  mk_store (flags s) (mode s) (file_version s) (num_items s) (items s) f (filename s)
           (file_size s) (read_buffer s).
Definition set_file_size (s : kastore_t) (v : Z) : kastore_t :=
  mk_store (flags s) (mode s) (file_version s) (num_items s) (items s) (file s)
           (filename s) v (read_buffer s).
Definition set_file_version (s : kastore_t) (v : Z * Z) : kastore_t :=
  mk_store (flags s) (mode s) v (num_items s) (items s) (file s) (filename s)
           (file_size s) (read_buffer s).
Definition set_num_items (s : kastore_t) (n : Z) : kastore_t :=
  mk_store (flags s) (mode s) (file_version s) n (items s) (file s) (filename s)
           (file_size s) (read_buffer s).
Definition set_read_buffer (s : kastore_t) (b : buffer) : kastore_t :=
  mk_store (flags s) (mode s) (file_version s) (num_items s) (items s) (file s)
           (filename s) (file_size s) b.
Definition set_mode (s : kastore_t) (m : Z) : kastore_t :=
  mk_store (flags s) m (file_version s) (num_items s) (items s) (file s) (filename s)
           (file_size s) (read_buffer s).

(** ** Type registry and item order *)

Definition type_size_map : list Z := [1; 1; 4; 4; 8; 8; 4; 8].

(** The source asserts [type < KAS_NUM_TYPES] before it reads the table; a
    tag that is not in the table gets the width 0 here (1 if negative). *)
Definition type_size (ty : Z) : Z := nth (Z.to_nat ty) type_size_map 0.

Definition b2z (b : bool) : Z := if b then 1 else 0.

(** Compare item keys lexicographically. *)
Definition compare_items (ia ib : kaitem_t) : Z :=
  let len := if key_len ia <? key_len ib then key_len ia else key_len ib in
  let ret := memcmp (key ia) (key ib) (Z.to_nat len) in
  if ret =? 0 then b2z (key_len ia >? key_len ib) - b2z (key_len ia <? key_len ib)
  else ret.

(** [qsort] with [compare_items]: C fixes the result only up to the order of
    items that compare equal, and [kastore_put] keeps such items out of the
    store; a straight insertion sort stands for it. *)
Fixpoint qsort_insert (x : kaitem_t) (l : list kaitem_t) : list kaitem_t :=
  match l with
  | [] => [x]
  | y :: l' => if compare_items x y <=? 0 then x :: l else y :: qsort_insert x l'
  end.

Definition qsort (l : list kaitem_t) : list kaitem_t := fold_right qsort_insert [] l.

(** [bsearch] with [compare_items]: the bisection loop of the C library,
    [l] and [u] bounding the slots still to be looked at. *)
Fixpoint bsearch_loop (fuel : nat) (k : kaitem_t) (base : list kaitem_t) (l u : Z)
  : option kaitem_t :=
  match fuel with
  | O => None
  | S fuel' =>
      if l <? u then
        let idx := (l + u) / 2 in
        match nth_error base (Z.to_nat idx) with
        | None => None
        | Some p =>
            let c := compare_items k p in
            if c <? 0 then bsearch_loop fuel' k base l idx
            else if 0 <? c then bsearch_loop fuel' k base (idx + 1) u
            else Some p
        end
      else None
  end.

Definition bsearch (k : kaitem_t) (base : list kaitem_t) (nmemb : Z) : option kaitem_t :=
  bsearch_loop (S (Z.to_nat nmemb)) k base 0 nmemb.

(** ** Codec *)

(** [memcpy(dst + off, src, n)] into a block [dst]. *)
Definition memcpy (dst : list byte) (off : Z) (src : list byte) (n : nat) : list byte :=
  firstn (Z.to_nat off) dst ++ firstn n src ++ skipn (Z.to_nat off + n) dst.

(** The block that [kastore_write_header] builds. *)
Definition header_block (self : kastore_t) : list byte :=
  let version_major := KAS_FILE_VERSION_MAJOR in
  let version_minor := KAS_FILE_VERSION_MINOR in
  let header := repeat Byte.x00 (Z.to_nat KAS_HEADER_SIZE) in
  let header := memcpy header 0 KAS_MAGIC 8 in
  let header := memcpy header 8 (le_split 2 version_major) 2 in
  let header := memcpy header 10 (le_split 2 version_minor) 2 in
  let header := memcpy header 12 (le_split 4 (num_items self)) 4 in
  let header := memcpy header 16 (le_split 8 (file_size self)) 8 in
  header.

Definition kastore_write_header (self : kastore_t) (w : world)
  : kas_err * kastore_t * world :=
  let '(count, f, w) := fwrite (header_block self) KAS_HEADER_SIZE (file self) w in
  let self := set_file self f in
  if negb (count =? 1) then (KAS_ERR_IO, self, w) else (KAS_OK, self, w).

(** When a read error occurs we don't know whether this is because the file
    ended unexpectedly or an IO error occured. *)
Definition kastore_get_read_io_error (self : kastore_t) (w : world) : kas_err :=
  if feof (file self) || (errno w =? 0) then KAS_ERR_BAD_FILE_FORMAT else KAS_ERR_IO.

Definition kastore_read_header (self : kastore_t) (w : world)
  : kas_err * kastore_t * world :=
  let '(count, header, f, w) := fread KAS_HEADER_SIZE (file self) w in
  let self := set_file self f in
  if count =? 0 then (kastore_get_read_io_error self w, self, w)
  else if negb (strncmp header KAS_MAGIC 8 =? 0) then (KAS_ERR_BAD_FILE_FORMAT, self, w)
  else
    let version_major := load header 8 2 in
    let version_minor := load header 10 2 in
    let n := load header 12 4 in
    let size := load header 16 8 in
    let self := set_file_version self (version_major, version_minor) in
    if fst (file_version self) <? KAS_FILE_VERSION_MAJOR then
      (KAS_ERR_VERSION_TOO_OLD, self, w)
    else if fst (file_version self) >? KAS_FILE_VERSION_MAJOR then
      (KAS_ERR_VERSION_TOO_NEW, self, w)
    else
      let self := set_file_size (set_num_items self n) size in
      if file_size self <? KAS_HEADER_SIZE then (KAS_ERR_BAD_FILE_FORMAT, self, w)
      else (KAS_OK, self, w).

(** ** Packer *)

(** The first loop of [kastore_pack_items]: the keys, from [offset] on. *)
Fixpoint pack_keys (offset : Z) (l : list kaitem_t) : list kaitem_t * Z :=
  match l with
  | [] => ([], offset)
  | it :: rest =>
      let it' := set_key_start it offset in
      let '(rest', offset') := pack_keys (add64 offset (key_len it)) rest in
      (it' :: rest', offset')
  end.

(** Rounding [offset] up to the array alignment, as both walks do. *)
Definition align_up (offset : Z) : Z :=
  let remainder := offset mod KAS_ARRAY_ALIGN in
  if negb (remainder =? 0) then add64 offset (KAS_ARRAY_ALIGN - remainder) else offset.

(** The second loop of [kastore_pack_items]: the arrays. *)
Fixpoint pack_arrays (offset : Z) (l : list kaitem_t) : list kaitem_t * Z :=
  match l with
  | [] => ([], offset)
  | it :: rest =>
      let offset := align_up offset in
      let it' := set_array_start it offset in
      let '(rest', offset') :=
        pack_arrays (add64 offset (mul64 (array_len it) (type_size (type it)))) rest in
      (it' :: rest', offset')
  end.

(** Compute the locations of the keys and arrays in the file. *)
Definition kastore_pack_items (self : kastore_t) : kas_err * kastore_t :=
  let offset := add64 KAS_HEADER_SIZE (mul64 (num_items self) KAS_ITEM_DESCRIPTOR_SIZE) in
  let '(l, offset) := pack_keys offset (items self) in
  let '(l, offset) := pack_arrays offset l in
  (KAS_OK, set_file_size (set_items self (num_items self) l) offset).

(** ** Writer *)

(** The block that [kastore_write_descriptors] builds for one item. *)
Definition descriptor_block (it : kaitem_t) : list byte :=
  let descriptor := repeat Byte.x00 (Z.to_nat KAS_ITEM_DESCRIPTOR_SIZE) in
  let descriptor := memcpy descriptor 0 (le_split 1 (type it)) 1 in
  let descriptor := memcpy descriptor 8 (le_split 8 (key_start it)) 8 in
  let descriptor := memcpy descriptor 16 (le_split 8 (key_len it)) 8 in
  let descriptor := memcpy descriptor 24 (le_split 8 (array_start it)) 8 in
  let descriptor := memcpy descriptor 32 (le_split 8 (array_len it)) 8 in
  descriptor.

Fixpoint write_descriptors_loop (l : list kaitem_t) (f : option FILE) (w : world)
  : kas_err * option FILE * world :=
  match l with
  | [] => (KAS_OK, f, w)
  | it :: rest =>
      let '(count, f, w) := fwrite (descriptor_block it) KAS_ITEM_DESCRIPTOR_SIZE f w in
      if negb (count =? 1) then (KAS_ERR_IO, f, w)
      else write_descriptors_loop rest f w
  end.

Definition kastore_write_descriptors (self : kastore_t) (w : world)
  : kas_err * kastore_t * world :=
  let '(ret, f, w) := write_descriptors_loop (items self) (file self) w in
  (ret, set_file self f, w).

(** The first loop of [kastore_write_data]: the keys. *)
Fixpoint write_keys_loop (l : list kaitem_t) (offset : Z) (f : option FILE) (w : world)
  : kas_err * Z * option FILE * world :=
  match l with
  | [] => (KAS_OK, offset, f, w)
  | it :: rest =>
      let '(count, f, w) := fwrite (key it) (key_len it) f w in
      if negb (count =? 1) then (KAS_ERR_IO, offset, f, w)
      else write_keys_loop rest (add64 offset (key_len it)) f w
  end.

Definition pad : list byte := repeat Byte.x00 (Z.to_nat KAS_ARRAY_ALIGN).

(** The second loop of [kastore_write_data]: padding, then the array. *)
Fixpoint write_arrays_loop (l : list kaitem_t) (offset : Z) (f : option FILE) (w : world)
  : kas_err * option FILE * world :=
  match l with
  | [] => (KAS_OK, f, w)
  | it :: rest =>
      let padding := sub64 (array_start it) offset in
      let '(count, f, w) :=
        if 0 <? padding then fwrite pad padding f w else (1, f, w) in
      if negb (count =? 1) then (KAS_ERR_IO, f, w)
      else
        let size := mul64 (array_len it) (type_size (type it)) in
        let '(count, f, w) :=
          if 0 <? size then fwrite (array it) size f w else (1, f, w) in
        if negb (count =? 1) then (KAS_ERR_IO, f, w)
        else write_arrays_loop rest (add64 (array_start it) size) f w
  end.

Definition kastore_write_data (self : kastore_t) (w : world)
  : kas_err * kastore_t * world :=
  let offset := add64 KAS_HEADER_SIZE (mul64 (num_items self) KAS_ITEM_DESCRIPTOR_SIZE) in
  let '(ret, offset, f, w) := write_keys_loop (items self) offset (file self) w in
  if negb (is_ok ret) then (ret, set_file self f, w)
  else
    let '(ret, f, w) := write_arrays_loop (items self) offset f w in
    (ret, set_file self f, w).

Definition kastore_write_file (self : kastore_t) (w : world)
  : kas_err * kastore_t * world :=
  let self := set_items self (num_items self) (qsort (items self)) in
  let '(ret, self) := kastore_pack_items self in
  if negb (is_ok ret) then (ret, self, w)
  else
    let '(ret, self, w) := kastore_write_header self w in
    if negb (is_ok ret) then (ret, self, w)
    else
      let '(ret, self, w) := kastore_write_descriptors self w in
      if negb (is_ok ret) then (ret, self, w)
      else kastore_write_data self w.

(** ** Reader *)

(** [mmap(NULL, len, PROT_READ, MAP_PRIVATE, fileno(stream), 0)]: the first
    [len] bytes of the file, or nothing for [MAP_FAILED]. *)
Definition mmap (len : Z) (stream : option FILE) (w : world) : option (list byte) :=
  match stream with
  | None => None
  | Some f =>
      match fs w (f_name f) with
      | None => None
      | Some content => Some (firstn (Z.to_nat len) content)
      end
  end.

Definition kastore_mmap_file (self : kastore_t) (w : world)
  : kas_err * kastore_t * world :=
  match stat_size (filename self) w with
  | None => (KAS_ERR_IO, self, set_errno w ENOENT)
  | Some st_size =>
      if negb (file_size self =? st_size) then (KAS_ERR_BAD_FILE_FORMAT, self, w)
      else
        match mmap (file_size self) (file self) w with
        | None => (KAS_ERR_IO, self, set_errno w EBADF)
        | Some p => (KAS_OK, set_read_buffer self (Mapped p), w)
        end
  end.

Definition kastore_munmap_file (self : kastore_t) (w : world) : world :=
  match read_buffer self with
  | NullBuffer => w
  | _ => emit w [EvMunmap (file_size self)]
  end.

(** [malloc] does not fail here; what it returns holds whatever [fread]
    stored in it. *)
Definition kastore_read_file (self : kastore_t) (w : world)
  : kas_err * kastore_t * world :=
  let self := set_read_buffer self (Heap []) in
  let '(err, f, w) := fseek0 (file self) w in
  let self := set_file self f in
  if negb (err =? 0) then (KAS_ERR_IO, self, w)
  else
    let '(count, data, f, w) := fread (file_size self) (file self) w in
    let self := set_read_buffer (set_file self f) (Heap data) in
    if count =? 0 then (kastore_get_read_io_error self w, self, w)
    else (KAS_OK, self, w).

(** The body of the first loop of [kastore_read_descriptors] for the item
    whose descriptor starts at [descriptor_offset]; [buf] is what
    [self->read_buffer] points to and [fsize] is [self->file_size]. *)
Definition read_descriptor (buf : list byte) (fsize : Z) (descriptor_offset : Z)
  (it : kaitem_t) : kas_err * kaitem_t :=
  let ty := load buf descriptor_offset 1 in
  let kstart := load buf (descriptor_offset + 8) 8 in
  let klen := load buf (descriptor_offset + 16) 8 in
  let astart := load buf (descriptor_offset + 24) 8 in
  let alen := load buf (descriptor_offset + 32) 8 in
  if ty >=? KAS_NUM_TYPES then (KAS_ERR_BAD_TYPE, it)
  else
    let it := set_type it ty in
    if add64 kstart klen >? fsize then (KAS_ERR_BAD_FILE_FORMAT, it)
    else
      let it := set_key it kstart klen (skipn (Z.to_nat kstart) buf) in
      if add64 astart (mul64 alen (type_size ty)) >? fsize then
        (KAS_ERR_BAD_FILE_FORMAT, it)
      else
        (KAS_OK, set_array it astart alen (skipn (Z.to_nat astart) buf)).

Fixpoint read_descriptors_loop (buf : list byte) (fsize : Z) (descriptor_offset : Z)
  (l : list kaitem_t) : kas_err * list kaitem_t :=
  match l with
  | [] => (KAS_OK, [])
  | it :: rest =>
      let '(ret, it') := read_descriptor buf fsize descriptor_offset it in
      if negb (is_ok ret) then (ret, it' :: rest)
      else
        let '(ret, rest') :=
          read_descriptors_loop buf fsize
            (add64 descriptor_offset KAS_ITEM_DESCRIPTOR_SIZE) rest in
        (ret, it' :: rest')
  end.

(** Keys must be packed sequentially starting immediately after the
    descriptors: the second loop, giving the offset it ends with. *)
Fixpoint check_keys (offset : Z) (l : list kaitem_t) : option Z :=
  match l with
  | [] => Some offset
  | it :: rest =>
      if negb (key_start it =? offset) then None
      else check_keys (add64 offset (key_len it)) rest
  end.

(** Arrays are 8 byte aligned and adjacent: the third loop. *)
Fixpoint check_arrays (offset : Z) (l : list kaitem_t) : bool :=
  match l with
  | [] => true
  | it :: rest =>
      let offset := align_up offset in
      if negb (array_start it =? offset) then false
      else check_arrays (add64 offset (mul64 (array_len it) (type_size (type it)))) rest
  end.

Definition kastore_read_descriptors (self : kastore_t) : kas_err * kastore_t :=
  let descriptor_offset := KAS_HEADER_SIZE in
  if add64 descriptor_offset (mul64 (num_items self) KAS_ITEM_DESCRIPTOR_SIZE)
       >? file_size self
  then (KAS_ERR_BAD_FILE_FORMAT, self)
  else
    let '(ret, l) :=
      read_descriptors_loop (buffer_bytes (read_buffer self)) (file_size self)
        descriptor_offset (items self) in
    let self := set_items self (num_items self) l in
    if negb (is_ok ret) then (ret, self)
    else
      let offset :=
        add64 KAS_HEADER_SIZE (mul64 (num_items self) KAS_ITEM_DESCRIPTOR_SIZE) in
      match check_keys offset (items self) with
      | None => (KAS_ERR_BAD_FILE_FORMAT, self)
      | Some offset =>
          if check_arrays offset (items self) then (KAS_OK, self)
          else (KAS_ERR_BAD_FILE_FORMAT, self)
      end.

(** The gate in front of [kastore_mmap_file], [!self->flags & KAS_NO_MMAP]:
    C reads it as [(!self->flags) & KAS_NO_MMAP]. *)
Definition mmap_gate (fl : Z) : bool := negb (Z.land (lnot fl) KAS_NO_MMAP =? 0).

(** [calloc] does not fail here: the block of [num_items] zeroed items is
    what [kastore_read_descriptors] is given. *)
Definition kastore_read (self : kastore_t) (w : world) : kas_err * kastore_t * world :=
  let '(ret, self, w) := kastore_read_header self w in
  if negb (is_ok ret) then (ret, self, w)
  else
    let '(ret, self, w) :=
      if mmap_gate (flags self) then kastore_mmap_file self w
      else kastore_read_file self w in
    if negb (is_ok ret) then (ret, self, w)
    else if 0 <? num_items self then
      let self :=
        set_items self (num_items self) (repeat zero_item (Z.to_nat (num_items self))) in
      let '(ret, self) := kastore_read_descriptors self in
      (ret, self, w)
    else (ret, self, w).

(** ** Store API *)

(** [kastore_open]: the store is zeroed first, so the function is given no
    store; in read mode the whole file is read and checked before it
    returns. *)
Definition kastore_open (name : string) (open_mode : string) (fl : Z) (w : world)
  : kas_err * kastore_t * world :=
  let self := zero_store in
  if negb (Nat.eqb (String.length open_mode) 1) then (KAS_ERR_BAD_MODE, self, w)
  else
    let sel :=
      if String.eqb open_mode "r" then Some (KAS_READ, rb)
      else if String.eqb open_mode "w" then Some (KAS_WRITE, wb)
      else None in
    match sel with
    | None => (KAS_ERR_BAD_MODE, self, w)
    | Some (m, file_mode) =>
        let self := set_mode self m in
        let self :=
          mk_store fl (mode self) (file_version self) (num_items self) (items self)
                   (file self) name (file_size self) (read_buffer self) in
        let '(f, w) := fopen name file_mode w in
        let self := set_file self f in
        match f with
        | None => (KAS_ERR_IO, self, w)
        | Some _ =>
            if mode self =? KAS_READ then kastore_read self w
            else (KAS_OK, self, w)
        end
    end.

(** Modelled from the spec: the macro [kas_safe_free] of [kastore.h] is not
    among the sources; close "releases the backing buffer", and a pointer that
    is NULL is not handed to [free]. *)
Definition kas_safe_free (is_null : bool) (ev : event) (w : world) : world :=
  if is_null then w else emit w [ev].

Definition is_nil {A : Type} (l : list A) : bool :=
  match l with [] => true | _ => false end.

(** [kastore_close]: flush in write mode, hand back keys, items, buffer and
    stream, zero the store. *)
Definition kastore_close (self : kastore_t) (w : world) : kas_err * kastore_t * world :=
  let '(ret, self, w) :=
    if mode self =? KAS_WRITE then
      let '(ret, self, w) :=
        match file self with
        | Some _ =>
            let '(ret, self, w) := kastore_write_file self w in
            if negb (is_ok ret) then
              (* Ignore errors on close now *)
              let '(_, w) := fclose (file self) w in
              (ret, set_file self None, w)
            else (ret, self, w)
        | None => (KAS_OK, self, w)
        end in
      (* We only alloc memory for the keys in write mode *)
      (ret, self,
       fold_left (fun w it => kas_safe_free (is_nil (key it)) EvFreeKey w) (items self) w)
    else (KAS_OK, self, w) in
  let w := kas_safe_free (is_nil (items self)) EvFreeItems w in
  let w :=
    if Z.land (flags self) KAS_NO_MMAP =? 0 then kastore_munmap_file self w
    else kas_safe_free (match read_buffer self with NullBuffer => true | _ => false end)
                       EvFreeBuffer w in
  let '(ret, w) :=
    match file self with
    | Some _ =>
        let '(err, w) := fclose (file self) w in
        if negb (err =? 0) then (KAS_ERR_IO, w) else (ret, w)
    | None => (ret, w)
    end in
  (ret, zero_store, w).

(** What [kastore_get] hands back through its three out-parameters. *)
Definition view : Type := (list byte * Z * Z)%type.

(** [kastore_get]: the key is copied into a search item and looked up by
    bisection; the store is not written to. *)
Definition kastore_get (self : kastore_t) (k : list byte) (klen : Z)
  : kas_err * option view :=
  let search := set_key zero_item 0 klen (firstn (Z.to_nat klen) k) in
  match bsearch search (items self) (num_items self) with
  | None => (KAS_ERR_KEY_NOT_FOUND, None)
  | Some item => (KAS_OK, Some (array item, array_len item, type item))
  end.

(** [kastore_put]: the block of items is grown by one slot, the new item is
    filled in there, and it is given up again when an earlier item has its
    key.  The key is copied, the array pointer is kept. *)
Definition kastore_put (self : kastore_t) (k : list byte) (klen : Z)
  (arr : list byte) (alen : Z) (ty : Z) (fl : Z) : kas_err * kastore_t :=
  if (ty <? 0) || (ty >=? KAS_NUM_TYPES) then (KAS_ERR_BAD_TYPE, self)
  else if klen =? 0 then (KAS_ERR_EMPTY_KEY, self)
  else
    let old := firstn (Z.to_nat (num_items self)) (items self) in
    let new_item := set_type zero_item ty in
    let new_item := set_key new_item 0 klen (firstn (Z.to_nat klen) k) in
    let new_item := set_array new_item 0 alen arr in
    if existsb (fun it => compare_items new_item it =? 0) old then
      (* Free the key memory and remove this item *)
      (KAS_ERR_DUPLICATE_KEY, set_items self (num_items self) old)
    else
      (KAS_OK, set_items self (add64 (num_items self) 1) (old ++ [new_item])).

(** ** Sample stores and files *)

Definition bytes_of (l : list Z) : list byte := map byte.of_Z l.

(** A world with no file at all. *)
Definition no_files : world := mk_world (fun _ => None) 0 [].

(** A world whose only file is ["f"], holding [content]. *)
Definition disk (content : list byte) : world := set_fs no_files "f" content.

(** The file of a store with no item: a header and nothing else. *)
Definition empty_file : list byte :=
  header_block (set_file_size zero_store KAS_HEADER_SIZE).

(** A write-mode store holding the one key "a" with the u8 array [7]. *)
Definition one_key_store : kastore_t :=
  let '(_, s, _) := kastore_open "f" "w" 0 no_files in
  snd (kastore_put s (bytes_of [97]) 1 (bytes_of [7]) 1 0 0).

(** A header for [n] items and a file of [size] bytes. *)
Definition header_for (n size : Z) : list byte :=
  header_block (set_file_size (set_num_items zero_store n) size).

(** One item whose key length makes [key_start + key_len] pass 2^64. *)
Definition wrapping_file : list byte :=
  header_for 1 128 ++ descriptor_block (mk_item 0 (2 ^ 64 - 1) 0 [] [] 128 128).

(** One item whose array length makes [array_len * 8] pass 2^64. *)
Definition wrapping_array_file : list byte :=
  header_for 1 136 ++ descriptor_block (mk_item 4 1 (2 ^ 61) [] [] 128 136)
    ++ bytes_of [97; 0; 0; 0; 0; 0; 0; 0].

(** Two items laid out as the packer would, but with the keys "b", "a" in
    that order. *)
Definition unsorted_file : list byte :=
  header_for 2 209
    ++ descriptor_block (mk_item 0 1 1 [] [] 192 200)
    ++ descriptor_block (mk_item 0 1 1 [] [] 193 208)
    ++ bytes_of [98; 97; 0; 0; 0; 0; 0; 0; 11; 0; 0; 0; 0; 0; 0; 0; 22].

(** The return code of a read-mode open of ["f"]. *)
Definition open_code (content : list byte) (fl : Z) : kas_err :=
  fst (fst (kastore_open "f" "r" fl (disk content))).

(** The store a read-mode open of ["f"] leaves. *)
Definition open_store (content : list byte) (fl : Z) : kastore_t :=
  snd (fst (kastore_open "f" "r" fl (disk content))).

(** ** Statements of the specification, as they are written *)

(** The rule of section 4.8 as it is written: put succeeds only on a store
    open for writing, get only on a store open for reading. *)
Definition mode_is_checked : Prop :=
  forall s k klen arr alen ty fl,
    (fst (kastore_put s k klen arr alen ty fl) = KAS_OK -> mode s = KAS_WRITE)
    /\ (fst (kastore_get s k klen) = KAS_OK -> mode s = KAS_READ).


(** ** The file format in exact integers *)

(** The bytes an array takes in the file. *)
Definition item_size (it : kaitem_t) : Z := array_len it * type_size (type it).

(** The key of an item: the [key_len] bytes its key pointer leads to. *)
Definition key_bytes (it : kaitem_t) : list byte :=
  firstn (Z.to_nat (key_len it)) (key it).

(** The array of an item: the bytes of its [array_len] elements. *)
Definition array_bytes (it : kaitem_t) : list byte :=
  firstn (Z.to_nat (item_size it)) (array it).

(** Section 4.4, step 3: "round offset up to the array alignment boundary
    (8 bytes)". *)
Definition round_up (offset : Z) : Z := 8 * ((offset + 7) / 8).

(** Section 4.4, step 2: "for each item in order: set key_start <- offset;
    offset <- offset + key_len".  The starts for keys of the lengths [lens],
    then the offset reached. *)
Fixpoint walk_keys (offset : Z) (lens : list Z) : list Z :=
  match lens with
  | [] => []
  | len :: rest => offset :: walk_keys (offset + len) rest
  end.

Fixpoint keys_end (offset : Z) (lens : list Z) : Z :=
  match lens with
  | [] => offset
  | len :: rest => keys_end (offset + len) rest
  end.

(** Section 4.4, step 3: "for each item in order: round offset up ...; set
    array_start <- offset; offset <- offset + array_len * width(type)".  The
    starts for arrays of the byte sizes [sizes], then the offset reached. *)
Fixpoint walk_arrays (offset : Z) (sizes : list Z) : list Z :=
  match sizes with
  | [] => []
  | size :: rest => round_up offset :: walk_arrays (round_up offset + size) rest
  end.

Fixpoint arrays_end (offset : Z) (sizes : list Z) : Z :=
  match sizes with
  | [] => offset
  | size :: rest => arrays_end (round_up offset + size) rest
  end.

(** Section 4.4, step 1: where the keys of [n] items begin. *)
Definition keys_begin (n : nat) : Z :=
  KAS_HEADER_SIZE + Z.of_nat n * KAS_ITEM_DESCRIPTOR_SIZE.

(** Where the keys of the items [l] end. *)
Definition keys_limit (l : list kaitem_t) : Z :=
  keys_end (keys_begin (List.length l)) (map key_len l).

(** Section 4.4, step 4: the size of the file. *)
Definition packed_size (l : list kaitem_t) : Z :=
  arrays_end (keys_limit l) (map item_size l).

(** An item without its place in the file. *)
Definition strip (it : kaitem_t) : kaitem_t :=
  mk_item (type it) (key_len it) (array_len it) (key it) (array it) 0 0.

(** An item as [kastore_put] takes it: a valid type, a key of [key_len] >= 1
    bytes, an array of [array_len] elements, both in memory. *)
Definition good_item (it : kaitem_t) : Prop :=
  0 <= type it < KAS_NUM_TYPES
  /\ 1 <= key_len it
  /\ key_len it <= Z.of_nat (List.length (key it))
  /\ 0 <= array_len it
  /\ item_size it <= Z.of_nat (List.length (array it)).

(** The key region of the file. *)
Definition keys_image (l : list kaitem_t) : list byte := List.concat (map key_bytes l).

(** The array region of the file, from [offset] on: padding up to each
    [array_start], then the array. *)
Fixpoint arrays_image (offset : Z) (l : list kaitem_t) : list byte :=
  match l with
  | [] => []
  | it :: rest =>
      repeat Byte.x00 (Z.to_nat (array_start it - offset))
        ++ array_bytes it ++ arrays_image (array_start it + item_size it) rest
  end.

(** The file of a packed store. *)
Definition file_image (self : kastore_t) : list byte :=
  header_block self
    ++ List.concat (map descriptor_block (items self))
    ++ keys_image (items self)
    ++ arrays_image (keys_limit (items self)) (items self).

(** A store as the packer leaves it: every item good, the starts those of
    the walk of section 4.4, nothing out of the range of its C type. *)
Definition packed (s : kastore_t) : Prop :=
  num_items s = Z.of_nat (List.length (items s))
  /\ Z.of_nat (List.length (items s)) < 2 ^ 32
  /\ Forall good_item (items s)
  /\ map key_start (items s)
     = walk_keys (keys_begin (List.length (items s))) (map key_len (items s))
  /\ map array_start (items s)
     = walk_arrays (keys_limit (items s)) (map item_size (items s))
  /\ file_size s = packed_size (items s)
  /\ packed_size (items s) < 2 ^ 64.

(** What the reader makes of a packed item: the same numbers, with the key
    and the array pointing into the buffer. *)
Definition reparse (buf : list byte) (it : kaitem_t) : kaitem_t :=
  mk_item (type it) (key_len it) (array_len it)
          (skipn (Z.to_nat (key_start it)) buf) (skipn (Z.to_nat (array_start it)) buf)
          (key_start it) (array_start it).

(** Lexicographic order on keys, the shorter first on a tie (section 4.2). *)
Fixpoint lex (a b : list byte) : Z :=
  match a, b with
  | [], [] => 0
  | [], _ :: _ => -1
  | _ :: _, [] => 1
  | x :: a', y :: b' =>
      if byte.unsigned x <? byte.unsigned y then -1
      else if byte.unsigned y <? byte.unsigned x then 1
      else lex a' b'
  end.

(** Keys in strictly ascending order. *)
Definition ascending (keys : list (list byte)) : Prop :=
  StronglySorted (fun a b => lex a b < 0) keys.

(** An item whose key pointer leads to at least [key_len] bytes. *)
Definition keyed (it : kaitem_t) : Prop :=
  0 <= key_len it <= Z.of_nat (List.length (key it)).

(** An item whose numbers a descriptor can carry and whose regions end
    within a file of [fsize] bytes. *)
Definition in_file (fsize : Z) (it : kaitem_t) : Prop :=
  0 <= type it < KAS_NUM_TYPES
  /\ 0 <= key_start it /\ 0 <= key_len it /\ key_start it + key_len it <= fsize
  /\ 0 <= array_start it /\ 0 <= array_len it /\ array_start it + item_size it <= fsize.

(** ** Sequences of put calls *)

(** A call of [kastore_put]: the key (its length is passed as [key_len]), the
    array, its length in elements, and the type tag. *)
Record put_call : Type := mk_call {
  p_key : list byte;
  p_array : list byte;
  p_array_len : Z;
  p_type : Z
}.

Definition put_one (s : kastore_t) (c : put_call) : kas_err * kastore_t :=
  kastore_put s (p_key c) (Z.of_nat (List.length (p_key c)))
              (p_array c) (p_array_len c) (p_type c) 0.

(** The calls in sequence, each on the store the one before left. *)
Fixpoint put_all (s : kastore_t) (calls : list put_call) : list kas_err * kastore_t :=
  match calls with
  | [] => ([], s)
  | c :: rest =>
      let '(ret, s1) := put_one s c in
      let '(rets, s2) := put_all s1 rest in
      (ret :: rets, s2)
  end.

(** A call with a valid type tag, a key that is not empty, and an array of
    [p_array_len] elements of that type. *)
Definition good_call (c : put_call) : Prop :=
  0 <= p_type c < KAS_NUM_TYPES
  /\ p_key c <> []
  /\ 0 <= p_array_len c
  /\ Z.of_nat (List.length (p_array c)) = p_array_len c * type_size (p_type c).

(** The item a call adds to the store. *)
Definition item_of_call (c : put_call) : kaitem_t :=
  mk_item (p_type c) (Z.of_nat (List.length (p_key c))) (p_array_len c)
          (p_key c) (p_array c) 0 0.

(** A bound on the size of the file of the items [l], in whatever order they
    are written: header, descriptors, keys, arrays, and 7 bytes of padding
    for each array. *)
Definition store_bound (l : list kaitem_t) : Z :=
  fold_right
    (fun it acc => KAS_ITEM_DESCRIPTOR_SIZE + key_len it + item_size it + 7 + acc)
    KAS_HEADER_SIZE l.

(** What a store holds for the caller: key, type and array of each item. *)
Definition entry (it : kaitem_t) : list byte * Z * list byte :=
  (key_bytes it, type it, array_bytes it).

Definition entry_of_call (c : put_call) : list byte * Z * list byte :=
  (p_key c, p_type c, p_array c).

(** Write the calls to the file [name], close, and open the file again for
    reading with the flags [fl]: the codes returned on the way and the store
    at the end. *)
Definition write_then_read (name : string) (calls : list put_call) (fl : Z) (w : world)
  : kas_err * list kas_err * kas_err * kas_err * kastore_t :=
  let '(r_open, s, w) := kastore_open name "w" 0 w in
  let '(r_puts, s) := put_all s calls in
  let '(r_close, _, w) := kastore_close s w in
  let '(r_reopen, s, _) := kastore_open name "r" fl w in
  (r_open, r_puts, r_close, r_reopen, s).

(** An entry together with the element count of its array. *)
Definition full_entry (it : kaitem_t) : list byte * Z * list byte * Z :=
  (entry it, array_len it).

(** The item [kastore_put] and [kastore_get] compare the stored items with:
    only its key and key length are looked at. *)
Definition key_item (k : list byte) (klen : Z) : kaitem_t :=
  set_key zero_item 0 klen (firstn (Z.to_nat klen) k).

(** The store [kastore_open] leaves for the mode "w". *)
Definition fresh_write_store (name : string) (fl : Z) : kastore_t :=
  mk_store fl KAS_WRITE (0, 0) 0 [] (Some (mk_FILE name 0 false)) name 0 NullBuffer.

(** Section 8, "Sort order", as it is written for every file the reader
    accepts: after reading, the items are sorted by the order of section
    4.2. *)
Definition reader_checks_order : Prop :=
  forall content fl,
    open_code content fl = KAS_OK ->
    StronglySorted (fun a b => compare_items a b <= 0) (items (open_store content fl)).


(** Two calls, the keys "b" and "a" in that order: a u32 array with the one
    element 0x11223344, and a u64 array with no element. *)
Definition sample_calls : list put_call :=
  [mk_call (bytes_of [98]) (bytes_of [68; 51; 34; 17]) 1 2;
   mk_call (bytes_of [97]) [] 0 4].

(** A second call for the key "b", with a u8 array. *)
Definition sample_duplicate : put_call := mk_call (bytes_of [98]) (bytes_of [9]) 1 0.

(** ** A read-mode open as a function of the bytes of the file *)

(** The checks of [kastore_read_header], on the bytes of the file. *)
Definition header_check (content : list byte) : kas_err :=
  if Z.of_nat (List.length content) <? KAS_HEADER_SIZE then KAS_ERR_BAD_FILE_FORMAT
  else if negb (strncmp content KAS_MAGIC 8 =? 0) then KAS_ERR_BAD_FILE_FORMAT
  else if load content 8 2 <? KAS_FILE_VERSION_MAJOR then KAS_ERR_VERSION_TOO_OLD
  else if load content 8 2 >? KAS_FILE_VERSION_MAJOR then KAS_ERR_VERSION_TOO_NEW
  else if load content 16 8 <? KAS_HEADER_SIZE then KAS_ERR_BAD_FILE_FORMAT
  else KAS_OK.

(** A store with [n] zeroed items over the buffer [buf], as [kastore_read]
    hands it to [kastore_read_descriptors]. *)
Definition blank_store (buf : list byte) (n size : Z) : kastore_t :=
  mk_store 0 KAS_READ (0, 0) n (repeat zero_item (Z.to_nat n)) None EmptyString size
           (Heap buf).

(** The last step of [kastore_read]: the code, and the items with their
    count. *)
Definition read_body (buf : list byte) (n size : Z) : kas_err * Z * list kaitem_t :=
  if 0 <? n then
    let '(ret, r) := kastore_read_descriptors (blank_store buf n size) in
    (ret, num_items r, items r)
  else (KAS_OK, n, []).

(** The code of a read-mode open with the flags [fl] on a file holding
    [content], and the items of the store when the code is [KAS_OK]. *)
Definition open_result (content : list byte) (fl : Z) : kas_err * Z * list kaitem_t :=
  match header_check content with
  | KAS_OK =>
      let n := load content 12 4 in
      let size := load content 16 8 in
      let len := Z.of_nat (List.length content) in
      if mmap_gate fl then
        if negb (size =? len) then (KAS_ERR_BAD_FILE_FORMAT, 0, [])
        else read_body (firstn (Z.to_nat size) content) n size
      else
        if size <=? len then read_body (firstn (Z.to_nat size) content) n size
        else (KAS_ERR_BAD_FILE_FORMAT, 0, [])
  | e => (e, 0, [])
  end.

(** The numbers of an item: what a descriptor carries. *)
Definition numbers (it : kaitem_t) : Z * Z * Z * Z * Z :=
  (type it, key_len it, array_len it, key_start it, array_start it).

(** The code of a read-mode open of the file [name]. *)
Definition read_code (name : string) (w : world) (fl : Z) : kas_err :=
  fst (fst (kastore_open name "r" fl w)).

(** ** Further definitions: stores the API keeps well formed *)

(** A store whose item count is the length of its block of items, below the
    range of the header's count, and whose items have their keys in
    memory. *)
Definition counted (s : kastore_t) : Prop :=
  num_items s = Z.of_nat (List.length (items s))
  /\ Z.of_nat (List.length (items s)) < 2 ^ 32
  /\ Forall keyed (items s).

(** Two items of small keys, "ab" and "b". *)
Definition item_ab : kaitem_t := key_item (bytes_of [97; 98]) 2.
Definition item_b : kaitem_t := key_item (bytes_of [98]) 1.

(** A store holding the two keys "ab" and "b", in this order. *)
Definition two_key_store : kastore_t :=
  set_items (fresh_write_store "f" 0) 2 [item_ab; item_b].

(** A write-mode store whose count does not fit the 32 bits the header has
    for it. *)
Definition wide_header_store : kastore_t :=
  set_file_size (set_num_items (fresh_write_store "f" 0) (2 ^ 32 + 5)) 72.

(** A read-mode store that has just been given its stream. *)
Definition fresh_read_store (name : string) (fl : Z) : kastore_t :=
  mk_store fl KAS_READ (0, 0) 0 [] (Some (mk_FILE name 0 false)) name 0 NullBuffer.

(** The store after the two sample calls, and the same items put in the
    other order. *)
Definition sample_store : kastore_t :=
  snd (put_all (fresh_write_store "f" 0) sample_calls).
Definition sample_store_rev : kastore_t :=
  snd (put_all (fresh_write_store "f" 0) (rev sample_calls)).

(** An item with its place in a file of 204 bytes: a u32 array of one
    element. *)
Definition placed_item : kaitem_t := mk_item 2 1 1 [] [] 192 200.

(** ** Further definitions: what the reader and close leave behind *)

(** An item as the first loop of [kastore_read_descriptors] leaves it when
    it accepts it: a type tag of the registry, starts and lengths that are
    64-bit numbers, key and array pointing at their starts in the buffer
    [buf], and the two sums the loop compares with [fsize] at most [fsize].
    The sums are taken modulo 2^64, as the loop takes them: an item whose
    region runs past the file is not excluded when its sum wraps around. *)
Definition read_from (buf : list byte) (fsize : Z) (it : kaitem_t) : Prop :=
  0 <= type it < KAS_NUM_TYPES
  /\ 0 <= key_start it < 2 ^ 64 /\ 0 <= key_len it < 2 ^ 64
  /\ 0 <= array_start it < 2 ^ 64 /\ 0 <= array_len it < 2 ^ 64
  /\ key it = skipn (Z.to_nat (key_start it)) buf
  /\ array it = skipn (Z.to_nat (array_start it)) buf
  /\ (key_start it + key_len it) mod 2 ^ 64 <= fsize
  /\ (array_start it + (array_len it * type_size (type it)) mod 2 ^ 64) mod 2 ^ 64
     <= fsize.




(** The number of events of one kind. *)
Definition count (kind : event -> bool) (evs : list event) : nat :=
  List.length (filter kind evs).


(** Forty bytes 0xff, to go over the reserved bytes of a header. *)
Definition reserved_noise : list byte := repeat Byte.xff 40.


(** ** Messages *)

Definition dquote : string := String (Ascii.ascii_of_nat 34) EmptyString.

Definition bad_mode_message : string :=
  Eval cbv in
    ("Bad open mode; must be " ++ dquote ++ "r" ++ dquote ++ " or "
       ++ dquote ++ "w" ++ dquote)%string.

Section Messages.

(** [strerror] of the C library: the message the system has for a value of
    [errno]. *)
Variable strerror : Z -> string.

(** [kas_strerror]: a [switch] over the codes, with the message for an
    unknown code as the default. *)
Definition kas_strerror (err : kas_err) (w : world) : string :=
  match err with
  | KAS_ERR_GENERIC => "Generic error; please file a bug report"
  | KAS_ERR_IO =>
      if negb (errno w =? 0)%Z then strerror (errno w)
      else "I/O error with errno unset. Please file a bug report"
  | KAS_ERR_BAD_MODE => bad_mode_message
  | KAS_ERR_NO_MEMORY => "Out of memory"
  | KAS_ERR_BAD_FILE_FORMAT => "File not in KAS format"
  | KAS_ERR_VERSION_TOO_OLD =>
      "File format version is too old. Please upgrade using 'kas upgrade <filename>'"
  | KAS_ERR_VERSION_TOO_NEW =>
      "File format version is too new. Please upgrade your kastore library version"
  | KAS_ERR_BAD_TYPE => "Unknown data type"
  | KAS_ERR_DUPLICATE_KEY => "Duplicate key provided"
  | KAS_ERR_KEY_NOT_FOUND => "Key not found"
  | _ => "Unknown error"
  end%string.

End Messages.

(** The message table of a system that has one message for every value of
    [errno]. *)
Definition plain_strerror (e : Z) : string := "Bad file descriptor".

(** A header for three items in a file of 128 bytes, which has room for one
    descriptor only; and a file whose one descriptor carries the type tag
    9. *)
Definition crowded_file : list byte :=
  header_for 3 128 ++ descriptor_block (mk_item 0 1 0 [] [] 128 128).
Definition unknown_type_file : list byte :=
  header_for 1 136 ++ descriptor_block (mk_item 9 1 0 [] [] 128 136)
    ++ bytes_of [97; 0; 0; 0; 0; 0; 0; 0].

(** * Properties *)

(** ** Tactics *)

(** Name the results of the calls a goal destructures. *)
Ltac break_let :=
  repeat match goal with
         | |- context [let '(_, _) := ?x in _] => destruct x eqn:?
         end.

(** ** Close *)

Lemma kastore_close_zeroes (s : kastore_t) (w : world) :
  snd (fst (kastore_close s w)) = zero_store.
Proof.
  unfold kastore_close. break_let. reflexivity.
Qed.

Lemma kastore_close_zero_store (w : world) :
  kastore_close zero_store w = (KAS_OK, zero_store, w).
Proof. reflexivity. Qed.

(** C10. Closing a freshly zeroed store performs no write, hands nothing back
    to the system (the world, with its files and its log of released
    resources, is the same afterwards), returns success and leaves the store
    zeroed; every close leaves the store zeroed, so a second close is such a
    close of a zeroed store. *)
Theorem close_is_idempotent (s : kastore_t) (w : world) :
  kastore_close zero_store w = (KAS_OK, zero_store, w)
  /\ snd (fst (kastore_close s w)) = zero_store
  /\ kastore_close (snd (fst (kastore_close s w))) (snd (kastore_close s w))
     = (KAS_OK, zero_store, snd (kastore_close s w)).
Proof.
  split; [apply kastore_close_zero_store|].
  split; [apply kastore_close_zeroes|].
  rewrite kastore_close_zeroes. apply kastore_close_zero_store.
Qed.

(** ** The gate in front of mmap *)

Lemma mmap_gate_zero (fl : Z) : mmap_gate fl = (fl =? 0).
Proof.
  unfold mmap_gate, lnot, KAS_NO_MMAP. destruct (fl =? 0); reflexivity.
Qed.

(** C4. The gate is open for the flags 0 and for no others.  With the
    reserved flag bit 2 set and [KAS_NO_MMAP] clear it is closed: the file of
    an empty store is opened, and its body is in a heap buffer, not in a
    mapping.  [kastore_close] tests [!(self->flags & KAS_NO_MMAP)] and unmaps
    this buffer. *)
Theorem mmap_gate_reserved_flag :
  (forall fl, mmap_gate fl = (fl =? 0))
  /\ Z.land 2 KAS_NO_MMAP = 0
  /\ mmap_gate 2 = false
  /\ open_code empty_file 2 = KAS_OK
  /\ read_buffer (open_store empty_file 2) = Heap empty_file
  /\ log (snd (kastore_close (open_store empty_file 2) (disk empty_file)))
     = [EvMunmap 64; EvFclose "f"].
Proof.
  split; [exact mmap_gate_zero|]. vm_compute. repeat split.
Qed.

(** ** Open modes *)

(** C7, as stated, fails: get returns an array from a store that is open for
    writing. *)
Lemma mode_is_not_checked : ~ mode_is_checked.
Proof.
  intros H.
  destruct (H one_key_store (bytes_of [97]) 1 [] 0 0 0) as [_ Hget].
  specialize (Hget eq_refl). vm_compute in Hget. discriminate.
Qed.

(** C7, amended. Neither put nor get looks at the open mode: whatever the mode
    field holds, put returns the same code and makes the same change to the
    store, and get returns the same result (and, having no store to return,
    changes nothing). *)
Theorem put_get_ignore_mode (s : kastore_t) (m : Z) (k : list byte) (klen : Z)
  (arr : list byte) (alen ty fl : Z) :
  kastore_put (set_mode s m) k klen arr alen ty fl
  = (fst (kastore_put s k klen arr alen ty fl),
     set_mode (snd (kastore_put s k klen arr alen ty fl)) m)
  /\ kastore_get (set_mode s m) k klen = kastore_get s k klen.
Proof.
  split; [|reflexivity].
  unfold kastore_put.
  destruct ((ty <? 0) || (ty >=? KAS_NUM_TYPES)); [reflexivity|].
  destruct (klen =? 0); [reflexivity|].
  cbn [set_mode num_items items].
  destruct (existsb _ _); reflexivity.
Qed.

(** ** Bounds on untrusted offsets *)

(** C3. A descriptor with [key_start = 128] and [key_len = 2^64 - 1] in a
    file of 128 bytes is accepted: the sum wraps to 127.  Likewise an array of
    [2^61] elements of 8 bytes, whose size wraps to 0. *)
Theorem wrapped_bounds_are_accepted :
  open_code wrapping_file 0 = KAS_OK
  /\ map (fun it => (key_start it, key_len it)) (items (open_store wrapping_file 0))
     = [(128, 2 ^ 64 - 1)]
  /\ file_size (open_store wrapping_file 0) = 128
  /\ open_code wrapping_array_file 0 = KAS_OK
  /\ map (fun it => (array_start it, array_len it, type_size (type it)))
         (items (open_store wrapping_array_file 0))
     = [(136, 2 ^ 61, 8)]
  /\ file_size (open_store wrapping_array_file 0) = 136.
Proof. vm_compute. repeat split. Qed.

(** ** Arithmetic of offsets *)

Section Offsets.

Lemma add64_small (a b : Z) : 0 <= a + b < 2 ^ 64 -> add64 a b = a + b.
Proof. intros H. unfold add64, SIZE_RANGE. apply Z.mod_small. exact H. Qed.

Lemma mul64_small (a b : Z) : 0 <= a * b < 2 ^ 64 -> mul64 a b = a * b.
Proof. intros H. unfold mul64, SIZE_RANGE. apply Z.mod_small. exact H. Qed.

Lemma sub64_small (a b : Z) : 0 <= a - b < 2 ^ 64 -> sub64 a b = a - b.
Proof. intros H. unfold sub64, SIZE_RANGE. apply Z.mod_small. exact H. Qed.

Lemma round_up_bounds (o : Z) : o <= round_up o < o + 8.
Proof.
  unfold round_up.
  pose proof (Z.div_mod (o + 7) 8 ltac:(lia)).
  pose proof (Z.mod_pos_bound (o + 7) 8 ltac:(lia)). lia.
Qed.


Lemma round_up_fix (o : Z) : o mod 8 = 0 -> round_up o = o.
Proof.
  intros H. unfold round_up.
  pose proof (Z.div_mod o 8 ltac:(lia)).
  replace (o + 7) with (o / 8 * 8 + 7) by lia.
  rewrite Z.div_add_l by lia. change (7 / 8) with 0. lia.
Qed.

Lemma mod8_of_mod64 (x : Z) : (x mod 2 ^ 64) mod 8 = x mod 8.
Proof.
  apply Z.mod_mod_divide. exists (2 ^ 61). reflexivity.
Qed.

(** The alignment step of the two walks, with its wrap-around, always
    lands on a multiple of 8. *)
Lemma align_up_mod (o : Z) : align_up o mod 8 = 0.
Proof.
  unfold align_up, KAS_ARRAY_ALIGN.
  destruct (o mod 8 =? 0) eqn:E; cbn [negb].
  - apply Z.eqb_eq. exact E.
  - unfold add64, SIZE_RANGE. rewrite mod8_of_mod64.
    rewrite Z.add_sub_assoc, Zminus_mod, Z.mod_mod by lia.
    rewrite <- Zplus_mod_idemp_r. change (8 mod 8) with 0.
    rewrite Z.add_0_r, Z.sub_diag. reflexivity.
Qed.

(** Without wrap-around the alignment step is the rounding of the
    specification. *)
Lemma align_up_exact (o : Z) : 0 <= o -> round_up o < 2 ^ 64 -> align_up o = round_up o.
Proof.
  intros Ho Hr. unfold align_up, KAS_ARRAY_ALIGN.
  pose proof (Z.div_mod o 8 ltac:(lia)) as Hd.
  pose proof (Z.mod_pos_bound o 8 ltac:(lia)) as Hm.
  pose proof (round_up_bounds o) as Hb.
  destruct (o mod 8 =? 0) eqn:E; cbn [negb].
  - apply Z.eqb_eq in E. symmetry. apply round_up_fix. exact E.
  - apply Z.eqb_neq in E.
    assert (Hx : round_up o = o + (8 - o mod 8)).
    { unfold round_up.
      replace (o + 7) with ((o / 8 + 1) * 8 + (o mod 8 - 1)) by lia.
      rewrite Z.div_add_l by lia.
      rewrite (Z.div_small (o mod 8 - 1) 8) by lia. lia. }
    rewrite add64_small; lia.
Qed.

Lemma type_size_bounds (ty : Z) : 0 <= ty < KAS_NUM_TYPES -> 1 <= type_size ty <= 8.
Proof.
  unfold KAS_NUM_TYPES. intros H.
  assert (Hc : ty = 0 \/ ty = 1 \/ ty = 2 \/ ty = 3 \/ ty = 4 \/ ty = 5 \/ ty = 6 \/ ty = 7)
    by lia.
  repeat (destruct Hc as [-> | Hc]; [cbv; split; discriminate|]).
  subst. cbv; split; discriminate.
Qed.

End Offsets.

(** ** Memory blocks *)

Section Blocks.

Lemma skipn_app_exact {A : Type} (p r : list A) (n : nat) :
  n = List.length p -> skipn n (p ++ r) = r.
Proof.
  intros ->. rewrite skipn_app, skipn_all, Nat.sub_diag. reflexivity.
Qed.

Lemma firstn_app_exact {A : Type} (p r : list A) (n : nat) :
  n = List.length p -> firstn n (p ++ r) = p.
Proof.
  intros ->. rewrite firstn_app, firstn_all, Nat.sub_diag. cbn. apply app_nil_r.
Qed.

Lemma skipn_app_add {A : Type} (p r : list A) (n d : nat) :
  n = List.length p -> skipn (n + d) (p ++ r) = skipn d r.
Proof.
  intros ->. rewrite skipn_app.
  rewrite skipn_all2 by lia.
  replace (List.length p + d - List.length p)%nat with d by lia. reflexivity.
Qed.

(** Reading an integer behind a prefix of known length. *)
Lemma load_app_skip (p r : list byte) (off d : Z) (n : nat) :
  off = Z.of_nat (List.length p) -> 0 <= d ->
  load (p ++ r) (off + d) n = load r d n.
Proof.
  intros -> Hd. unfold load.
  rewrite Z2Nat.inj_add, Nat2Z.id by lia.
  rewrite skipn_app_add by reflexivity. reflexivity.
Qed.

Lemma load_app_skip0 (p r : list byte) (off : Z) (n : nat) :
  off = Z.of_nat (List.length p) -> load (p ++ r) off n = load r 0 n.
Proof.
  intros H. rewrite <- (Z.add_0_r off). apply load_app_skip; [exact H | lia].
Qed.

Lemma length_header_block (s : kastore_t) : List.length (header_block s) = 64%nat.
Proof. reflexivity. Qed.

Lemma length_descriptor_block (it : kaitem_t) :
  List.length (descriptor_block it) = 64%nat.
Proof. reflexivity. Qed.

Lemma length_descriptors (l : list kaitem_t) :
  List.length (List.concat (map descriptor_block l)) = (64 * List.length l)%nat.
Proof.
  induction l as [|it l IH]; [reflexivity|].
  cbn [map List.concat List.length]. rewrite length_app, IH, length_descriptor_block. lia.
Qed.

(** The fields of a descriptor, read back. *)
Lemma load_descriptor (it : kaitem_t) (r : list byte) :
  load (descriptor_block it ++ r) 0 1 = type it mod 2 ^ 8
  /\ load (descriptor_block it ++ r) 8 8 = key_start it mod 2 ^ 64
  /\ load (descriptor_block it ++ r) 16 8 = key_len it mod 2 ^ 64
  /\ load (descriptor_block it ++ r) 24 8 = array_start it mod 2 ^ 64
  /\ load (descriptor_block it ++ r) 32 8 = array_len it mod 2 ^ 64.
Proof.
  repeat split.
  - change (load (descriptor_block it ++ r) 0 1) with (le_combine (le_split 1 (type it))).
    apply le_combine_split.
  - change (load (descriptor_block it ++ r) 8 8)
      with (le_combine (le_split 8 (key_start it))).
    apply le_combine_split.
  - change (load (descriptor_block it ++ r) 16 8)
      with (le_combine (le_split 8 (key_len it))).
    apply le_combine_split.
  - change (load (descriptor_block it ++ r) 24 8)
      with (le_combine (le_split 8 (array_start it))).
    apply le_combine_split.
  - change (load (descriptor_block it ++ r) 32 8)
      with (le_combine (le_split 8 (array_len it))).
    apply le_combine_split.
Qed.

End Blocks.

(** ** The packer *)

Section Packer.

Lemma keys_end_ge (lens : list Z) :
  forall o, Forall (fun n => 0 <= n) lens -> o <= keys_end o lens.
Proof.
  induction lens as [|n lens IH]; intros o H; cbn [keys_end]; [lia|].
  inversion H; subst. specialize (IH (o + n) H3). lia.
Qed.

Lemma arrays_end_ge (sizes : list Z) :
  forall o, Forall (fun n => 0 <= n) sizes -> o <= arrays_end o sizes.
Proof.
  induction sizes as [|n sizes IH]; intros o H; cbn [arrays_end]; [lia|].
  inversion H; subst. specialize (IH (round_up o + n) H3).
  pose proof (round_up_bounds o). lia.
Qed.

(** The key loop of the packer, when no offset passes 2^64. *)
Lemma pack_keys_exact (l : list kaitem_t) :
  forall o,
    0 <= o ->
    Forall (fun n => 0 <= n) (map key_len l) ->
    keys_end o (map key_len l) < 2 ^ 64 ->
    snd (pack_keys o l) = keys_end o (map key_len l)
    /\ map key_start (fst (pack_keys o l)) = walk_keys o (map key_len l)
    /\ map strip (fst (pack_keys o l)) = map strip l
    /\ map array_start (fst (pack_keys o l)) = map array_start l.
Proof.
  induction l as [|it l IH]; intros o Ho Hpos Hend; cbn [pack_keys map keys_end walk_keys].
  - repeat split.
  - cbn [map keys_end] in Hpos, Hend. inversion Hpos as [|? ? Hit Hrest]; subst.
    pose proof (keys_end_ge (map key_len l) (o + key_len it) Hrest) as Hge.
    rewrite add64_small by lia.
    destruct (IH (o + key_len it) ltac:(lia) Hrest Hend) as (E1 & E2 & E3 & E4).
    destruct (pack_keys (o + key_len it) l) as [rest' o'].
    cbn [fst snd] in *. cbn [map]. rewrite E2, E3, E4. repeat split; assumption.
Qed.

(** The array loop of the packer, when no offset passes 2^64. *)
Lemma pack_arrays_exact (l : list kaitem_t) :
  forall o,
    0 <= o ->
    Forall (fun n => 0 <= n) (map item_size l) ->
    arrays_end o (map item_size l) < 2 ^ 64 ->
    snd (pack_arrays o l) = arrays_end o (map item_size l)
    /\ map array_start (fst (pack_arrays o l)) = walk_arrays o (map item_size l)
    /\ map strip (fst (pack_arrays o l)) = map strip l
    /\ map key_start (fst (pack_arrays o l)) = map key_start l.
Proof.
  induction l as [|it l IH]; intros o Ho Hpos Hend;
    cbn [pack_arrays map arrays_end walk_arrays].
  - repeat split.
  - cbn [map arrays_end] in Hpos, Hend. inversion Hpos as [|? ? Hit Hrest]; subst.
    pose proof (arrays_end_ge (map item_size l) (round_up o + item_size it) Hrest) as Hge.
    pose proof (round_up_bounds o) as Hb.
    rewrite align_up_exact by lia.
    fold (item_size it) in *.
    rewrite (mul64_small (array_len it) (type_size (type it)))
      by (fold (item_size it); lia).
    fold (item_size it).
    rewrite add64_small by lia.
    destruct (IH (round_up o + item_size it) ltac:(lia) Hrest Hend) as (E1 & E2 & E3 & E4).
    destruct (pack_arrays (round_up o + item_size it) l) as [rest' o'].
    cbn [fst snd] in *. cbn [map]. rewrite E2, E3, E4. repeat split; assumption.
Qed.

(** Every array start the packer sets is a multiple of 8, wrap-around or
    not. *)
Lemma pack_arrays_aligned (l : list kaitem_t) :
  forall o, Forall (fun it => array_start it mod 8 = 0) (fst (pack_arrays o l)).
Proof.
  induction l as [|it l IH]; intros o; cbn [pack_arrays].
  - constructor.
  - specialize (IH (add64 (align_up o) (mul64 (array_len it) (type_size (type it))))).
    destruct (pack_arrays _ l) as [rest' o']. cbn [fst] in *.
    constructor; [apply align_up_mod | exact IH].
Qed.


Lemma map_strip_length (l l' : list kaitem_t) :
  map strip l = map strip l' -> List.length l = List.length l'.
Proof.
  intros H. rewrite <- (length_map strip l), H. apply length_map.
Qed.

Lemma map_strip_via {B : Type} (f : kaitem_t -> B) (l l' : list kaitem_t) :
  (forall it, f (strip it) = f it) ->
  map strip l = map strip l' -> map f l = map f l'.
Proof.
  intros Hf H.
  rewrite <- (map_ext (fun it => f (strip it)) f Hf l).
  rewrite <- (map_ext (fun it => f (strip it)) f Hf l').
  rewrite <- !(map_map strip f). rewrite H. reflexivity.
Qed.

End Packer.

(** ** The writer *)

Section Writer.

Lemma fs_set_fs_same (w : world) (name : string) (content : list byte) :
  fs (set_fs w name content) name = Some content.
Proof. cbn. rewrite String.eqb_refl. reflexivity. Qed.

(** A write to an open stream appends to its file. *)
Lemma fwrite_appends (ptr : list byte) (size : Z) (f : FILE) (w : world)
  (old : list byte) :
  fs w (f_name f) = Some old -> size <> 0 ->
  exists f' w',
    fwrite ptr size (Some f) w = (1, Some f', w')
    /\ f_name f' = f_name f
    /\ fs w' (f_name f) = Some (old ++ firstn (Z.to_nat size) ptr).
Proof.
  intros Hfs Hsize. unfold fwrite. rewrite Hfs.
  destruct (size =? 0) eqn:E; [apply Z.eqb_eq in E; contradiction|].
  eexists; eexists. split; [reflexivity|]. split; [reflexivity|].
  apply fs_set_fs_same.
Qed.

Lemma firstn_repeat_le {A : Type} (x : A) (n m : nat) :
  (n <= m)%nat -> firstn n (repeat x m) = repeat x n.
Proof.
  revert m. induction n as [|n IH]; intros m H; [reflexivity|].
  destruct m as [|m]; [lia|]. cbn. f_equal. apply IH. lia.
Qed.

Lemma write_descriptors_loop_ok (l : list kaitem_t) :
  forall f w old,
    fs w (f_name f) = Some old ->
    exists f' w',
      write_descriptors_loop l (Some f) w = (KAS_OK, Some f', w')
      /\ f_name f' = f_name f
      /\ fs w' (f_name f) = Some (old ++ List.concat (map descriptor_block l)).
Proof.
  induction l as [|it l IH]; intros f w old Hfs; cbn [write_descriptors_loop map List.concat].
  - exists f, w. rewrite app_nil_r. auto.
  - destruct (fwrite_appends (descriptor_block it) KAS_ITEM_DESCRIPTOR_SIZE f w old Hfs
               ltac:(discriminate))
      as (f1 & w1 & E & Hn & Hfs1).
    rewrite E. cbn [Z.eqb negb].
    rewrite <- Hn in Hfs1.
    destruct (IH f1 w1 _ Hfs1) as (f2 & w2 & E2 & Hn2 & Hfs2).
    exists f2, w2. rewrite E2. split; [reflexivity|]. split; [congruence|].
    rewrite <- Hn, Hfs2. rewrite <- app_assoc. reflexivity.
Qed.

Lemma write_keys_loop_ok (l : list kaitem_t) :
  forall o f w old,
    fs w (f_name f) = Some old ->
    0 <= o ->
    Forall (fun n => 1 <= n) (map key_len l) ->
    keys_end o (map key_len l) < 2 ^ 64 ->
    exists f' w',
      write_keys_loop l o (Some f) w = (KAS_OK, keys_end o (map key_len l), Some f', w')
      /\ f_name f' = f_name f
      /\ fs w' (f_name f) = Some (old ++ keys_image l).
Proof.
  induction l as [|it l IH]; intros o f w old Hfs Ho Hpos Hend;
    cbn [write_keys_loop map keys_end].
  - exists f, w. unfold keys_image. cbn. rewrite app_nil_r. auto.
  - cbn [map keys_end] in Hpos, Hend. inversion Hpos as [|? ? Hit Hrest]; subst.
    assert (Hrest0 : Forall (fun n => 0 <= n) (map key_len l)).
    { eapply Forall_impl; [|exact Hrest]. cbn. intros; lia. }
    pose proof (keys_end_ge (map key_len l) (o + key_len it) Hrest0) as Hge.
    destruct (fwrite_appends (key it) (key_len it) f w old Hfs ltac:(lia))
      as (f1 & w1 & E & Hn & Hfs1).
    rewrite E. cbn [Z.eqb negb].
    rewrite add64_small by lia.
    rewrite <- Hn in Hfs1.
    destruct (IH (o + key_len it) f1 w1 _ Hfs1 ltac:(lia) Hrest Hend)
      as (f2 & w2 & E2 & Hn2 & Hfs2).
    exists f2, w2. rewrite E2. split; [reflexivity|]. split; [congruence|].
    rewrite <- Hn, Hfs2. f_equal. rewrite <- app_assoc. reflexivity.
Qed.

Lemma write_arrays_loop_ok (l : list kaitem_t) :
  forall o f w old,
    fs w (f_name f) = Some old ->
    0 <= o ->
    Forall (fun n => 0 <= n) (map item_size l) ->
    arrays_end o (map item_size l) < 2 ^ 64 ->
    map array_start l = walk_arrays o (map item_size l) ->
    exists f' w',
      write_arrays_loop l o (Some f) w = (KAS_OK, Some f', w')
      /\ f_name f' = f_name f
      /\ fs w' (f_name f) = Some (old ++ arrays_image o l).
Proof.
  induction l as [|it l IH]; intros o f w old Hfs Ho Hpos Hend Hwalk;
    cbn [write_arrays_loop arrays_image].
  - exists f, w. rewrite app_nil_r. auto.
  - cbn [map arrays_end walk_arrays] in Hpos, Hend, Hwalk.
    inversion Hpos as [|? ? Hit Hrest]; subst.
    injection Hwalk as Hstart Hwalk.
    pose proof (arrays_end_ge (map item_size l) (round_up o + item_size it) Hrest) as Hge.
    pose proof (round_up_bounds o) as Hb.
    rewrite Hstart in *.
    rewrite (sub64_small (round_up o) o) by lia.
    rewrite (mul64_small (array_len it) (type_size (type it)))
      by (fold (item_size it); lia).
    fold (item_size it).
    rewrite add64_small by lia.
    (* the padding *)
    assert (Hpad : exists f1 w1,
               (if 0 <? round_up o - o then fwrite pad (round_up o - o) (Some f) w
                else (1, Some f, w)) = (1, Some f1, w1)
               /\ f_name f1 = f_name f
               /\ fs w1 (f_name f)
                  = Some (old ++ repeat Byte.x00 (Z.to_nat (round_up o - o)))).
    { destruct (0 <? round_up o - o) eqn:E.
      - apply Z.ltb_lt in E.
        destruct (fwrite_appends pad (round_up o - o) f w old Hfs ltac:(lia))
          as (f1 & w1 & E1 & Hn & Hfs1).
        exists f1, w1. split; [exact E1|]. split; [exact Hn|].
        rewrite Hfs1. f_equal. f_equal. unfold pad.
        apply firstn_repeat_le. change (Z.to_nat KAS_ARRAY_ALIGN) with 8%nat. lia.
      - apply Z.ltb_ge in E. exists f, w. split; [reflexivity|]. split; [reflexivity|].
        replace (round_up o - o) with 0 by lia. cbn. rewrite app_nil_r. exact Hfs. }
    destruct Hpad as (f1 & w1 & E1 & Hn1 & Hfs1). rewrite E1. cbn [Z.eqb negb].
    (* the array *)
    assert (Harr : exists f2 w2,
               (if 0 <? item_size it then fwrite (array it) (item_size it) (Some f1) w1
                else (1, Some f1, w1)) = (1, Some f2, w2)
               /\ f_name f2 = f_name f
               /\ fs w2 (f_name f)
                  = Some ((old ++ repeat Byte.x00 (Z.to_nat (round_up o - o)))
                            ++ array_bytes it)).
    { destruct (0 <? item_size it) eqn:E.
      - apply Z.ltb_lt in E. rewrite <- Hn1 in Hfs1.
        destruct (fwrite_appends (array it) (item_size it) f1 w1 _ Hfs1 ltac:(lia))
          as (f2 & w2 & E2 & Hn2 & Hfs2).
        exists f2, w2. split; [exact E2|]. split; [congruence|].
        rewrite <- Hn1. exact Hfs2.
      - apply Z.ltb_ge in E. exists f1, w1. split; [reflexivity|]. split; [exact Hn1|].
        unfold array_bytes. replace (item_size it) with 0 by lia. cbn.
        rewrite app_nil_r. exact Hfs1. }
    destruct Harr as (f2 & w2 & E2 & Hn2 & Hfs2). rewrite E2. cbn [Z.eqb negb].
    rewrite <- Hn2 in Hfs2.
    destruct (IH (round_up o + item_size it) f2 w2 _ Hfs2 ltac:(lia) Hrest Hend Hwalk)
      as (f3 & w3 & E3 & Hn3 & Hfs3).
    exists f3, w3. rewrite E3. split; [reflexivity|]. split; [congruence|].
    rewrite <- Hn2, Hfs3. f_equal. rewrite <- !app_assoc. reflexivity.
Qed.

End Writer.

(** ** The order on keys *)

Section Order.

Lemma lex_refl (a : list byte) : lex a a = 0.
Proof.
  induction a as [|x a IH]; [reflexivity|].
  cbn [lex]. rewrite Z.ltb_irrefl. exact IH.
Qed.

Lemma lex_eq (a : list byte) : forall b, lex a b = 0 -> a = b.
Proof.
  induction a as [|x a IH]; intros [|y b] H; cbn [lex] in H;
    try reflexivity; try discriminate.
  destruct (byte.unsigned x <? byte.unsigned y) eqn:E1; [discriminate|].
  destruct (byte.unsigned y <? byte.unsigned x) eqn:E2; [discriminate|].
  apply Z.ltb_ge in E1, E2.
  f_equal; [apply byte.unsigned_inj; lia | apply IH; exact H].
Qed.

Lemma lex_antisym (a : list byte) : forall b, lex b a = - lex a b.
Proof.
  induction a as [|x a IH]; intros [|y b]; cbn [lex]; try reflexivity.
  destruct (byte.unsigned x <? byte.unsigned y) eqn:E1;
    destruct (byte.unsigned y <? byte.unsigned x) eqn:E2;
    try reflexivity.
  - apply Z.ltb_lt in E1, E2. lia.
  - apply IH.
Qed.

Lemma lex_trans (a : list byte) :
  forall b c, lex a b <= 0 -> lex b c <= 0 -> lex a c <= 0.
Proof.
  induction a as [|x a IH]; intros [|y b] [|z c]; cbn [lex]; try lia.
  destruct (byte.unsigned x <? byte.unsigned y) eqn:E1;
    destruct (byte.unsigned y <? byte.unsigned x) eqn:E2;
    destruct (byte.unsigned y <? byte.unsigned z) eqn:E3;
    destruct (byte.unsigned z <? byte.unsigned y) eqn:E4;
    destruct (byte.unsigned x <? byte.unsigned z) eqn:E5;
    destruct (byte.unsigned z <? byte.unsigned x) eqn:E6;
    try lia;
    try (apply Z.ltb_lt in E1); try (apply Z.ltb_ge in E1);
    try (apply Z.ltb_lt in E2); try (apply Z.ltb_ge in E2);
    try (apply Z.ltb_lt in E3); try (apply Z.ltb_ge in E3);
    try (apply Z.ltb_lt in E4); try (apply Z.ltb_ge in E4);
    try (apply Z.ltb_lt in E5); try (apply Z.ltb_ge in E5);
    try (apply Z.ltb_lt in E6); try (apply Z.ltb_ge in E6);
    try lia.
  apply IH.
Qed.

(** [memcmp] looks at no more than [n] bytes of either block. *)
Lemma memcmp_firstn (n : nat) :
  forall a b m1 m2, (n <= m1)%nat -> (n <= m2)%nat ->
    memcmp (firstn m1 a) (firstn m2 b) n = memcmp a b n.
Proof.
  induction n as [|n IH]; intros a b m1 m2 H1 H2;
    [destruct a, b, m1, m2; reflexivity|].
  destruct m1 as [|m1]; [lia|]. destruct m2 as [|m2]; [lia|].
  destruct a as [|x a]; destruct b as [|y b]; cbn [firstn memcmp]; try reflexivity.
  rewrite IH by lia. reflexivity.
Qed.

(** On whole blocks, [memcmp] over the common length followed by the
    comparison of the lengths is the lexicographic order. *)
Lemma memcmp_lex (a : list byte) :
  forall b,
    let la := Z.of_nat (List.length a) in
    let lb := Z.of_nat (List.length b) in
    let r := memcmp a b (Z.to_nat (if la <? lb then la else lb)) in
    (if r =? 0 then b2z (la >? lb) - b2z (la <? lb) else r) = lex a b.
Proof.
  induction a as [|x a IH]; intros [|y b]; cbn zeta.
  - reflexivity.
  - cbn [List.length lex]. rewrite Nat2Z.inj_succ.
    replace (Z.of_nat 0 <? Z.succ (Z.of_nat (List.length b))) with true
      by (symmetry; apply Z.ltb_lt; lia).
    cbn [Z.of_nat Z.to_nat memcmp Z.eqb].
    replace (0 >? Z.succ (Z.of_nat (List.length b))) with false
      by (symmetry; rewrite Z.gtb_ltb; apply Z.ltb_ge; lia).
    replace (0 <? Z.succ (Z.of_nat (List.length b))) with true
      by (symmetry; apply Z.ltb_lt; lia).
    reflexivity.
  - cbn [List.length lex]. rewrite Nat2Z.inj_succ.
    replace (Z.succ (Z.of_nat (List.length a)) <? Z.of_nat 0) with false
      by (symmetry; apply Z.ltb_ge; cbn; lia).
    cbn [Z.of_nat Z.to_nat memcmp Z.eqb].
    replace (Z.succ (Z.of_nat (List.length a)) >? 0) with true
      by (symmetry; rewrite Z.gtb_ltb; apply Z.ltb_lt; lia).
    replace (Z.succ (Z.of_nat (List.length a)) <? 0) with false
      by (symmetry; apply Z.ltb_ge; lia).
    reflexivity.
  - specialize (IH b). cbn zeta in IH.
    cbn [List.length lex]. rewrite !Nat2Z.inj_succ.
    set (la := Z.of_nat (List.length a)) in *.
    set (lb := Z.of_nat (List.length b)) in *.
    assert (Hmin : Z.to_nat (if Z.succ la <? Z.succ lb then Z.succ la else Z.succ lb)
                   = S (Z.to_nat (if la <? lb then la else lb))).
    { destruct (la <? lb) eqn:E.
      - apply Z.ltb_lt in E.
        replace (Z.succ la <? Z.succ lb) with true by (symmetry; apply Z.ltb_lt; lia).
        subst la. lia.
      - apply Z.ltb_ge in E.
        replace (Z.succ la <? Z.succ lb) with false by (symmetry; apply Z.ltb_ge; lia).
        subst lb. lia. }
    rewrite Hmin. cbn [memcmp].
    destruct (byte.unsigned x <? byte.unsigned y); [reflexivity|].
    destruct (byte.unsigned y <? byte.unsigned x); [reflexivity|].
    rewrite <- IH.
    replace (Z.succ la >? Z.succ lb) with (la >? lb)
      by (rewrite !Z.gtb_ltb; destruct (lb <? la) eqn:E;
          [apply Z.ltb_lt in E; symmetry; apply Z.ltb_lt; lia
          |apply Z.ltb_ge in E; symmetry; apply Z.ltb_ge; lia]).
    replace (Z.succ la <? Z.succ lb) with (la <? lb)
      by (destruct (la <? lb) eqn:E;
          [apply Z.ltb_lt in E; symmetry; apply Z.ltb_lt; lia
          |apply Z.ltb_ge in E; symmetry; apply Z.ltb_ge; lia]).
    reflexivity.
Qed.

Lemma length_key_bytes (it : kaitem_t) :
  keyed it -> Z.of_nat (List.length (key_bytes it)) = key_len it.
Proof.
  intros [H1 H2]. unfold key_bytes. rewrite length_firstn. lia.
Qed.

(** [compare_items] is the order of section 4.2 on the keys. *)
Lemma compare_items_lex (ia ib : kaitem_t) :
  keyed ia -> keyed ib -> compare_items ia ib = lex (key_bytes ia) (key_bytes ib).
Proof.
  intros Ha Hb.
  pose proof (length_key_bytes ia Ha) as La.
  pose proof (length_key_bytes ib Hb) as Lb.
  rewrite <- memcmp_lex. cbn zeta. rewrite La, Lb.
  unfold compare_items, key_bytes.
  rewrite memcmp_firstn; [reflexivity| |];
    destruct Ha, Hb; destruct (key_len ia <? key_len ib) eqn:E;
    try (apply Z.ltb_lt in E); try (apply Z.ltb_ge in E); lia.
Qed.

End Order.

(** ** Sorting and searching *)

Section SortSearch.

Lemma qsort_insert_perm (x : kaitem_t) (l : list kaitem_t) :
  Permutation (qsort_insert x l) (x :: l).
Proof.
  induction l as [|y l IH]; cbn [qsort_insert]; [apply Permutation_refl|].
  destruct (compare_items x y <=? 0); [apply Permutation_refl|].
  eapply Permutation_trans; [apply perm_skip; exact IH | apply perm_swap].
Qed.

Lemma qsort_perm (l : list kaitem_t) : Permutation (qsort l) l.
Proof.
  induction l as [|x l IH]; [apply Permutation_refl|].
  cbn [qsort fold_right]. fold (qsort l).
  eapply Permutation_trans; [apply qsort_insert_perm | apply perm_skip; exact IH].
Qed.

Lemma qsort_insert_sorted (x : kaitem_t) (l : list kaitem_t) :
  keyed x -> Forall keyed l ->
  StronglySorted (fun a b => lex (key_bytes a) (key_bytes b) <= 0) l ->
  StronglySorted (fun a b => lex (key_bytes a) (key_bytes b) <= 0) (qsort_insert x l).
Proof.
  intros Hx Hl Hs. induction Hs as [|y l Hs IH Hy]; cbn [qsort_insert].
  - constructor; constructor.
  - inversion Hl as [|? ? Hky Hkl]; subst.
    rewrite (compare_items_lex x y Hx Hky).
    destruct (lex (key_bytes x) (key_bytes y) <=? 0) eqn:E.
    + apply Z.leb_le in E. constructor; [constructor; assumption|].
      constructor; [exact E|].
      eapply Forall_impl; [|exact Hy]. cbn. intros z Hz.
      eapply lex_trans; eassumption.
    + apply Z.leb_gt in E. constructor; [apply IH; exact Hkl|].
      apply (Permutation_Forall (Permutation_sym (qsort_insert_perm x l))).
      constructor; [|exact Hy].
      pose proof (lex_antisym (key_bytes x) (key_bytes y)). lia.
Qed.

Lemma qsort_sorted (l : list kaitem_t) :
  Forall keyed l ->
  StronglySorted (fun a b => lex (key_bytes a) (key_bytes b) <= 0) (qsort l).
Proof.
  induction l as [|x l IH]; intros H; [constructor|].
  inversion H; subst. cbn [qsort fold_right]. fold (qsort l).
  apply qsort_insert_sorted; [assumption| |apply IH; assumption].
  apply (Permutation_Forall (Permutation_sym (qsort_perm l))). assumption.
Qed.

(** Sorted items with distinct keys have their keys strictly ascending. *)
Lemma sorted_distinct_ascending (l : list kaitem_t) :
  StronglySorted (fun a b => lex (key_bytes a) (key_bytes b) <= 0) l ->
  NoDup (map key_bytes l) ->
  ascending (map key_bytes l).
Proof.
  unfold ascending. intros Hs. induction Hs as [|x l Hs IH Hx]; intros Hnd; cbn [map].
  - constructor.
  - inversion Hnd as [|? ? Hnotin Hnd']; subst.
    constructor; [apply IH; exact Hnd'|].
    rewrite Forall_map. rewrite Forall_forall in *. intros z Hz.
    specialize (Hx z Hz).
    destruct (Z.eq_dec (lex (key_bytes x) (key_bytes z)) 0) as [E|E]; [|lia].
    apply lex_eq in E. exfalso. apply Hnotin. rewrite E. apply in_map. exact Hz.
Qed.

Lemma qsort_ascending (l : list kaitem_t) :
  Forall keyed l -> NoDup (map key_bytes l) -> ascending (map key_bytes (qsort l)).
Proof.
  intros Hk Hnd. apply sorted_distinct_ascending; [apply qsort_sorted; exact Hk|].
  eapply Permutation_NoDup; [|exact Hnd].
  apply Permutation_map, Permutation_sym, qsort_perm.
Qed.

Lemma ascending_nth (keys : list (list byte)) :
  ascending keys ->
  forall i j a b, (i < j)%nat ->
    nth_error keys i = Some a -> nth_error keys j = Some b -> lex a b < 0.
Proof.
  unfold ascending. intros Hs. induction Hs as [|x l Hs IH Hx]; intros i j a b Hij Hi Hj.
  - destruct i; discriminate.
  - destruct j as [|j]; [lia|]. cbn [nth_error] in Hj.
    destruct i as [|i]; cbn [nth_error] in Hi.
    + injection Hi as <-. rewrite Forall_forall in Hx. apply Hx.
      eapply nth_error_In. exact Hj.
    + eapply IH; [|exact Hi|exact Hj]. lia.
Qed.

(** What the bisection returns is an item of the array that compares equal
    to the key. *)
Lemma bsearch_loop_sound (fuel : nat) (k : kaitem_t) (base : list kaitem_t) :
  forall l u p,
    bsearch_loop fuel k base l u = Some p -> In p base /\ compare_items k p = 0.
Proof.
  induction fuel as [|fuel IH]; intros l u p H; cbn [bsearch_loop] in H; [discriminate|].
  destruct (l <? u); [|discriminate].
  destruct (nth_error base (Z.to_nat ((l + u) / 2))) as [q|] eqn:Eq; [|discriminate].
  destruct (compare_items k q <? 0) eqn:E1; [eapply IH; exact H|].
  destruct (0 <? compare_items k q) eqn:E2; [eapply IH; exact H|].
  injection H as <-. apply Z.ltb_ge in E1, E2.
  split; [eapply nth_error_In; exact Eq | lia].
Qed.

(** On an array with strictly ascending keys the bisection finds the item
    that has the key, within the fuel [bsearch] gives it. *)
Lemma bsearch_loop_complete (k : kaitem_t) (base : list kaitem_t) (i : nat)
  (p : kaitem_t) :
  keyed k -> Forall keyed base ->
  ascending (map key_bytes base) ->
  nth_error base i = Some p ->
  key_bytes p = key_bytes k ->
  forall fuel l u,
    0 <= l <= Z.of_nat i -> Z.of_nat i < u <= Z.of_nat (List.length base) ->
    u - l < Z.of_nat fuel ->
    bsearch_loop fuel k base l u = Some p.
Proof.
  intros Hk Hbase Hasc Hi Hkey.
  induction fuel as [|fuel IH]; intros l u Hl Hu Hfuel; [lia|].
  cbn [bsearch_loop].
  replace (l <? u) with true by (symmetry; apply Z.ltb_lt; lia).
  pose proof (Z.div_mod (l + u) 2 ltac:(lia)) as Hd.
  pose proof (Z.mod_pos_bound (l + u) 2 ltac:(lia)) as Hm.
  set (idx := (l + u) / 2) in *.
  assert (Hidx : l <= idx < u) by lia.
  destruct (nth_error base (Z.to_nat idx)) as [q|] eqn:Eq;
    [|apply nth_error_None in Eq; lia].
  assert (Hq : keyed q).
  { rewrite Forall_forall in Hbase. apply Hbase. eapply nth_error_In. exact Eq. }
  rewrite (compare_items_lex k q Hk Hq), <- Hkey.
  assert (Hcmp : forall a b x y, (a < b)%nat ->
                   nth_error base a = Some x -> nth_error base b = Some y ->
                   lex (key_bytes x) (key_bytes y) < 0).
  { intros a b x y Hab Ha Hb.
    apply (ascending_nth _ Hasc a b); [exact Hab| |];
      rewrite nth_error_map; [rewrite Ha | rewrite Hb]; reflexivity. }
  destruct (Nat.lt_trichotomy (Z.to_nat idx) i) as [Hlt | [Heq | Hgt]].
  - pose proof (Hcmp _ _ _ _ Hlt Eq Hi) as Hc.
    pose proof (lex_antisym (key_bytes q) (key_bytes p)) as Ha.
    replace (lex (key_bytes p) (key_bytes q) <? 0) with false
      by (symmetry; apply Z.ltb_ge; lia).
    replace (0 <? lex (key_bytes p) (key_bytes q)) with true
      by (symmetry; apply Z.ltb_lt; lia).
    apply IH; lia.
  - rewrite Heq in Eq. rewrite Hi in Eq. injection Eq as <-.
    rewrite lex_refl. reflexivity.
  - pose proof (Hcmp _ _ _ _ Hgt Hi Eq) as Hc.
    replace (lex (key_bytes p) (key_bytes q) <? 0) with true
      by (symmetry; apply Z.ltb_lt; lia).
    apply IH; lia.
Qed.

End SortSearch.

(** ** Lookup *)

Section Lookup.

Variables (s : kastore_t) (k : list byte) (klen : Z).
Hypothesis Hnum : num_items s = Z.of_nat (List.length (items s)).
Hypothesis Hkeyed : Forall keyed (items s).
Hypothesis Hklen : 0 <= klen <= Z.of_nat (List.length k).

Let search := set_key zero_item 0 klen (firstn (Z.to_nat klen) k).

Lemma search_keyed : keyed search.
Proof.
  unfold keyed, search. cbn [set_key key_len key]. rewrite length_firstn. lia.
Qed.

Lemma search_key_bytes : key_bytes search = firstn (Z.to_nat klen) k.
Proof.
  unfold key_bytes, search. cbn [set_key key_len key].
  apply firstn_all2. rewrite length_firstn. lia.
Qed.

(** A key that is in a store with ascending keys is found, and get hands
    back the array, length and type of its item. *)
Lemma kastore_get_found (p : kaitem_t) :
  ascending (map key_bytes (items s)) ->
  In p (items s) ->
  key_bytes p = firstn (Z.to_nat klen) k ->
  kastore_get s k klen = (KAS_OK, Some (array p, array_len p, type p)).
Proof.
  intros Hasc Hin Hkey.
  destruct (In_nth_error _ _ Hin) as [i Hi].
  assert (Hlt : (i < List.length (items s))%nat).
  { apply nth_error_Some. rewrite Hi. discriminate. }
  unfold kastore_get. fold search. unfold bsearch.
  rewrite (bsearch_loop_complete search (items s) i p search_keyed Hkeyed Hasc Hi);
    [reflexivity | | | |].
  - rewrite search_key_bytes. exact Hkey.
  - lia.
  - lia.
  - lia.
Qed.

(** A key that no item has is not found. *)
Lemma kastore_get_missing :
  (forall p, In p (items s) -> key_bytes p <> firstn (Z.to_nat klen) k) ->
  kastore_get s k klen = (KAS_ERR_KEY_NOT_FOUND, None).
Proof.
  intros Hnone. unfold kastore_get. fold search.
  destruct (bsearch search (items s) (num_items s)) as [p|] eqn:E; [|reflexivity].
  unfold bsearch in E. apply bsearch_loop_sound in E. destruct E as [Hin Hc].
  exfalso. apply (Hnone p Hin).
  rewrite compare_items_lex in Hc; [|apply search_keyed|].
  - apply lex_eq in Hc. rewrite <- Hc. apply search_key_bytes.
  - rewrite Forall_forall in Hkeyed. apply Hkeyed. exact Hin.
Qed.

End Lookup.

(** ** Keys and arrays in the file *)

Section Regions.

Lemma walk_keys_bounds (l : list kaitem_t) :
  forall o,
    map key_start l = walk_keys o (map key_len l) ->
    Forall (fun n => 0 <= n) (map key_len l) ->
    Forall (fun it => o <= key_start it
                      /\ key_start it + key_len it <= keys_end o (map key_len l)) l.
Proof.
  induction l as [|it l IH]; intros o Hw Hpos; [constructor|].
  cbn [map walk_keys keys_end] in *. injection Hw as Hs Hw.
  apply Forall_cons_iff in Hpos. destruct Hpos as [Hit Hrest].
  pose proof (keys_end_ge (map key_len l) (o + key_len it) Hrest) as Hge.
  constructor; [lia|].
  eapply Forall_impl; [|apply (IH _ Hw Hrest)]. intros a Ha. cbv beta in *. lia.
Qed.

Lemma walk_arrays_bounds (l : list kaitem_t) :
  forall o,
    map array_start l = walk_arrays o (map item_size l) ->
    Forall (fun n => 0 <= n) (map item_size l) ->
    Forall (fun it => o <= array_start it
                      /\ array_start it + item_size it
                         <= arrays_end o (map item_size l)) l.
Proof.
  induction l as [|it l IH]; intros o Hw Hpos; [constructor|].
  cbn [map walk_arrays arrays_end] in *. injection Hw as Hs Hw.
  apply Forall_cons_iff in Hpos. destruct Hpos as [Hit Hrest].
  pose proof (arrays_end_ge (map item_size l) (round_up o + item_size it) Hrest) as Hge.
  pose proof (round_up_bounds o) as Hb.
  constructor; [lia|].
  eapply Forall_impl; [|apply (IH _ Hw Hrest)]. intros a Ha. cbv beta in *. lia.
Qed.

Lemma length_keys_image (l : list kaitem_t) :
  forall o,
    Forall keyed l ->
    o + Z.of_nat (List.length (keys_image l)) = keys_end o (map key_len l).
Proof.
  induction l as [|it l IH]; intros o Hk; unfold keys_image in *;
    cbn [map List.concat keys_end List.length]; [lia|].
  apply Forall_cons_iff in Hk. destruct Hk as [Hit Hrest].
  rewrite length_app, Nat2Z.inj_add, (length_key_bytes it Hit).
  rewrite <- (IH (o + key_len it) Hrest). lia.
Qed.

Lemma length_array_bytes (it : kaitem_t) :
  0 <= item_size it <= Z.of_nat (List.length (array it)) ->
  Z.of_nat (List.length (array_bytes it)) = item_size it.
Proof.
  intros H. unfold array_bytes. rewrite length_firstn. lia.
Qed.

Lemma length_arrays_image (l : list kaitem_t) :
  forall o,
    map array_start l = walk_arrays o (map item_size l) ->
    Forall (fun it => 0 <= item_size it <= Z.of_nat (List.length (array it))) l ->
    o + Z.of_nat (List.length (arrays_image o l)) = arrays_end o (map item_size l).
Proof.
  induction l as [|it l IH]; intros o Hw Hk;
    cbn [map arrays_image arrays_end walk_arrays List.length] in *; [lia|].
  injection Hw as Hs Hw.
  apply Forall_cons_iff in Hk. destruct Hk as [Hit Hrest].
  pose proof (round_up_bounds o) as Hb.
  rewrite !length_app, repeat_length, !Nat2Z.inj_add, (length_array_bytes it Hit).
  rewrite Hs in *. rewrite <- (IH _ Hw Hrest). lia.
Qed.

(** Each key is in the buffer at its [key_start]. *)
Lemma keys_in_buffer (l : list kaitem_t) :
  forall o p q buf,
    buf = p ++ keys_image l ++ q ->
    Z.of_nat (List.length p) = o ->
    map key_start l = walk_keys o (map key_len l) ->
    Forall keyed l ->
    Forall (fun it => key_bytes (reparse buf it) = key_bytes it) l.
Proof.
  induction l as [|it l IH]; intros o p q buf Hbuf Hp Hw Hk; [constructor|].
  cbn [map walk_keys] in Hw. injection Hw as Hs Hw.
  apply Forall_cons_iff in Hk. destruct Hk as [Hit Hrest]. subst o.
  pose proof (length_key_bytes it Hit) as Hlen.
  constructor.
  - unfold key_bytes at 1. cbn [reparse key_len key]. rewrite Hbuf, Hs.
    rewrite Nat2Z.id. rewrite skipn_app_exact by reflexivity.
    unfold keys_image. cbn [map List.concat]. rewrite <- !app_assoc.
    apply firstn_app_exact. lia.
  - apply (IH (Z.of_nat (List.length p) + key_len it) (p ++ key_bytes it) q buf).
    + rewrite Hbuf. unfold keys_image. cbn [map List.concat].
      rewrite <- !app_assoc. reflexivity.
    + rewrite length_app, Nat2Z.inj_add. lia.
    + exact Hw.
    + exact Hrest.
Qed.

(** Each array is in the buffer at its [array_start]. *)
Lemma arrays_in_buffer (l : list kaitem_t) :
  forall o p q buf,
    buf = p ++ arrays_image o l ++ q ->
    Z.of_nat (List.length p) = o ->
    map array_start l = walk_arrays o (map item_size l) ->
    Forall (fun it => 0 <= item_size it <= Z.of_nat (List.length (array it))) l ->
    Forall (fun it => array_bytes (reparse buf it) = array_bytes it) l.
Proof.
  induction l as [|it l IH]; intros o p q buf Hbuf Hp Hw Hk; [constructor|].
  cbn [map walk_arrays] in Hw. injection Hw as Hs Hw.
  apply Forall_cons_iff in Hk. destruct Hk as [Hit Hrest]. subst o.
  pose proof (length_array_bytes it Hit) as Hlen.
  pose proof (round_up_bounds (Z.of_nat (List.length p))) as Hb.
  cbn [arrays_image] in Hbuf. rewrite Hs in Hbuf.
  set (padding := repeat Byte.x00
                    (Z.to_nat (round_up (Z.of_nat (List.length p))
                               - Z.of_nat (List.length p)))) in *.
  assert (Hpl : Z.of_nat (List.length (p ++ padding))
                = round_up (Z.of_nat (List.length p))).
  { rewrite length_app. unfold padding. rewrite repeat_length. lia. }
  constructor.
  - unfold array_bytes at 1. unfold item_size at 1.
    cbn [reparse array_len type array]. fold (item_size it).
    rewrite Hbuf, Hs.
    replace (p ++ (padding ++ array_bytes it ++ arrays_image
                     (round_up (Z.of_nat (List.length p)) + item_size it) l) ++ q)
      with ((p ++ padding) ++ array_bytes it
              ++ arrays_image (round_up (Z.of_nat (List.length p)) + item_size it) l ++ q)
      by (rewrite <- !app_assoc; reflexivity).
    rewrite skipn_app_exact by lia.
    apply firstn_app_exact. lia.
  - apply (IH (round_up (Z.of_nat (List.length p)) + item_size it)
              ((p ++ padding) ++ array_bytes it) q buf).
    + rewrite Hbuf. rewrite <- !app_assoc. reflexivity.
    + rewrite length_app, Nat2Z.inj_add. lia.
    + exact Hw.
    + exact Hrest.
Qed.

End Regions.

(** ** The reader on a packed file *)

Section Reader.

Lemma item_size_ge (it : kaitem_t) :
  0 <= type it < KAS_NUM_TYPES -> 0 <= array_len it -> array_len it <= item_size it.
Proof.
  intros Ht Ha. unfold item_size.
  pose proof (type_size_bounds (type it) Ht). nia.
Qed.

(** A descriptor written by [kastore_write_descriptors] is read back as the
    item it was written from, pointing into the buffer. *)
Lemma read_descriptor_block (it z : kaitem_t) (p r buf : list byte) (fsize off : Z) :
  buf = p ++ descriptor_block it ++ r ->
  Z.of_nat (List.length p) = off ->
  fsize < 2 ^ 64 ->
  in_file fsize it ->
  read_descriptor buf fsize off z
  = (KAS_OK, mk_item (type it) (key_len it) (array_len it)
               (skipn (Z.to_nat (key_start it)) buf)
               (skipn (Z.to_nat (array_start it)) buf)
               (key_start it) (array_start it)).
Proof.
  intros Hbuf Hp Hf (Ht & Hks & Hkl & Hke & Has & Hal & Hae).
  pose proof (item_size_ge it Ht Hal) as Hsz.
  destruct (load_descriptor it r) as (L0 & L1 & L2 & L3 & L4).
  unfold read_descriptor. rewrite Hbuf.
  rewrite (load_app_skip0 p _ off 1) by (symmetry; exact Hp).
  rewrite !(load_app_skip p _ off) by (try (symmetry; exact Hp); lia).
  rewrite L0, L1, L2, L3, L4.
  unfold KAS_NUM_TYPES in Ht.
  rewrite (Z.mod_small (type it)) by lia.
  rewrite (Z.mod_small (key_start it)) by lia.
  rewrite (Z.mod_small (key_len it)) by lia.
  rewrite (Z.mod_small (array_start it)) by lia.
  rewrite (Z.mod_small (array_len it)) by lia.
  replace (type it >=? KAS_NUM_TYPES) with false
    by (symmetry; rewrite Z.geb_leb; apply Z.leb_gt; unfold KAS_NUM_TYPES; lia).
  rewrite add64_small by lia.
  replace (key_start it + key_len it >? fsize) with false
    by (symmetry; rewrite Z.gtb_ltb; apply Z.ltb_ge; lia).
  rewrite (mul64_small (array_len it) (type_size (type it)))
    by (fold (item_size it); lia).
  fold (item_size it).
  rewrite add64_small by lia.
  replace (array_start it + item_size it >? fsize) with false
    by (symmetry; rewrite Z.gtb_ltb; apply Z.ltb_ge; lia).
  reflexivity.
Qed.

Lemma read_descriptors_loop_image (l : list kaitem_t) :
  forall p r buf fsize off,
    buf = p ++ List.concat (map descriptor_block l) ++ r ->
    Z.of_nat (List.length p) = off ->
    off + 64 * Z.of_nat (List.length l) < 2 ^ 64 ->
    fsize < 2 ^ 64 ->
    Forall (in_file fsize) l ->
    read_descriptors_loop buf fsize off (repeat zero_item (List.length l))
    = (KAS_OK, map (reparse buf) l).
Proof.
  induction l as [|it l IH]; intros p r buf fsize off Hbuf Hp Hoff Hf Hin;
    [reflexivity|].
  apply Forall_cons_iff in Hin. destruct Hin as [Hit Hrest].
  cbn [List.length repeat read_descriptors_loop map List.concat] in *.
  rewrite (read_descriptor_block it zero_item p
             (List.concat (map descriptor_block l) ++ r) buf fsize off);
    [|rewrite Hbuf, <- app_assoc; reflexivity|exact Hp|exact Hf|exact Hit].
  cbn [is_ok negb].
  rewrite add64_small by (unfold KAS_ITEM_DESCRIPTOR_SIZE; lia).
  rewrite (IH (p ++ descriptor_block it) r buf fsize (off + KAS_ITEM_DESCRIPTOR_SIZE)).
  - reflexivity.
  - rewrite Hbuf, <- !app_assoc. reflexivity.
  - rewrite length_app, length_descriptor_block, Nat2Z.inj_add.
    unfold KAS_ITEM_DESCRIPTOR_SIZE. lia.
  - unfold KAS_ITEM_DESCRIPTOR_SIZE. lia.
  - exact Hf.
  - exact Hrest.
Qed.

(** The reader's walk over the keys accepts what the walk of section 4.4
    gives. *)
Lemma check_keys_walk (l : list kaitem_t) :
  forall o,
    0 <= o ->
    map key_start l = walk_keys o (map key_len l) ->
    Forall (fun n => 0 <= n) (map key_len l) ->
    keys_end o (map key_len l) < 2 ^ 64 ->
    check_keys o l = Some (keys_end o (map key_len l)).
Proof.
  induction l as [|it l IH]; intros o Ho Hw Hpos Hend; [reflexivity|].
  cbn [map walk_keys keys_end check_keys] in *. injection Hw as Hs Hw.
  apply Forall_cons_iff in Hpos. destruct Hpos as [Hit Hrest].
  pose proof (keys_end_ge (map key_len l) (o + key_len it) Hrest) as Hge.
  rewrite Hs, Z.eqb_refl. cbn [negb].
  rewrite add64_small by lia.
  apply IH; [lia | exact Hw | exact Hrest | exact Hend].
Qed.

Lemma check_arrays_walk (l : list kaitem_t) :
  forall o,
    0 <= o ->
    map array_start l = walk_arrays o (map item_size l) ->
    Forall (fun n => 0 <= n) (map item_size l) ->
    arrays_end o (map item_size l) < 2 ^ 64 ->
    check_arrays o l = true.
Proof.
  induction l as [|it l IH]; intros o Ho Hw Hpos Hend; [reflexivity|].
  cbn [map walk_arrays arrays_end check_arrays] in *. injection Hw as Hs Hw.
  apply Forall_cons_iff in Hpos. destruct Hpos as [Hit Hrest].
  pose proof (arrays_end_ge (map item_size l) (round_up o + item_size it) Hrest) as Hge.
  pose proof (round_up_bounds o) as Hb.
  rewrite align_up_exact by lia.
  rewrite Hs, Z.eqb_refl. cbn [negb].
  rewrite (mul64_small (array_len it) (type_size (type it)))
    by (fold (item_size it); lia).
  fold (item_size it).
  rewrite add64_small by lia.
  apply IH; [lia | exact Hw | exact Hrest | exact Hend].
Qed.

(** What the reader's walks accept is left as it is by the packer: the
    starts it read are those the packer would set. *)
Lemma check_keys_pack (l : list kaitem_t) :
  forall o o', check_keys o l = Some o' -> pack_keys o l = (l, o').
Proof.
  induction l as [|it l IH]; intros o o' H; cbn [check_keys pack_keys] in *.
  - injection H as <-. reflexivity.
  - destruct (key_start it =? o) eqn:E; cbn [negb] in H; [|discriminate].
    apply Z.eqb_eq in E. rewrite (IH _ _ H). subst o. destruct it; reflexivity.
Qed.

Lemma check_arrays_pack (l : list kaitem_t) :
  forall o, check_arrays o l = true -> fst (pack_arrays o l) = l.
Proof.
  induction l as [|it l IH]; intros o H; cbn [check_arrays pack_arrays] in *;
    [reflexivity|].
  destruct (array_start it =? align_up o) eqn:E; cbn [negb] in H; [|discriminate].
  apply Z.eqb_eq in E. specialize (IH _ H).
  destruct (pack_arrays _ l) as [rest' o']. cbn [fst] in *.
  rewrite IH, <- E. destruct it; reflexivity.
Qed.

End Reader.

Section OpenPacked.

Lemma strncmp_header (h : kastore_t) : strncmp (header_block h) KAS_MAGIC 8 = 0.
Proof. reflexivity. Qed.

(** Reading the header of a file that begins with a header block. *)
Lemma kastore_read_header_block (s0 h : kastore_t) (w : world) (name : string)
  (rest : list byte) :
  file s0 = Some (mk_FILE name 0 false) ->
  fs w name = Some (header_block h ++ rest) ->
  0 <= num_items h < 2 ^ 32 ->
  KAS_HEADER_SIZE <= file_size h < 2 ^ 64 ->
  kastore_read_header s0 w
  = (KAS_OK,
     set_file_size
       (set_num_items
          (set_file_version (set_file s0 (Some (mk_FILE name 64 false)))
             (KAS_FILE_VERSION_MAJOR, KAS_FILE_VERSION_MINOR))
          (num_items h))
       (file_size h),
     w).
Proof.
  intros Hfile Hfs Hn Hsize.
  assert (Hsize' : 64 <= file_size h < 2 ^ 64) by exact Hsize.
  unfold kastore_read_header, fread. rewrite Hfile. cbn [f_name f_pos f_eof].
  rewrite Hfs. cbn [skipn].
  change (KAS_HEADER_SIZE =? 0) with false. cbv iota.
  replace (KAS_HEADER_SIZE <=? Z.of_nat (List.length (header_block h ++ rest)))
    with true
    by (symmetry; apply Z.leb_le; rewrite length_app, length_header_block;
        unfold KAS_HEADER_SIZE; lia).
  change (Z.to_nat KAS_HEADER_SIZE) with 64%nat.
  rewrite (firstn_app_exact (header_block h) rest 64) by reflexivity.
  change (1 =? 0) with false. cbv iota.
  rewrite strncmp_header. cbn [Z.eqb negb].
  change (load (header_block h) 8 2) with (le_combine (le_split 2 KAS_FILE_VERSION_MAJOR)).
  change (load (header_block h) 10 2)
    with (le_combine (le_split 2 KAS_FILE_VERSION_MINOR)).
  change (load (header_block h) 12 4) with (le_combine (le_split 4 (num_items h))).
  change (load (header_block h) 16 8) with (le_combine (le_split 8 (file_size h))).
  rewrite !le_combine_split.
  change (KAS_FILE_VERSION_MAJOR mod 2 ^ (Z.of_nat 2 * 8)) with KAS_FILE_VERSION_MAJOR.
  change (KAS_FILE_VERSION_MINOR mod 2 ^ (Z.of_nat 2 * 8)) with KAS_FILE_VERSION_MINOR.
  change (2 ^ (Z.of_nat 4 * 8)) with (2 ^ 32).
  change (2 ^ (Z.of_nat 8 * 8)) with (2 ^ 64).
  rewrite (Z.mod_small (num_items h)) by lia.
  rewrite (Z.mod_small (file_size h)) by lia.
  cbn [set_file_version file_version fst].
  change (KAS_FILE_VERSION_MAJOR <? KAS_FILE_VERSION_MAJOR) with false.
  change (KAS_FILE_VERSION_MAJOR >? KAS_FILE_VERSION_MAJOR) with false.
  cbv iota.
  cbn [set_file_size set_num_items file_size].
  replace (file_size h <? KAS_HEADER_SIZE) with false
    by (symmetry; apply Z.ltb_ge; unfold KAS_HEADER_SIZE; lia).
  reflexivity.
Qed.

(** The file body, mapped or read, of a file as long as its header says. *)
Lemma backing_buffer (s1 : kastore_t) (w : world) (name : string)
  (content : list byte) (pos : nat) :
  file s1 = Some (mk_FILE name pos false) ->
  filename s1 = name ->
  fs w name = Some content ->
  file_size s1 = Z.of_nat (List.length content) ->
  KAS_HEADER_SIZE <= file_size s1 ->
  exists s2 w2,
    (if mmap_gate (flags s1) then kastore_mmap_file s1 w else kastore_read_file s1 w)
    = (KAS_OK, s2, w2)
    /\ buffer_bytes (read_buffer s2) = content
    /\ num_items s2 = num_items s1 /\ items s2 = items s1
    /\ file_size s2 = file_size s1 /\ mode s2 = mode s1 /\ flags s2 = flags s1.
Proof.
  intros Hfile Hname Hfs Hsize Hmin.
  destruct (mmap_gate (flags s1)).
  - unfold kastore_mmap_file, stat_size, mmap. rewrite Hname, Hfs, Hfile.
    cbn [f_name]. rewrite Hfs, Hsize, Z.eqb_refl. cbn [negb].
    eexists; eexists. split; [reflexivity|].
    cbn [set_read_buffer read_buffer buffer_bytes num_items items file_size mode flags].
    rewrite Nat2Z.id, firstn_all. repeat split. exact Hsize.
  - unfold kastore_read_file, fseek0, fread.
    cbn [set_read_buffer file]. rewrite Hfile.
    cbn [Z.eqb negb set_file file file_size f_name f_pos skipn].
    rewrite Hfs. cbn [set_read_buffer file_size f_eof].
    replace (file_size s1 =? 0) with false
      by (symmetry; apply Z.eqb_neq; unfold KAS_HEADER_SIZE in Hmin; lia).
    rewrite Hsize, Z.leb_refl.
    change (1 =? 0) with false. cbv iota.
    eexists; eexists. split; [reflexivity|].
    cbn [set_read_buffer set_file read_buffer buffer_bytes num_items items
           file_size mode flags].
    rewrite Nat2Z.id, firstn_all. repeat split. exact Hsize.
Qed.

End OpenPacked.

Section PackedStores.

Variable s : kastore_t.
Hypothesis Hpacked : packed s.

Lemma packed_keyed : Forall keyed (items s).
Proof.
  destruct Hpacked as (_ & _ & Hgood & _).
  eapply Forall_impl; [|exact Hgood].
  intros it (_ & H1 & H2 & _). unfold keyed. lia.
Qed.

Lemma packed_key_lens : Forall (fun n => 1 <= n) (map key_len (items s)).
Proof.
  destruct Hpacked as (_ & _ & Hgood & _).
  rewrite Forall_map. eapply Forall_impl; [|exact Hgood].
  intros it (_ & H1 & _). exact H1.
Qed.

Lemma packed_key_lens0 : Forall (fun n => 0 <= n) (map key_len (items s)).
Proof.
  eapply Forall_impl; [|exact packed_key_lens]. cbv beta. intros; lia.
Qed.

Lemma packed_item_sizes : Forall (fun n => 0 <= n) (map item_size (items s)).
Proof.
  destruct Hpacked as (_ & _ & Hgood & _).
  rewrite Forall_map. eapply Forall_impl; [|exact Hgood].
  intros it (Ht & _ & _ & Ha & _).
  pose proof (item_size_ge it Ht Ha). lia.
Qed.

Lemma packed_arrays_present :
  Forall (fun it => 0 <= item_size it <= Z.of_nat (List.length (array it))) (items s).
Proof.
  destruct Hpacked as (_ & _ & Hgood & _).
  eapply Forall_impl; [|exact Hgood].
  intros it (Ht & _ & _ & Ha & Hs).
  pose proof (item_size_ge it Ht Ha). lia.
Qed.

Lemma packed_order :
  KAS_HEADER_SIZE <= keys_begin (List.length (items s))
  /\ keys_begin (List.length (items s)) <= keys_limit (items s)
  /\ keys_limit (items s) <= file_size s
  /\ file_size s < 2 ^ 64.
Proof.
  pose proof (keys_end_ge _ (keys_begin (List.length (items s))) packed_key_lens0).
  pose proof (arrays_end_ge _ (keys_limit (items s)) packed_item_sizes).
  destruct Hpacked as (_ & _ & _ & _ & _ & Hsize & Hlt).
  unfold packed_size, keys_limit, keys_begin, KAS_HEADER_SIZE, KAS_ITEM_DESCRIPTOR_SIZE
    in *.
  lia.
Qed.

Lemma packed_in_file : Forall (in_file (file_size s)) (items s).
Proof.
  destruct packed_order as (O1 & O2 & O3 & O4).
  pose proof Hpacked as (_ & _ & Hgood & Hks & Has & Hsize & _).
  pose proof (walk_keys_bounds _ _ Hks packed_key_lens0) as Bk.
  pose proof (walk_arrays_bounds _ _ Has packed_item_sizes) as Ba.
  fold (keys_limit (items s)) in Bk. fold (packed_size (items s)) in Ba.
  rewrite <- Hsize in Ba.
  rewrite Forall_forall in *. intros it Hin.
  destruct (Hgood it Hin) as (Ht & Hk1 & _ & Ha & _).
  destruct (Bk it Hin) as [Bk1 Bk2]. destruct (Ba it Hin) as [Ba1 Ba2].
  unfold in_file, KAS_HEADER_SIZE in *. lia.
Qed.

Lemma length_file_image : Z.of_nat (List.length (file_image s)) = file_size s.
Proof.
  pose proof Hpacked as (_ & _ & _ & _ & Has & Hsize & _).
  pose proof (length_keys_image (items s) (keys_begin (List.length (items s)))
                packed_keyed) as Lk.
  pose proof (length_arrays_image (items s) (keys_limit (items s)) Has
                packed_arrays_present) as La.
  fold (keys_limit (items s)) in Lk. fold (packed_size (items s)) in La.
  unfold file_image.
  rewrite !length_app, length_header_block, length_descriptors, !Nat2Z.inj_add.
  unfold keys_begin, KAS_HEADER_SIZE, KAS_ITEM_DESCRIPTOR_SIZE in *. lia.
Qed.

(** The keys and arrays the reader points to are those of the packed
    items. *)
Lemma reparse_key_bytes :
  Forall (fun it => key_bytes (reparse (file_image s) it) = key_bytes it) (items s).
Proof.
  destruct Hpacked as (_ & _ & _ & Hks & _).
  apply (keys_in_buffer (items s) (keys_begin (List.length (items s)))
           (header_block s ++ List.concat (map descriptor_block (items s)))
           (arrays_image (keys_limit (items s)) (items s))).
  - unfold file_image. rewrite <- !app_assoc. reflexivity.
  - rewrite length_app, length_header_block, length_descriptors.
    unfold keys_begin, KAS_HEADER_SIZE, KAS_ITEM_DESCRIPTOR_SIZE. lia.
  - exact Hks.
  - exact packed_keyed.
Qed.

Lemma reparse_array_bytes :
  Forall (fun it => array_bytes (reparse (file_image s) it) = array_bytes it) (items s).
Proof.
  destruct Hpacked as (_ & _ & _ & _ & Has & _).
  pose proof (length_keys_image (items s) (keys_begin (List.length (items s)))
                packed_keyed) as Lk.
  fold (keys_limit (items s)) in Lk.
  apply (arrays_in_buffer (items s) (keys_limit (items s))
           (header_block s ++ List.concat (map descriptor_block (items s))
              ++ keys_image (items s))
           []).
  - unfold file_image. rewrite <- !app_assoc, app_nil_r. reflexivity.
  - rewrite !length_app, length_header_block, length_descriptors, !Nat2Z.inj_add.
    unfold keys_begin, KAS_HEADER_SIZE, KAS_ITEM_DESCRIPTOR_SIZE in *. lia.
  - exact Has.
  - exact packed_arrays_present.
Qed.

Lemma reparse_keyed : Forall keyed (map (reparse (file_image s)) (items s)).
Proof.
  pose proof packed_in_file as Hin. pose proof length_file_image as Hlen.
  rewrite Forall_map. eapply Forall_impl; [|exact Hin].
  intros it (_ & H1 & H2 & H3 & _). unfold keyed. cbn [reparse key_len key].
  rewrite length_skipn. lia.
Qed.

(** The descriptors of a packed store are read back and accepted. *)
Lemma kastore_read_descriptors_packed (r : kastore_t) :
  buffer_bytes (read_buffer r) = file_image s ->
  num_items r = num_items s ->
  file_size r = file_size s ->
  items r = repeat zero_item (List.length (items s)) ->
  kastore_read_descriptors r
  = (KAS_OK, set_items r (num_items r) (map (reparse (file_image s)) (items s))).
Proof.
  intros Hbuf Hn Hsize Hitems.
  destruct packed_order as (O1 & O2 & O3 & O4).
  pose proof Hpacked as (Hnum & Hcount & _ & Hks & Has & Hps & Hlt).
  unfold kastore_read_descriptors.
  rewrite Hbuf, Hn, Hsize, Hitems, Hnum.
  unfold keys_begin, KAS_HEADER_SIZE, KAS_ITEM_DESCRIPTOR_SIZE in *.
  rewrite mul64_small by lia. rewrite add64_small by lia.
  replace (64 + Z.of_nat (List.length (items s)) * 64 >? file_size s) with false
    by (symmetry; rewrite Z.gtb_ltb; apply Z.ltb_ge; lia).
  rewrite (read_descriptors_loop_image (items s) (header_block s)
             (keys_image (items s) ++ arrays_image (keys_limit (items s)) (items s))
             (file_image s) (file_size s) 64);
    [|reflexivity|reflexivity|lia|lia|exact packed_in_file].
  cbn [is_ok negb set_items num_items items].
  rewrite mul64_small by lia. rewrite add64_small by lia.
  assert (Hkl : map key_len (map (reparse (file_image s)) (items s))
                = map key_len (items s)) by (rewrite map_map; reflexivity).
  assert (Hsz : map item_size (map (reparse (file_image s)) (items s))
                = map item_size (items s)) by (rewrite map_map; reflexivity).
  assert (Hst : map key_start (map (reparse (file_image s)) (items s))
                = map key_start (items s)) by (rewrite map_map; reflexivity).
  assert (Hat : map array_start (map (reparse (file_image s)) (items s))
                = map array_start (items s)) by (rewrite map_map; reflexivity).
  change (64 + Z.of_nat (List.length (items s)) * 64)
    with (keys_begin (List.length (items s))) in *.
  rewrite (check_keys_walk (map (reparse (file_image s)) (items s))
             (keys_begin (List.length (items s)))).
  - rewrite Hkl. fold (keys_limit (items s)).
    rewrite check_arrays_walk; [reflexivity| | | |].
    + lia.
    + rewrite Hat, Hsz. exact Has.
    + rewrite Hsz. exact packed_item_sizes.
    + rewrite Hsz. fold (packed_size (items s)). lia.
  - lia.
  - rewrite Hst, Hkl. exact Hks.
  - rewrite Hkl. exact packed_key_lens0.
  - rewrite Hkl. fold (keys_limit (items s)). lia.
Qed.

End PackedStores.

(** A read-mode open of the file of a packed store succeeds and yields its
    items, pointing into the backing buffer. *)
Lemma kastore_open_packed (s : kastore_t) (w : world) (name : string) (fl : Z) :
  packed s ->
  fs w name = Some (file_image s) ->
  exists s' w',
    kastore_open name "r" fl w = (KAS_OK, s', w')
    /\ num_items s' = num_items s
    /\ items s' = map (reparse (file_image s)) (items s)
    /\ file_size s' = file_size s
    /\ mode s' = KAS_READ.
Proof.
  intros Hpacked Hfs.
  destruct (packed_order s Hpacked) as (O1 & O2 & O3 & O4).
  pose proof Hpacked as (Hnum & Hcount & _).
  pose proof (length_file_image s Hpacked) as Hlen.
  unfold kastore_open.
  change (negb (Nat.eqb (String.length "r") 1)) with false.
  change (String.eqb "r" "r") with true. cbv iota beta zeta.
  unfold fopen. rewrite Hfs.
  cbn [set_mode set_file mode flags file_version num_items items file filename
         file_size read_buffer zero_store].
  change (KAS_READ =? KAS_READ) with true. cbv iota.
  set (s0 := set_file _ _).
  unfold kastore_read.
  rewrite (kastore_read_header_block s0 s w name
             (List.concat (map descriptor_block (items s)) ++ keys_image (items s)
                ++ arrays_image (keys_limit (items s)) (items s)));
    [|reflexivity|exact Hfs|lia|unfold KAS_HEADER_SIZE in *; lia].
  cbn [is_ok negb].
  set (s1 := set_file_size _ _).
  assert (Hmin : KAS_HEADER_SIZE <= file_size s1)
    by (change (KAS_HEADER_SIZE <= file_size s); lia).
  destruct (backing_buffer s1 w name (file_image s) 64 eq_refl eq_refl Hfs
              (eq_sym Hlen) Hmin)
    as (s2 & w2 & E & Hbuf & Hn2 & Hi2 & Hs2 & Hm2 & Hf2).
  rewrite E. cbn [is_ok negb].
  assert (Hn : num_items s2 = num_items s) by (rewrite Hn2; reflexivity).
  assert (Hs : file_size s2 = file_size s) by (rewrite Hs2; reflexivity).
  destruct (0 <? num_items s2) eqn:Epos.
  - rewrite (kastore_read_descriptors_packed s Hpacked).
    + eexists; eexists. split; [reflexivity|].
      cbn [set_items num_items items file_size mode].
      repeat split; try assumption; try (rewrite Hm2; reflexivity).
    + exact Hbuf.
    + exact Hn.
    + exact Hs.
    + cbn [set_items items]. rewrite Hn, Hnum, Nat2Z.id. reflexivity.
  - apply Z.ltb_ge in Epos. rewrite Hn, Hnum in Epos.
    destruct (items s) as [|it l] eqn:El; [|cbn [List.length] in Epos; lia].
    eexists; eexists. split; [reflexivity|].
    repeat split; try assumption;
      try (rewrite Hi2; reflexivity); try (rewrite Hm2; reflexivity).
Qed.

(** ** Packing and writing a store *)

Section WriteFile.

Lemma good_item_strip (it : kaitem_t) : good_item (strip it) <-> good_item it.
Proof. unfold good_item, item_size. cbn [strip type key_len key array_len array]. tauto. Qed.

Lemma Forall_strip (P : kaitem_t -> Prop) (l l' : list kaitem_t) :
  (forall it, P (strip it) <-> P it) ->
  map strip l = map strip l' -> Forall P l -> Forall P l'.
Proof.
  intros HP Hmap H.
  assert (H1 : Forall P (map strip l)).
  { rewrite Forall_map. eapply Forall_impl; [|exact H]. intros it. apply HP. }
  rewrite Hmap, Forall_map in H1.
  eapply Forall_impl; [|exact H1]. intros it. apply HP.
Qed.

Lemma good_item_sizes (l : list kaitem_t) :
  Forall good_item l ->
  Forall (fun n => 0 <= n) (map key_len l) /\ Forall (fun n => 0 <= n) (map item_size l).
Proof.
  intros H. split; rewrite Forall_map; (eapply Forall_impl; [|exact H]).
  - intros it (_ & H1 & _). lia.
  - intros it (Ht & _ & _ & Ha & _). pose proof (item_size_ge it Ht Ha). lia.
Qed.

(** The packer, on a store none of whose offsets passes 2^64, follows the
    walk of section 4.4. *)
Lemma kastore_pack_items_packed (s : kastore_t) :
  num_items s = Z.of_nat (List.length (items s)) ->
  Z.of_nat (List.length (items s)) < 2 ^ 32 ->
  Forall good_item (items s) ->
  packed_size (items s) < 2 ^ 64 ->
  exists s',
    kastore_pack_items s = (KAS_OK, s')
    /\ packed s'
    /\ map strip (items s') = map strip (items s)
    /\ file s' = file s /\ flags s' = flags s /\ mode s' = mode s
    /\ filename s' = filename s.
Proof.
  intros Hnum Hcount Hgood Hsize.
  destruct (good_item_sizes _ Hgood) as [Hkl Hsz].
  pose proof (keys_end_ge _ (keys_begin (List.length (items s))) Hkl) as Hk1.
  pose proof (arrays_end_ge _ (keys_limit (items s)) Hsz) as Hk2.
  fold (keys_limit (items s)) in Hk1. fold (packed_size (items s)) in Hk2.
  assert (Hb : keys_begin (List.length (items s))
               = 64 + Z.of_nat (List.length (items s)) * 64) by reflexivity.
  unfold kastore_pack_items. rewrite Hnum.
  unfold KAS_HEADER_SIZE, KAS_ITEM_DESCRIPTOR_SIZE.
  rewrite mul64_small by lia. rewrite add64_small by lia. rewrite <- Hb.
  destruct (pack_keys_exact (items s) (keys_begin (List.length (items s))))
    as (K1 & K2 & K3 & K4); [lia | exact Hkl | fold (keys_limit (items s)); lia |].
  destruct (pack_keys (keys_begin (List.length (items s))) (items s)) as [l1 o1].
  cbn [fst snd] in K1, K2, K3, K4. fold (keys_limit (items s)) in K1. subst o1.
  assert (Hsz1 : map item_size l1 = map item_size (items s))
    by (apply map_strip_via; [reflexivity | exact K3]).
  destruct (pack_arrays_exact l1 (keys_limit (items s)))
    as (A1 & A2 & A3 & A4);
    [lia | rewrite Hsz1; exact Hsz
    | rewrite Hsz1; fold (packed_size (items s)); lia |].
  destruct (pack_arrays (keys_limit (items s)) l1) as [l2 o2].
  cbn [fst snd] in A1, A2, A3, A4. rewrite Hsz1 in A1, A2.
  fold (packed_size (items s)) in A1. subst o2.
  assert (Hstrip : map strip l2 = map strip (items s)) by (rewrite A3; exact K3).
  assert (Hlen : List.length l2 = List.length (items s))
    by (apply map_strip_length; exact Hstrip).
  assert (Hkl2 : map key_len l2 = map key_len (items s))
    by (apply map_strip_via; [reflexivity | exact Hstrip]).
  assert (Hsz2 : map item_size l2 = map item_size (items s))
    by (apply map_strip_via; [reflexivity | exact Hstrip]).
  eexists. split; [reflexivity|].
  split; [|cbn [set_file_size set_items items file flags mode filename]; auto].
  unfold packed, packed_size, keys_limit.
  cbn [set_file_size set_items items num_items file_size].
  rewrite Hlen, Hkl2, Hsz2, A4, K2, A2.
  repeat split; try assumption; try reflexivity.
  apply (Forall_strip good_item (items s) l2 good_item_strip);
    [symmetry; exact Hstrip | exact Hgood].
Qed.

(** The three writes of [kastore_write_file] on a packed store append its
    file image to the file. *)
Lemma kastore_write_packed (s : kastore_t) (f : FILE) (w : world) (old : list byte) :
  packed s ->
  file s = Some f ->
  fs w (f_name f) = Some old ->
  exists f' w',
    (let '(ret, self, w1) := kastore_write_header s w in
     if negb (is_ok ret) then (ret, self, w1)
     else
       let '(ret, self, w2) := kastore_write_descriptors self w1 in
       if negb (is_ok ret) then (ret, self, w2)
       else kastore_write_data self w2)
    = (KAS_OK, set_file s (Some f'), w')
    /\ f_name f' = f_name f
    /\ fs w' (f_name f) = Some (old ++ file_image s).
Proof.
  intros Hpacked Hfile Hfs.
  destruct (packed_order s Hpacked) as (O1 & O2 & O3 & O4).
  pose proof Hpacked as (Hnum & Hcount & Hgood & Hks & Has & Hsize & Hlt).
  pose proof (packed_key_lens s Hpacked) as Hkl.
  pose proof (packed_item_sizes s Hpacked) as Hsz.
  (* the header *)
  unfold kastore_write_header. rewrite Hfile.
  destruct (fwrite_appends (header_block s) KAS_HEADER_SIZE f w old Hfs
              ltac:(discriminate)) as (f1 & w1 & E1 & N1 & F1).
  rewrite E1. change (negb (1 =? 1)) with false. cbv beta iota zeta.
  cbn [is_ok negb].
  change (firstn (Z.to_nat KAS_HEADER_SIZE) (header_block s)) with (header_block s) in F1.
  (* the descriptors *)
  unfold kastore_write_descriptors. cbn [set_file items file].
  rewrite <- N1 in F1.
  destruct (write_descriptors_loop_ok (items s) f1 w1 _ F1) as (f2 & w2 & E2 & N2 & F2).
  rewrite E2. cbv beta iota zeta. cbn [is_ok negb].
  (* the keys *)
  unfold kastore_write_data. cbn [set_file items file num_items].
  rewrite Hnum. unfold KAS_HEADER_SIZE, KAS_ITEM_DESCRIPTOR_SIZE in *.
  rewrite mul64_small by lia. rewrite add64_small by lia.
  change (64 + Z.of_nat (List.length (items s)) * 64)
    with (keys_begin (List.length (items s))).
  rewrite <- N2 in F2.
  destruct (write_keys_loop_ok (items s) (keys_begin (List.length (items s))) f2 w2 _ F2)
    as (f3 & w3 & E3 & N3 & F3);
    [unfold keys_begin, KAS_HEADER_SIZE, KAS_ITEM_DESCRIPTOR_SIZE; lia | exact Hkl
    | fold (keys_limit (items s)); lia |].
  rewrite E3. cbv beta iota zeta. cbn [is_ok negb]. fold (keys_limit (items s)).
  (* the arrays *)
  rewrite <- N3 in F3.
  destruct (write_arrays_loop_ok (items s) (keys_limit (items s)) f3 w3 _ F3)
    as (f4 & w4 & E4 & N4 & F4);
    [unfold keys_begin, KAS_HEADER_SIZE, KAS_ITEM_DESCRIPTOR_SIZE in *; lia | exact Hsz
    | fold (packed_size (items s)); lia | exact Has |].
  rewrite E4. cbv beta iota zeta. cbn [set_file].
  exists f4, w4. split; [reflexivity|]. split; [congruence|].
  rewrite <- N1, <- N2, <- N3, F4. unfold file_image. rewrite <- !app_assoc. reflexivity.
Qed.

End WriteFile.

Section CloseWrite.

Variables (s : kastore_t) (f : FILE) (w : world) (old : list byte).
Hypothesis Hfile : file s = Some f.
Hypothesis Hfs : fs w (f_name f) = Some old.
Hypothesis Hnum : num_items s = Z.of_nat (List.length (items s)).
Hypothesis Hcount : Z.of_nat (List.length (items s)) < 2 ^ 32.
Hypothesis Hgood : Forall good_item (items s).
Hypothesis Hsize : packed_size (qsort (items s)) < 2 ^ 64.

(** Sort, pack, write: the file gets the image of the sorted, packed
    store. *)
Lemma kastore_write_file_ok :
  exists s' f' w',
    kastore_write_file s w = (KAS_OK, s', w')
    /\ packed s'
    /\ map strip (items s') = map strip (qsort (items s))
    /\ file s' = Some f' /\ f_name f' = f_name f
    /\ fs w' (f_name f) = Some (old ++ file_image s')
    /\ flags s' = flags s /\ mode s' = mode s.
Proof.
  pose proof (Permutation_length (qsort_perm (items s))) as Hlen.
  unfold kastore_write_file.
  destruct (kastore_pack_items_packed (set_items s (num_items s) (qsort (items s))))
    as (sp & Ep & Hpacked & Hstrip & Hf & Hfl & Hm & _).
  - cbn [set_items num_items items]. rewrite Hlen. exact Hnum.
  - cbn [set_items items]. rewrite Hlen. exact Hcount.
  - cbn [set_items items].
    apply (Permutation_Forall (Permutation_sym (qsort_perm (items s)))). exact Hgood.
  - exact Hsize.
  - rewrite Ep. cbn [is_ok negb].
    cbn [set_items items file flags mode] in Hstrip, Hf, Hfl, Hm.
    destruct (kastore_write_packed sp f w old Hpacked ltac:(congruence) Hfs)
      as (f' & w' & E & Hn & Hfs').
    rewrite E.
    exists (set_file sp (Some f')), f', w'.
    split; [reflexivity|]. split; [exact Hpacked|].
    split; [exact Hstrip|]. split; [reflexivity|]. split; [exact Hn|].
    split; [exact Hfs'|]. split; [exact Hfl | exact Hm].
Qed.

Lemma fs_kas_safe_free (b : bool) (ev : event) (w0 : world) :
  fs (kas_safe_free b ev w0) = fs w0.
Proof. destruct b; reflexivity. Qed.

Lemma fs_free_keys (l : list kaitem_t) :
  forall w0,
    fs (fold_left (fun w1 it => kas_safe_free (is_nil (key it)) EvFreeKey w1) l w0)
    = fs w0.
Proof.
  induction l as [|it l IH]; intros w0; cbn [fold_left]; [reflexivity|].
  rewrite IH. apply fs_kas_safe_free.
Qed.

(** Closing a store that is open for writing flushes it: the file is the
    image of the sorted, packed store. *)
Lemma kastore_close_write :
  mode s = KAS_WRITE ->
  exists s' w',
    kastore_close s w = (KAS_OK, zero_store, w')
    /\ packed s'
    /\ map strip (items s') = map strip (qsort (items s))
    /\ fs w' (f_name f) = Some (old ++ file_image s').
Proof.
  intros Hmode.
  destruct kastore_write_file_ok
    as (s' & f' & w' & E & Hpacked & Hstrip & Hf' & Hn & Hfs' & Hfl & Hm).
  unfold kastore_close. rewrite Hmode. change (KAS_WRITE =? KAS_WRITE) with true.
  cbv iota. rewrite Hfile, E. cbn [is_ok negb]. cbv beta iota zeta.
  rewrite Hf'.
  set (w1 := fold_left _ (items s') w').
  set (w2 := kas_safe_free (is_nil (items s')) EvFreeItems w1).
  set (w3 := if Z.land (flags s') KAS_NO_MMAP =? 0 then kastore_munmap_file s' w2
             else kas_safe_free _ EvFreeBuffer w2).
  assert (H3 : fs w3 = fs w').
  { unfold w3. transitivity (fs w2).
    - destruct (Z.land (flags s') KAS_NO_MMAP =? 0).
      + unfold kastore_munmap_file. destruct (read_buffer s'); reflexivity.
      + apply fs_kas_safe_free.
    - unfold w2. rewrite fs_kas_safe_free. unfold w1. apply fs_free_keys. }
  unfold fclose. rewrite H3, Hn, Hfs'. cbn [Z.eqb negb].
  exists s'. eexists. split; [reflexivity|].
  split; [exact Hpacked|]. split; [exact Hstrip|].
  cbn [emit fs]. rewrite H3. exact Hfs'.
Qed.

End CloseWrite.

(** ** Put *)

Section Put.

Lemma store_bound_perm (l l' : list kaitem_t) :
  Permutation l l' -> store_bound l = store_bound l'.
Proof.
  unfold store_bound.
  induction 1 as [|x l l' _ IH|x y l|l l' l'' _ IH1 _ IH2]; cbn [fold_right].
  - reflexivity.
  - rewrite IH. reflexivity.
  - lia.
  - congruence.
Qed.

Lemma keys_end_bound (l : list kaitem_t) :
  forall o acc,
    keys_end o (map key_len l)
    = o + (fold_right (fun it a => key_len it + a) acc l - acc).
Proof.
  induction l as [|it l IH]; intros o acc; cbn [map keys_end fold_right]; [lia|].
  rewrite (IH _ acc). lia.
Qed.

Lemma arrays_end_bound (l : list kaitem_t) :
  forall o acc,
    arrays_end o (map item_size l)
    <= o + (fold_right (fun it a => item_size it + 7 + a) acc l - acc).
Proof.
  induction l as [|it l IH]; intros o acc; cbn [map arrays_end fold_right]; [lia|].
  specialize (IH (round_up o + item_size it) acc).
  pose proof (round_up_bounds o). lia.
Qed.

Lemma store_bound_split (l : list kaitem_t) :
  store_bound l
  = keys_begin (List.length l)
    + fold_right (fun it a => key_len it + a) 0 l
    + fold_right (fun it a => item_size it + 7 + a) 0 l.
Proof.
  unfold store_bound, keys_begin.
  induction l as [|it l IH]; cbn [fold_right List.length]; [lia|].
  rewrite IH, Nat2Z.inj_succ. lia.
Qed.

(** The packed file is no larger than the bound. *)
Lemma packed_size_bound (l : list kaitem_t) : packed_size l <= store_bound l.
Proof.
  unfold packed_size, keys_limit. rewrite store_bound_split.
  pose proof (arrays_end_bound l (keys_end (keys_begin (List.length l)) (map key_len l)) 0).
  rewrite (keys_end_bound l _ 0) in *. lia.
Qed.

Lemma item_of_call_good (c : put_call) : good_call c -> good_item (item_of_call c).
Proof.
  intros (Ht & Hk & Ha & Hl). unfold good_item, item_size.
  cbn [item_of_call type key_len key array_len array].
  repeat split; try lia.
  destruct (p_key c); [contradiction | cbn [List.length]; lia].
Qed.

Lemma item_of_call_entry (c : put_call) :
  good_call c -> entry (item_of_call c) = entry_of_call c.
Proof.
  intros (Ht & Hk & Ha & Hl). unfold entry, entry_of_call, key_bytes, array_bytes, item_size.
  cbn [item_of_call type key_len key array_len array].
  rewrite Nat2Z.id, firstn_all, <- Hl, Nat2Z.id, firstn_all. reflexivity.
Qed.

(** A good call whose key is not in the store yet adds its item at the
    end. *)
Lemma put_one_new (s : kastore_t) (c : put_call) :
  num_items s = Z.of_nat (List.length (items s)) ->
  Z.of_nat (List.length (items s)) < 2 ^ 32 ->
  Forall keyed (items s) ->
  good_call c ->
  ~ In (p_key c) (map key_bytes (items s)) ->
  put_one s c
  = (KAS_OK, set_items s (num_items s + 1) (items s ++ [item_of_call c])).
Proof.
  intros Hnum Hcount Hkeyed Hc Hnew.
  pose proof (item_of_call_good c Hc) as Hgood.
  destruct Hc as (Ht & Hk & Ha & Hl).
  unfold put_one, kastore_put.
  replace ((p_type c <? 0) || (p_type c >=? KAS_NUM_TYPES)) with false.
  2:{ symmetry. apply orb_false_iff. split; [apply Z.ltb_ge; lia|].
      rewrite Z.geb_leb. apply Z.leb_gt. lia. }
  replace (Z.of_nat (List.length (p_key c)) =? 0) with false.
  2:{ symmetry. apply Z.eqb_neq. destruct (p_key c); [contradiction|].
      cbn [List.length]. lia. }
  rewrite Hnum, !Nat2Z.id, !firstn_all.
  change (set_array (set_key (set_type zero_item (p_type c)) 0
                       (Z.of_nat (List.length (p_key c))) (p_key c))
                    0 (p_array_len c) (p_array c))
    with (item_of_call c).
  replace (existsb (fun it => compare_items (item_of_call c) it =? 0) (items s))
    with false.
  - rewrite add64_small by lia. reflexivity.
  - symmetry. apply not_true_is_false. intros Hex.
    apply existsb_exists in Hex. destruct Hex as (it & Hin & Hcmp).
    apply Z.eqb_eq in Hcmp.
    rewrite compare_items_lex in Hcmp.
    + apply lex_eq in Hcmp. apply Hnew. apply in_map_iff. exists it.
      split; [|exact Hin]. rewrite <- Hcmp.
      unfold key_bytes. cbn [item_of_call key_len key].
      rewrite Nat2Z.id. apply firstn_all.
    + destruct Hgood as (_ & H1 & H2 & _). unfold keyed. lia.
    + rewrite Forall_forall in Hkeyed. apply Hkeyed. exact Hin.
Qed.

Lemma item_of_call_key (c : put_call) : key_bytes (item_of_call c) = p_key c.
Proof.
  unfold key_bytes. cbn [item_of_call key_len key]. rewrite Nat2Z.id. apply firstn_all.
Qed.

(** Good calls with distinct keys all succeed, and the store holds their
    items in the order of the calls. *)
Lemma put_all_new (calls : list put_call) :
  forall s,
    num_items s = Z.of_nat (List.length (items s)) ->
    Z.of_nat (List.length (items s) + List.length calls) < 2 ^ 32 ->
    Forall keyed (items s) ->
    Forall good_call calls ->
    NoDup (map key_bytes (items s) ++ map p_key calls) ->
    put_all s calls
    = (repeat KAS_OK (List.length calls),
       set_items s (num_items s + Z.of_nat (List.length calls))
                 (items s ++ map item_of_call calls)).
Proof.
  induction calls as [|c calls IH]; intros s Hnum Hcount Hkeyed Hgood Hnd;
    cbn [put_all List.length repeat map].
  - rewrite Z.add_0_r, app_nil_r. destruct s; reflexivity.
  - apply Forall_cons_iff in Hgood. destruct Hgood as [Hc Hrest].
    cbn [List.length] in Hcount.
    rewrite put_one_new; [|exact Hnum|lia|exact Hkeyed|exact Hc|].
    2:{ intros Hin. apply NoDup_remove_2 in Hnd. apply Hnd.
        apply in_or_app. left. exact Hin. }
    rewrite IH.
    + cbn [set_items num_items items]. rewrite <- app_assoc. cbn [app].
      replace (num_items s + Z.of_nat (S (List.length calls)))
        with (num_items s + 1 + Z.of_nat (List.length calls)) by lia.
      reflexivity.
    + cbn [set_items num_items items]. rewrite length_app, Hnum. cbn [List.length]. lia.
    + cbn [set_items items]. rewrite length_app. cbn [List.length]. lia.
    + cbn [set_items items]. apply Forall_app. split; [exact Hkeyed|].
      constructor; [|constructor].
      destruct (item_of_call_good c Hc) as (_ & H1 & H2 & _). unfold keyed. lia.
    + exact Hrest.
    + cbn [set_items items]. rewrite map_app. cbn [map].
      rewrite item_of_call_key, <- app_assoc. cbn [app].
      exact Hnd.
Qed.

End Put.

(** ** Writing a store and reading it back *)

Section RoundTrip.

Variables (s : kastore_t) (f : FILE) (w : world) (fl : Z).
Hypothesis Hmode : mode s = KAS_WRITE.
Hypothesis Hfile : file s = Some f.
Hypothesis Hfs : fs w (f_name f) = Some [].
Hypothesis Hnum : num_items s = Z.of_nat (List.length (items s)).
Hypothesis Hcount : Z.of_nat (List.length (items s)) < 2 ^ 32.
Hypothesis Hgood : Forall good_item (items s).
Hypothesis Hdistinct : NoDup (map key_bytes (items s)).
Hypothesis Hbound : store_bound (items s) < 2 ^ 64.

Lemma good_items_keyed : Forall keyed (items s).
Proof.
  eapply Forall_impl; [|exact Hgood].
  intros it (_ & H1 & H2 & _). unfold keyed. lia.
Qed.

(** Close, then open for reading: both succeed, and the store read has the
    entries of the store written, its keys in ascending order. *)
Lemma close_then_open :
  exists w1 s2 w2,
    kastore_close s w = (KAS_OK, zero_store, w1)
    /\ kastore_open (f_name f) "r" fl w1 = (KAS_OK, s2, w2)
    /\ num_items s2 = Z.of_nat (List.length (items s2))
    /\ Forall keyed (items s2)
    /\ ascending (map key_bytes (items s2))
    /\ Permutation (map full_entry (items s2)) (map full_entry (items s)).
Proof.
  assert (Hsize : packed_size (qsort (items s)) < 2 ^ 64).
  { pose proof (packed_size_bound (qsort (items s))) as Hb.
    rewrite (store_bound_perm _ _ (qsort_perm (items s))) in Hb. lia. }
  destruct (kastore_close_write s f w [] Hfile Hfs Hnum Hcount Hgood Hsize Hmode)
    as (sp & w1 & Ec & Hpacked & Hstrip & Hfs1).
  cbn [app] in Hfs1.
  destruct (kastore_open_packed sp w1 (f_name f) fl Hpacked Hfs1)
    as (s2 & w2 & Eo & Hn2 & Hi2 & _).
  exists w1, s2, w2. split; [exact Ec|]. split; [exact Eo|].
  pose proof Hpacked as (Hnp & _).
  assert (Hkeys : map key_bytes (items s2) = map key_bytes (qsort (items s))).
  { rewrite Hi2, map_map.
    rewrite (map_ext_Forall _ _ (reparse_key_bytes sp Hpacked)).
    apply map_strip_via; [reflexivity | exact Hstrip]. }
  assert (Hentries : map full_entry (items s2) = map full_entry (qsort (items s))).
  { rewrite Hi2, map_map.
    transitivity (map full_entry (items sp)).
    - apply map_ext_Forall.
      pose proof (reparse_key_bytes sp Hpacked) as Hk.
      pose proof (reparse_array_bytes sp Hpacked) as Ha.
      rewrite Forall_forall in *. intros it Hin.
      unfold full_entry, entry. rewrite (Hk it Hin), (Ha it Hin). reflexivity.
    - apply map_strip_via; [reflexivity | exact Hstrip]. }
  split; [rewrite Hn2, Hnp, Hi2, length_map; reflexivity|].
  split; [rewrite Hi2; apply reparse_keyed; exact Hpacked|].
  split.
  - rewrite Hkeys. apply qsort_ascending; [exact good_items_keyed | exact Hdistinct].
  - rewrite Hentries. apply Permutation_map, qsort_perm.
Qed.

End RoundTrip.

(** What get returns for a key that an item of a sorted store has. *)
Lemma kastore_get_entry (s2 : kastore_t) (k : list byte) (ty alen : Z) (arr : list byte) :
  num_items s2 = Z.of_nat (List.length (items s2)) ->
  Forall keyed (items s2) ->
  ascending (map key_bytes (items s2)) ->
  In (k, ty, arr, alen) (map full_entry (items s2)) ->
  exists a,
    kastore_get s2 k (Z.of_nat (List.length k)) = (KAS_OK, Some (a, alen, ty))
    /\ firstn (Z.to_nat (alen * type_size ty)) a = arr.
Proof.
  intros Hnum Hkeyed Hasc Hin.
  apply in_map_iff in Hin. destruct Hin as (p & Hp & Hin).
  unfold full_entry, entry in Hp. injection Hp as Hk Ht Ha Hl.
  exists (array p). split.
  - rewrite (kastore_get_found s2 k (Z.of_nat (List.length k)) Hnum Hkeyed ltac:(lia) p
               Hasc Hin).
    + rewrite Ht, Hl. reflexivity.
    + rewrite Nat2Z.id, firstn_all. exact Hk.
  - rewrite <- Ha, <- Hl, <- Ht. reflexivity.
Qed.

(** What get returns for a key that no item of the store has. *)
Lemma kastore_get_no_entry (s2 : kastore_t) (k : list byte) :
  num_items s2 = Z.of_nat (List.length (items s2)) ->
  Forall keyed (items s2) ->
  ~ In k (map key_bytes (items s2)) ->
  kastore_get s2 k (Z.of_nat (List.length k)) = (KAS_ERR_KEY_NOT_FOUND, None).
Proof.
  intros Hnum Hkeyed Hnot.
  apply (kastore_get_missing s2 k (Z.of_nat (List.length k)) Hkeyed ltac:(lia)).
  intros p Hin Hk. apply Hnot. apply in_map_iff. exists p. split; [|exact Hin].
  rewrite Hk, Nat2Z.id. apply firstn_all.
Qed.

(** ** Stores built by put calls *)

Section Calls.

Lemma kastore_open_write (name : string) (fl : Z) (w : world) :
  kastore_open name "w" fl w = (KAS_OK, fresh_write_store name fl, set_fs w name []).
Proof. reflexivity. Qed.

Lemma put_all_app (a b : list put_call) :
  forall s,
    put_all s (a ++ b)
    = (fst (put_all s a) ++ fst (put_all (snd (put_all s a)) b),
       snd (put_all (snd (put_all s a)) b)).
Proof.
  induction a as [|c a IH]; intros s; cbn [app put_all fst snd].
  - destruct (put_all s b); reflexivity.
  - destruct (put_one s c) as [r s1]. rewrite IH.
    destruct (put_all s1 a) as [ra sa]. cbn [fst snd].
    destruct (put_all sa b) as [rb sb]. reflexivity.
Qed.

Lemma ascending_compare (l : list kaitem_t) :
  Forall keyed l ->
  ascending (map key_bytes l) ->
  StronglySorted (fun a b => compare_items a b < 0) l.
Proof.
  unfold ascending. induction l as [|x l IH]; intros Hk Hs; [constructor|].
  apply Forall_cons_iff in Hk. destruct Hk as [Hx Hl].
  cbn [map] in Hs. apply StronglySorted_inv in Hs. destruct Hs as [Hs Hall].
  constructor; [apply IH; assumption|].
  rewrite Forall_map in Hall. rewrite Forall_forall in *. intros y Hy.
  rewrite (compare_items_lex x y Hx (Hl y Hy)). apply Hall. exact Hy.
Qed.

Variables (s : kastore_t) (name : string) (calls : list put_call) (fl : Z) (w : world).
Hypothesis Hmode : mode s = KAS_WRITE.
Hypothesis Hfile : file s = Some (mk_FILE name 0 false).
Hypothesis Hfs : fs w name = Some [].
Hypothesis Hnum : num_items s = Z.of_nat (List.length calls).
Hypothesis Hitems : items s = map item_of_call calls.
Hypothesis Hgood : Forall good_call calls.
Hypothesis Hdistinct : NoDup (map p_key calls).
Hypothesis Hcount : Z.of_nat (List.length calls) < 2 ^ 32.
Hypothesis Hbound : store_bound (map item_of_call calls) < 2 ^ 64.

(** A store holding the items of good calls with distinct keys is written
    and read back: the entries are those of the calls, every key of a call
    is found with its array, no other key is found, and the items read are
    in ascending order. *)
Lemma calls_round_trip :
  exists w1 s2 w2,
    kastore_close s w = (KAS_OK, zero_store, w1)
    /\ kastore_open name "r" fl w1 = (KAS_OK, s2, w2)
    /\ Permutation (map entry (items s2)) (map entry_of_call calls)
    /\ (forall c, In c calls ->
          exists a,
            kastore_get s2 (p_key c) (Z.of_nat (List.length (p_key c)))
            = (KAS_OK, Some (a, p_array_len c, p_type c))
            /\ firstn (Z.to_nat (p_array_len c * type_size (p_type c))) a = p_array c)
    /\ (forall k, ~ In k (map p_key calls) ->
          kastore_get s2 k (Z.of_nat (List.length k)) = (KAS_ERR_KEY_NOT_FOUND, None))
    /\ StronglySorted (fun a b => compare_items a b < 0) (items s2).
Proof.
  assert (Hkeys : map key_bytes (items s) = map p_key calls).
  { rewrite Hitems, map_map. apply map_ext. apply item_of_call_key. }
  assert (Hentries : map entry (items s) = map entry_of_call calls).
  { rewrite Hitems, map_map. apply map_ext_Forall.
    eapply Forall_impl; [|exact Hgood]. apply item_of_call_entry. }
  destruct (close_then_open s (mk_FILE name 0 false) w fl Hmode Hfile Hfs)
    as (w1 & s2 & w2 & Ec & Eo & Hn2 & Hk2 & Hasc & Hperm).
  - rewrite Hitems, length_map. exact Hnum.
  - rewrite Hitems, length_map. exact Hcount.
  - rewrite Hitems, Forall_map. eapply Forall_impl; [|exact Hgood].
    apply item_of_call_good.
  - rewrite Hkeys. exact Hdistinct.
  - rewrite Hitems. exact Hbound.
  - cbn [f_name] in Eo.
    exists w1, s2, w2. split; [exact Ec|]. split; [exact Eo|].
    assert (Hperm1 : Permutation (map entry (items s2)) (map entry_of_call calls)).
    { rewrite <- Hentries.
      assert (E : forall l, map entry l = map fst (map full_entry l))
        by (intros l; rewrite map_map; reflexivity).
      rewrite !E. apply Permutation_map. exact Hperm. }
    assert (Hperm2 : Permutation (map key_bytes (items s2)) (map p_key calls)).
    { rewrite <- Hkeys.
      assert (E : forall l,
                 map key_bytes l = map (fun e => fst (fst (fst e))) (map full_entry l))
        by (intros l; rewrite map_map; reflexivity).
      rewrite !E. apply Permutation_map. exact Hperm. }
    split; [exact Hperm1|]. split; [|split].
    + intros c Hc.
      apply (kastore_get_entry s2 (p_key c) (p_type c) (p_array_len c) (p_array c)
               Hn2 Hk2 Hasc).
      apply (Permutation_in _ (Permutation_sym Hperm)).
      rewrite Hitems, map_map. apply in_map_iff. exists c. split; [|exact Hc].
      rewrite Forall_forall in Hgood.
      unfold full_entry. rewrite (item_of_call_entry c (Hgood c Hc)). reflexivity.
    + intros k Hk. apply (kastore_get_no_entry s2 k Hn2 Hk2).
      intros Hin. apply Hk. apply (Permutation_in _ Hperm2). exact Hin.
    + apply ascending_compare; assumption.
Qed.

End Calls.

(** ** Round trip *)

Lemma fresh_store_round_trip (name : string) (calls : list put_call) (fl : Z) (w : world) :
  Forall good_call calls ->
  NoDup (map p_key calls) ->
  Z.of_nat (List.length calls) < 2 ^ 32 ->
  store_bound (map item_of_call calls) < 2 ^ 64 ->
  exists s1 w1 s2 w2,
    put_all (fresh_write_store name 0) calls = (repeat KAS_OK (List.length calls), s1)
    /\ kastore_close s1 (set_fs w name []) = (KAS_OK, zero_store, w1)
    /\ kastore_open name "r" fl w1 = (KAS_OK, s2, w2)
    /\ Permutation (map entry (items s2)) (map entry_of_call calls)
    /\ (forall c, In c calls ->
          exists a,
            kastore_get s2 (p_key c) (Z.of_nat (List.length (p_key c)))
            = (KAS_OK, Some (a, p_array_len c, p_type c))
            /\ firstn (Z.to_nat (p_array_len c * type_size (p_type c))) a = p_array c)
    /\ (forall k, ~ In k (map p_key calls) ->
          kastore_get s2 k (Z.of_nat (List.length k)) = (KAS_ERR_KEY_NOT_FOUND, None))
    /\ StronglySorted (fun a b => compare_items a b < 0) (items s2).
Proof.
  intros Hgood Hdistinct Hcount Hbound.
  pose proof (put_all_new calls (fresh_write_store name 0) eq_refl Hcount
                (Forall_nil _) Hgood Hdistinct) as Hput.
  cbn [fresh_write_store num_items items app] in Hput. fold (fresh_write_store name 0) in Hput.
  set (s1 := set_items (fresh_write_store name 0) (0 + Z.of_nat (List.length calls))
               (map item_of_call calls)) in *.
  destruct (calls_round_trip s1 name calls fl (set_fs w name []))
    as (w1 & s2 & w2 & H); try assumption; try reflexivity.
  - apply fs_set_fs_same.
  - exists s1, w1, s2, w2. split; [exact Hput | exact H].
Qed.

(** C1. Good calls with distinct keys, written to a file that is then opened
    for reading (with any flags): every call, the close and the open
    succeed; the entries (key, type, array bytes) of the store read are, as a
    multiset, those of the calls; get on the key of a call returns a view
    that begins with the bytes of its array, with its element count and
    type; get on any other key returns KeyNotFound. *)
Theorem write_then_read_round_trip (name : string) (calls : list put_call) (fl : Z)
  (w : world) :
  Forall good_call calls ->
  NoDup (map p_key calls) ->
  Z.of_nat (List.length calls) < 2 ^ 32 ->
  store_bound (map item_of_call calls) < 2 ^ 64 ->
  let '(r_open, r_puts, r_close, r_reopen, s) := write_then_read name calls fl w in
  r_open = KAS_OK
  /\ r_puts = repeat KAS_OK (List.length calls)
  /\ r_close = KAS_OK
  /\ r_reopen = KAS_OK
  /\ Permutation (map entry (items s)) (map entry_of_call calls)
  /\ (forall c, In c calls ->
        exists a,
          kastore_get s (p_key c) (Z.of_nat (List.length (p_key c)))
          = (KAS_OK, Some (a, p_array_len c, p_type c))
          /\ firstn (Z.to_nat (p_array_len c * type_size (p_type c))) a = p_array c)
  /\ (forall k, ~ In k (map p_key calls) ->
        kastore_get s k (Z.of_nat (List.length k)) = (KAS_ERR_KEY_NOT_FOUND, None)).
Proof.
  intros Hgood Hdistinct Hcount Hbound.
  destruct (fresh_store_round_trip name calls fl w Hgood Hdistinct Hcount Hbound)
    as (s1 & w1 & s2 & w2 & Hput & Hclose & Hopen & Hperm & Hget & Hmiss & _).
  unfold write_then_read.
  rewrite kastore_open_write, Hput, Hclose, Hopen.
  repeat split; assumption.
Qed.

Lemma sample_calls_good : Forall good_call sample_calls.
Proof.
  repeat constructor; try discriminate.
Defined.

Lemma sample_calls_distinct : NoDup (map p_key sample_calls).
Proof.
  repeat constructor; cbn; intuition discriminate.
Defined.

Lemma write_then_read_round_trip_witness :
  let '(r_open, r_puts, r_close, r_reopen, s) :=
    write_then_read "f" sample_calls 0 no_files in
  r_open = KAS_OK
  /\ r_puts = repeat KAS_OK (List.length sample_calls)
  /\ r_close = KAS_OK
  /\ r_reopen = KAS_OK
  /\ Permutation (map entry (items s)) (map entry_of_call sample_calls)
  /\ (forall c, In c sample_calls ->
        exists a,
          kastore_get s (p_key c) (Z.of_nat (List.length (p_key c)))
          = (KAS_OK, Some (a, p_array_len c, p_type c))
          /\ firstn (Z.to_nat (p_array_len c * type_size (p_type c))) a = p_array c)
  /\ (forall k, ~ In k (map p_key sample_calls) ->
        kastore_get s k (Z.of_nat (List.length k)) = (KAS_ERR_KEY_NOT_FOUND, None)).
Proof.
  apply (write_then_read_round_trip "f" sample_calls 0 no_files
           sample_calls_good sample_calls_distinct); reflexivity.
Defined.

(** ** Sort order of what is read *)

(** C6, as stated, fails: a file whose descriptors carry the keys "b", "a" in
    that order, laid out as the packer would lay them out, is accepted, and
    the store has them in that order. *)
Lemma reader_does_not_check_order : ~ reader_checks_order.
Proof.
  intros H. specialize (H unsorted_file 0 eq_refl).
  remember (items (open_store unsorted_file 0)) as l eqn:El.
  vm_compute in El. subst l.
  apply StronglySorted_inv in H. destruct H as [_ H].
  apply Forall_inv in H. vm_compute in H. apply H. reflexivity.
Qed.

(** C6, amended. The reader keeps the order of the descriptors and does not
    compare keys; the files that [kastore_close] writes for good calls with
    distinct keys are read back with their items in strictly ascending
    order. *)
Theorem written_file_reads_sorted (name : string) (calls : list put_call) (fl : Z)
  (w : world) :
  Forall good_call calls ->
  NoDup (map p_key calls) ->
  Z.of_nat (List.length calls) < 2 ^ 32 ->
  store_bound (map item_of_call calls) < 2 ^ 64 ->
  let '(_, _, _, r_reopen, s) := write_then_read name calls fl w in
  r_reopen = KAS_OK
  /\ StronglySorted (fun a b => compare_items a b < 0) (items s).
Proof.
  intros Hgood Hdistinct Hcount Hbound.
  destruct (fresh_store_round_trip name calls fl w Hgood Hdistinct Hcount Hbound)
    as (s1 & w1 & s2 & w2 & Hput & Hclose & Hopen & _ & _ & _ & Hsorted).
  unfold write_then_read.
  rewrite kastore_open_write, Hput, Hclose, Hopen.
  split; [reflexivity | exact Hsorted].
Qed.

Lemma written_file_reads_sorted_witness :
  let '(_, _, _, r_reopen, s) := write_then_read "f" sample_calls 0 no_files in
  r_reopen = KAS_OK
  /\ StronglySorted (fun a b => compare_items a b < 0) (items s).
Proof.
  apply (written_file_reads_sorted "f" sample_calls 0 no_files
           sample_calls_good sample_calls_distinct); reflexivity.
Defined.

(** ** What put rejects *)

Lemma kastore_put_duplicate (s : kastore_t) (k : list byte) (klen : Z)
  (arr : list byte) (alen ty fl : Z) :
  num_items s = Z.of_nat (List.length (items s)) ->
  0 <= ty < KAS_NUM_TYPES ->
  klen <> 0 ->
  (exists it, In it (items s) /\ compare_items (key_item k klen) it = 0) ->
  kastore_put s k klen arr alen ty fl = (KAS_ERR_DUPLICATE_KEY, s).
Proof.
  intros Hnum Hty Hklen (it & Hin & Hcmp).
  unfold kastore_put.
  replace ((ty <? 0) || (ty >=? KAS_NUM_TYPES)) with false.
  2:{ symmetry. apply orb_false_iff. split; [apply Z.ltb_ge; lia|].
      rewrite Z.geb_leb. apply Z.leb_gt. lia. }
  replace (klen =? 0) with false by (symmetry; apply Z.eqb_neq; exact Hklen).
  rewrite Hnum, Nat2Z.id, firstn_all.
  replace (existsb _ (items s)) with true.
  - rewrite <- Hnum. destruct s; reflexivity.
  - symmetry. apply existsb_exists. exists it. split; [exact Hin|].
    apply Z.eqb_eq. exact Hcmp.
Qed.

(** A call for a key that an earlier call has put is rejected, and the store
    ends up as if it had not been made. *)
Lemma put_all_duplicate (name : string) (calls1 calls2 : list put_call) (d : put_call) :
  Forall good_call (calls1 ++ calls2) ->
  NoDup (map p_key (calls1 ++ calls2)) ->
  Z.of_nat (List.length (calls1 ++ calls2)) < 2 ^ 32 ->
  0 <= p_type d < KAS_NUM_TYPES ->
  In (p_key d) (map p_key calls1) ->
  put_all (fresh_write_store name 0) (calls1 ++ d :: calls2)
  = (repeat KAS_OK (List.length calls1)
       ++ KAS_ERR_DUPLICATE_KEY :: repeat KAS_OK (List.length calls2),
     set_items (fresh_write_store name 0)
       (Z.of_nat (List.length (calls1 ++ calls2)))
       (map item_of_call (calls1 ++ calls2))).
Proof.
  intros Hgood Hdistinct Hcount Hty Hin.
  apply Forall_app in Hgood. destruct Hgood as [Hgood1 Hgood2].
  rewrite length_app, Nat2Z.inj_add in Hcount.
  rewrite map_app in Hdistinct.
  rewrite put_all_app.
  rewrite (put_all_new calls1 (fresh_write_store name 0) eq_refl ltac:(cbn; lia)
             (Forall_nil _) Hgood1 (NoDup_app_remove_r _ _ Hdistinct)).
  cbn [fst snd put_all fresh_write_store num_items items app].
  fold (fresh_write_store name 0).
  set (s1 := set_items (fresh_write_store name 0) (0 + Z.of_nat (List.length calls1))
               (map item_of_call calls1)).
  assert (Hkeyed1 : Forall keyed (items s1)).
  { cbn [s1 set_items items]. rewrite Forall_map.
    eapply Forall_impl; [|exact Hgood1]. intros c Hc.
    destruct (item_of_call_good c Hc) as (_ & H1 & H2 & _). unfold keyed. lia. }
  assert (Hkeys1 : map key_bytes (items s1) = map p_key calls1).
  { cbn [s1 set_items items]. rewrite map_map. apply map_ext. apply item_of_call_key. }
  assert (Hdup : put_one s1 d = (KAS_ERR_DUPLICATE_KEY, s1)).
  { apply in_map_iff in Hin. destruct Hin as (c & Hkey & Hc).
    rewrite Forall_forall in Hgood1. pose proof (Hgood1 c Hc) as Hgc.
    pose proof (item_of_call_good c Hgc) as (_ & G1 & G2 & _).
    apply kastore_put_duplicate.
    - cbn [s1 set_items num_items items]. rewrite length_map. lia.
    - exact Hty.
    - rewrite <- Hkey. destruct Hgc as (_ & Hne & _).
      destruct (p_key c); [contradiction | cbn [List.length]; lia].
    - exists (item_of_call c). split.
      + cbn [s1 set_items items]. apply in_map. exact Hc.
      + rewrite compare_items_lex.
        * rewrite item_of_call_key, <- Hkey.
          unfold key_bytes, key_item. cbn [set_key key_len key].
          rewrite Nat2Z.id, !firstn_all. apply lex_refl.
        * unfold keyed, key_item. cbn [set_key key_len key].
          rewrite Nat2Z.id, firstn_all. lia.
        * unfold keyed. lia. }
  unfold put_one in Hdup. unfold put_one. rewrite Hdup.
  rewrite (put_all_new calls2 s1).
  - cbn [fst snd s1 set_items num_items items fresh_write_store].
    rewrite map_app, length_app, Nat2Z.inj_add. reflexivity.
  - cbn [s1 set_items num_items items]. rewrite length_map. lia.
  - cbn [s1 set_items items]. rewrite length_map. lia.
  - exact Hkeyed1.
  - exact Hgood2.
  - rewrite Hkeys1. exact Hdistinct.
Qed.

(** C8. Put returns BadType for a type tag outside 0..7, EmptyKey for a key
    length of 0 (the type being valid), DuplicateKey for a key that compares
    equal to the key of an item in the store, and leaves the store as it was
    each time.  A rejected duplicate among good calls changes nothing in what
    is written: the file is read back with the array of every call that was
    accepted, the first one for the duplicated key included. *)
Theorem put_rejections (s : kastore_t) (k : list byte) (klen : Z) (arr : list byte)
  (alen ty fl : Z) (name : string) (calls1 calls2 : list put_call) (d : put_call)
  (rfl : Z) (w : world) :
  (ty < 0 \/ KAS_NUM_TYPES <= ty ->
   kastore_put s k klen arr alen ty fl = (KAS_ERR_BAD_TYPE, s))
  /\ (0 <= ty < KAS_NUM_TYPES -> klen = 0 ->
      kastore_put s k klen arr alen ty fl = (KAS_ERR_EMPTY_KEY, s))
  /\ (0 <= ty < KAS_NUM_TYPES -> klen <> 0 ->
      num_items s = Z.of_nat (List.length (items s)) ->
      (exists it, In it (items s) /\ compare_items (key_item k klen) it = 0) ->
      kastore_put s k klen arr alen ty fl = (KAS_ERR_DUPLICATE_KEY, s))
  /\ (Forall good_call (calls1 ++ calls2) ->
      NoDup (map p_key (calls1 ++ calls2)) ->
      Z.of_nat (List.length (calls1 ++ calls2)) < 2 ^ 32 ->
      store_bound (map item_of_call (calls1 ++ calls2)) < 2 ^ 64 ->
      0 <= p_type d < KAS_NUM_TYPES ->
      In (p_key d) (map p_key calls1) ->
      let '(_, r_puts, r_close, r_reopen, s2) :=
        write_then_read name (calls1 ++ d :: calls2) rfl w in
      r_puts = repeat KAS_OK (List.length calls1)
                 ++ KAS_ERR_DUPLICATE_KEY :: repeat KAS_OK (List.length calls2)
      /\ r_close = KAS_OK
      /\ r_reopen = KAS_OK
      /\ forall c, In c (calls1 ++ calls2) ->
           exists a,
             kastore_get s2 (p_key c) (Z.of_nat (List.length (p_key c)))
             = (KAS_OK, Some (a, p_array_len c, p_type c))
             /\ firstn (Z.to_nat (p_array_len c * type_size (p_type c))) a = p_array c).
Proof.
  split; [|split; [|split]].
  - intros Hty. unfold kastore_put.
    replace ((ty <? 0) || (ty >=? KAS_NUM_TYPES)) with true; [reflexivity|].
    symmetry. apply orb_true_iff. destruct Hty as [H | H].
    + left. apply Z.ltb_lt. exact H.
    + right. rewrite Z.geb_leb. apply Z.leb_le. exact H.
  - intros Hty Hklen. unfold kastore_put.
    replace ((ty <? 0) || (ty >=? KAS_NUM_TYPES)) with false.
    + rewrite Hklen. reflexivity.
    + symmetry. apply orb_false_iff. split; [apply Z.ltb_ge; lia|].
      rewrite Z.geb_leb. apply Z.leb_gt. lia.
  - intros Hty Hklen Hnum Hex. apply kastore_put_duplicate; assumption.
  - intros Hgood Hdistinct Hcount Hbound Hty Hin.
    pose proof (put_all_duplicate name calls1 calls2 d Hgood Hdistinct Hcount Hty Hin)
      as Hput.
    set (s1 := set_items _ _ _) in Hput.
    destruct (calls_round_trip s1 name (calls1 ++ calls2) rfl (set_fs w name []))
      as (w1 & s2 & w2 & Hclose & Hopen & _ & Hget & _); try assumption; try reflexivity.
    + apply fs_set_fs_same.
    + unfold write_then_read.
      rewrite kastore_open_write, Hput, Hclose, Hopen.
      repeat split. exact Hget.
Qed.

Lemma put_rejections_witness :
  kastore_put one_key_store (bytes_of [97]) 1 [] 0 8 0 = (KAS_ERR_BAD_TYPE, one_key_store)
  /\ kastore_put one_key_store [] 0 [] 0 0 0 = (KAS_ERR_EMPTY_KEY, one_key_store)
  /\ kastore_put one_key_store (bytes_of [97]) 1 (bytes_of [1]) 1 0 0
     = (KAS_ERR_DUPLICATE_KEY, one_key_store)
  /\ (let '(_, r_puts, r_close, r_reopen, s2) :=
        write_then_read "f" (sample_calls ++ sample_duplicate :: []) 0 no_files in
      r_puts = [KAS_OK; KAS_OK; KAS_ERR_DUPLICATE_KEY]
      /\ r_close = KAS_OK
      /\ r_reopen = KAS_OK
      /\ forall c, In c (sample_calls ++ []) ->
           exists a,
             kastore_get s2 (p_key c) (Z.of_nat (List.length (p_key c)))
             = (KAS_OK, Some (a, p_array_len c, p_type c))
             /\ firstn (Z.to_nat (p_array_len c * type_size (p_type c))) a = p_array c).
Proof.
  destruct (put_rejections one_key_store (bytes_of [97]) 1 [] 0 8 0
              "f" sample_calls [] sample_duplicate 0 no_files) as (H1 & _).
  destruct (put_rejections one_key_store [] 0 [] 0 0 0
              "f" sample_calls [] sample_duplicate 0 no_files) as (_ & H2 & _ & H4).
  destruct (put_rejections one_key_store (bytes_of [97]) 1 (bytes_of [1]) 1 0 0
              "f" sample_calls [] sample_duplicate 0 no_files) as (_ & _ & H3 & _).
  split; [|split; [|split]].
  - apply H1. right. discriminate.
  - apply H2; [split; [discriminate | reflexivity] | reflexivity].
  - apply H3.
    + split; [discriminate | reflexivity].
    + discriminate.
    + reflexivity.
    + exists (item_of_call (mk_call (bytes_of [97]) (bytes_of [7]) 1 0)).
      split; [left; reflexivity | reflexivity].
  - apply H4.
    + exact sample_calls_good.
    + exact sample_calls_distinct.
    + reflexivity.
    + reflexivity.
    + split; [discriminate | reflexivity].
    + left. reflexivity.
Defined.

(** ** Memory mapping and what it shows *)


(** ** The packing walk, written and checked *)

Lemma kastore_read_header_items (s : kastore_t) (w : world) :
  items (snd (fst (kastore_read_header s w))) = items s.
Proof.
  unfold kastore_read_header. destruct (fread KAS_HEADER_SIZE (file s) w) as [[[c h] f] w1].
  repeat match goal with
         | |- context [if ?b then _ else _] => destruct b
         end; reflexivity.
Qed.

Lemma kastore_mmap_file_items (s : kastore_t) (w : world) :
  items (snd (fst (kastore_mmap_file s w))) = items s.
Proof.
  unfold kastore_mmap_file. destruct (stat_size (filename s) w); [|reflexivity].
  destruct (negb _); [reflexivity|].
  destruct (mmap _ _ _); reflexivity.
Qed.

Lemma kastore_read_file_items (s : kastore_t) (w : world) :
  items (snd (fst (kastore_read_file s w))) = items s.
Proof.
  unfold kastore_read_file.
  destruct (fseek0 _ _) as [[e f] w1].
  destruct (negb _); [reflexivity|].
  destruct (fread _ _ _) as [[[c d] f2] w2].
  destruct (c =? 0); reflexivity.
Qed.

(** Descriptors are accepted only if the packer would set the starts they
    carry. *)
Lemma kastore_read_descriptors_walk (r r' : kastore_t) :
  kastore_read_descriptors r = (KAS_OK, r') ->
  items (snd (kastore_pack_items r')) = items r'.
Proof.
  unfold kastore_read_descriptors.
  destruct (_ >? file_size r); [discriminate|].
  destruct (read_descriptors_loop _ _ _ _) as [ret l].
  destruct ret; cbn [is_ok negb]; try discriminate.
  cbn [set_items num_items items].
  destruct (check_keys _ l) as [o'|] eqn:Ek; [|discriminate].
  destruct (check_arrays o' l) eqn:Ea; [|discriminate].
  intros H. injection H as <-.
  unfold kastore_pack_items. cbn [set_items num_items items].
  rewrite (check_keys_pack _ _ _ Ek).
  pose proof (check_arrays_pack _ _ Ea) as Hp.
  destruct (pack_arrays o' l) as [l2 o2]. cbn [fst] in Hp. subst l2. reflexivity.
Qed.

Lemma kastore_open_read_walk (name : string) (fl : Z) (w w' : world) (s : kastore_t) :
  kastore_open name "r" fl w = (KAS_OK, s, w') ->
  items (snd (kastore_pack_items s)) = items s.
Proof.
  unfold kastore_open.
  change (negb (Nat.eqb (String.length "r") 1)) with false.
  change (String.eqb "r" "r") with true. cbv iota beta zeta.
  destruct (fopen name rb w) as [[f|] w0]; [|discriminate].
  cbn [set_mode set_file mode].
  change (KAS_READ =? KAS_READ) with true. cbv iota.
  set (s0 := set_file _ _).
  assert (H0 : items s0 = []) by reflexivity.
  unfold kastore_read.
  pose proof (kastore_read_header_items s0 w0) as H1.
  destruct (kastore_read_header s0 w0) as [[r1 s1] w1]. cbn [fst snd] in H1.
  destruct r1; cbn [is_ok negb]; try discriminate.
  assert (H2 : forall r2 s2 w2,
             (if mmap_gate (flags s1) then kastore_mmap_file s1 w1
              else kastore_read_file s1 w1) = (r2, s2, w2) ->
             items s2 = []).
  { intros r2 s2 w2 E. rewrite <- H0, <- H1.
    destruct (mmap_gate (flags s1)).
    - rewrite <- (kastore_mmap_file_items s1 w1), E. reflexivity.
    - rewrite <- (kastore_read_file_items s1 w1), E. reflexivity. }
  destruct (if mmap_gate (flags s1) then _ else _) as [[r2 s2] w2].
  specialize (H2 _ _ _ eq_refl).
  destruct r2; cbn [is_ok negb]; try discriminate.
  destruct (0 <? num_items s2).
  - destruct (kastore_read_descriptors _) as [r3 s3] eqn:E3.
    intros H. inversion H; subst.
    apply (kastore_read_descriptors_walk _ _ E3).
  - intros H. inversion H; subst.
    unfold kastore_pack_items. rewrite H2. reflexivity.
Qed.



(** ** A read-mode open, from the bytes of the file *)

Lemma strncmp_firstn (n : nat) :
  forall a b m, (n <= m)%nat -> strncmp (firstn m a) b n = strncmp a b n.
Proof.
  induction n as [|n IH]; intros a b m H; [reflexivity|].
  destruct m as [|m]; [lia|].
  destruct a as [|x a]; cbn [firstn strncmp head_char tl]; [reflexivity|].
  rewrite IH by lia. reflexivity.
Qed.

Lemma load_firstn (a : list byte) (off : Z) (n m : nat) :
  0 <= off -> (Z.to_nat off + n <= m)%nat -> load (firstn m a) off n = load a off n.
Proof.
  intros Hoff H. unfold load. f_equal.
  rewrite skipn_firstn_comm, firstn_firstn.
  f_equal. lia.
Qed.

(** [kastore_read_descriptors] looks at the buffer, the file size, the item
    count and the items, and at nothing else in the store. *)
Lemma kastore_read_descriptors_ext (a b : kastore_t) :
  buffer_bytes (read_buffer a) = buffer_bytes (read_buffer b) ->
  file_size a = file_size b ->
  num_items a = num_items b ->
  items a = items b ->
  fst (kastore_read_descriptors a) = fst (kastore_read_descriptors b)
  /\ num_items (snd (kastore_read_descriptors a))
     = num_items (snd (kastore_read_descriptors b))
  /\ items (snd (kastore_read_descriptors a)) = items (snd (kastore_read_descriptors b)).
Proof.
  intros Hb Hs Hn Hi. unfold kastore_read_descriptors. rewrite Hb, Hs, Hn, Hi.
  destruct (_ >? file_size b); [cbn [fst snd]; auto|].
  destruct (read_descriptors_loop _ _ _ _) as [ret l].
  destruct (negb (is_ok ret)); [cbn [fst snd set_items num_items items]; auto|].
  cbn [set_items num_items items].
  destruct (check_keys _ l) as [o|]; [|cbn [fst snd set_items num_items items]; auto].
  destruct (check_arrays o l); cbn [fst snd set_items num_items items]; auto.
Qed.

Section OpenRead.

Variables (name : string) (fl : Z) (w : world) (content : list byte).
Hypothesis Hfs : fs w name = Some content.

Let s0 : kastore_t :=
  mk_store fl KAS_READ (0, 0) 0 [] (Some (mk_FILE name 0 false)) name 0 NullBuffer.

(** The code of [kastore_read_header], and what it leaves in the store when
    it succeeds. *)
Lemma kastore_read_header_result :
  let '(r, s1, w1) := kastore_read_header s0 w in
  r = header_check content
  /\ w1 = w
  /\ (r = KAS_OK ->
      file s1 = Some (mk_FILE name 64 false)
      /\ filename s1 = name /\ flags s1 = fl /\ items s1 = []
      /\ num_items s1 = load content 12 4
      /\ file_size s1 = load content 16 8).
Proof.
  unfold kastore_read_header, header_check, fread.
  cbn [s0 file f_name f_pos f_eof]. rewrite Hfs. cbn [skipn].
  change (KAS_HEADER_SIZE =? 0) with false. cbv iota.
  destruct (Z.of_nat (List.length content) <? KAS_HEADER_SIZE) eqn:Elen.
  - apply Z.ltb_lt in Elen.
    replace (KAS_HEADER_SIZE <=? Z.of_nat (List.length content)) with false
      by (symmetry; apply Z.leb_gt; exact Elen).
    cbn [Z.eqb]. unfold kastore_get_read_io_error. cbn [set_file file feof f_eof orb].
    split; [reflexivity|]. split; [reflexivity|]. discriminate.
  - apply Z.ltb_ge in Elen.
    replace (KAS_HEADER_SIZE <=? Z.of_nat (List.length content)) with true
      by (symmetry; apply Z.leb_le; exact Elen).
    change (1 =? 0) with false. cbv iota.
    change (Z.to_nat KAS_HEADER_SIZE) with 64%nat.
    rewrite (strncmp_firstn 8 content KAS_MAGIC 64) by lia.
    rewrite !(load_firstn content) by (cbn; lia).
    destruct (negb (strncmp content KAS_MAGIC 8 =? 0));
      [split; [reflexivity|]; split; [reflexivity|]; discriminate|].
    cbn [set_file_version file_version fst].
    destruct (load content 8 2 <? KAS_FILE_VERSION_MAJOR);
      [split; [reflexivity|]; split; [reflexivity|]; discriminate|].
    destruct (load content 8 2 >? KAS_FILE_VERSION_MAJOR);
      [split; [reflexivity|]; split; [reflexivity|]; discriminate|].
    cbn [set_file_size set_num_items file_size].
    destruct (load content 16 8 <? KAS_HEADER_SIZE);
      [split; [reflexivity|]; split; [reflexivity|]; discriminate|].
    split; [reflexivity|]. split; [reflexivity|]. intros _. repeat split.
Qed.

(** The step after the header: the file mapped, or read into a buffer. *)
Lemma backing_buffer_result (s1 : kastore_t) :
  file s1 = Some (mk_FILE name 64 false) ->
  filename s1 = name ->
  KAS_HEADER_SIZE <= file_size s1 ->
  let '(r, s2, w2) :=
    if mmap_gate (flags s1) then kastore_mmap_file s1 w else kastore_read_file s1 w in
  let len := Z.of_nat (List.length content) in
  r = (if mmap_gate (flags s1)
       then if negb (file_size s1 =? len) then KAS_ERR_BAD_FILE_FORMAT else KAS_OK
       else if file_size s1 <=? len then KAS_OK else KAS_ERR_BAD_FILE_FORMAT)
  /\ (r = KAS_OK ->
      buffer_bytes (read_buffer s2) = firstn (Z.to_nat (file_size s1)) content
      /\ num_items s2 = num_items s1 /\ items s2 = items s1
      /\ file_size s2 = file_size s1).
Proof.
  intros Hfile Hname Hmin.
  destruct (mmap_gate (flags s1)).
  - unfold kastore_mmap_file, stat_size, mmap. rewrite Hname, Hfs, Hfile.
    cbn [f_name]. rewrite Hfs.
    destruct (negb (file_size s1 =? Z.of_nat (List.length content)));
      cbv zeta; [split; [reflexivity | discriminate]|].
    split; [reflexivity|]. intros _. repeat split.
  - unfold kastore_read_file, fseek0, fread.
    cbn [set_read_buffer file]. rewrite Hfile.
    cbn [Z.eqb negb set_file file file_size f_name f_pos skipn].
    rewrite Hfs. cbn [set_read_buffer file_size f_eof].
    replace (file_size s1 =? 0) with false
      by (symmetry; apply Z.eqb_neq; unfold KAS_HEADER_SIZE in Hmin; lia).
    destruct (file_size s1 <=? Z.of_nat (List.length content)); cbv zeta.
    + change (1 =? 0) with false. cbv iota.
      split; [reflexivity|]. intros _. repeat split.
    + cbn [Z.eqb]. unfold kastore_get_read_io_error.
      cbn [set_read_buffer set_file file feof f_eof orb].
      split; [reflexivity | discriminate].
Qed.

(** A read-mode open returns the code of [open_result], and on success a
    store with its items. *)
Lemma kastore_open_read_result :
  let '(r, s, _) := kastore_open name "r" fl w in
  r = fst (fst (open_result content fl))
  /\ (r = KAS_OK ->
      num_items s = snd (fst (open_result content fl))
      /\ items s = snd (open_result content fl)).
Proof.
  unfold kastore_open.
  change (negb (Nat.eqb (String.length "r") 1)) with false.
  change (String.eqb "r" "r") with true. cbv iota beta zeta.
  unfold fopen. rewrite Hfs.
  cbn [set_mode set_file mode flags file_version num_items items file filename
         file_size read_buffer zero_store].
  change (KAS_READ =? KAS_READ) with true. cbv iota.
  unfold kastore_read, open_result.
  match goal with |- context [kastore_read_header ?x w] => change x with s0 end.
  pose proof kastore_read_header_result as Hh.
  destruct (kastore_read_header s0 w) as [[r1 s1] w1].
  destruct Hh as (Hr1 & -> & Hs1). rewrite <- Hr1.
  destruct r1; cbn [is_ok negb fst snd]; try (split; [reflexivity | discriminate]).
  destruct (Hs1 eq_refl) as (Hfile & Hname & Hflags & Hitems & Hn & Hsize).
  assert (Hmin : KAS_HEADER_SIZE <= file_size s1).
  { unfold header_check in Hr1.
    destruct (_ <? KAS_HEADER_SIZE); [discriminate|].
    destruct (negb _); [discriminate|].
    destruct (_ <? KAS_FILE_VERSION_MAJOR); [discriminate|].
    destruct (_ >? KAS_FILE_VERSION_MAJOR); [discriminate|].
    rewrite Hsize.
    destruct (load content 16 8 <? KAS_HEADER_SIZE) eqn:E; [discriminate|].
    apply Z.ltb_ge in E. exact E. }
  pose proof (backing_buffer_result s1 Hfile Hname Hmin) as Hb.
  destruct (if mmap_gate (flags s1) then _ else _) as [[r2 s2] w2].
  cbv zeta in Hb. destruct Hb as (Hr2 & Hs2).
  rewrite Hflags in Hr2. rewrite <- Hn, <- Hsize.
  assert (Hbody : r2 = KAS_OK ->
            let '(r, s, _) :=
              if 0 <? num_items s2 then
                let self :=
                  set_items s2 (num_items s2)
                            (repeat zero_item (Z.to_nat (num_items s2))) in
                let '(ret, self) := kastore_read_descriptors self in (ret, self, w2)
              else (KAS_OK, s2, w2) in
            r = fst (fst (read_body (firstn (Z.to_nat (file_size s1)) content)
                            (num_items s1) (file_size s1)))
            /\ (r = KAS_OK ->
                num_items s
                = snd (fst (read_body (firstn (Z.to_nat (file_size s1)) content)
                              (num_items s1) (file_size s1)))
                /\ items s
                   = snd (read_body (firstn (Z.to_nat (file_size s1)) content)
                            (num_items s1) (file_size s1)))).
  { intros Hok. destruct (Hs2 Hok) as (Hbuf & Hn2 & Hi2 & Hsz2).
    unfold read_body. rewrite Hn2.
    destruct (0 <? num_items s1).
    - cbv zeta.
      destruct (kastore_read_descriptors_ext
                  (set_items s2 (num_items s1) (repeat zero_item (Z.to_nat (num_items s1))))
                  (blank_store (firstn (Z.to_nat (file_size s1)) content)
                     (num_items s1) (file_size s1)))
        as (E1 & E2 & E3); try reflexivity; try assumption.
      destruct (kastore_read_descriptors (set_items s2 _ _)) as [ra sa].
      destruct (kastore_read_descriptors (blank_store _ _ _)) as [rb sb].
      cbn [fst snd] in *. subst ra. split; [reflexivity|]. intros _. split; assumption.
    - cbn [fst snd]. split; [reflexivity|]. intros _. split; [exact Hn2|].
      rewrite Hi2. exact Hitems. }
  revert Hr2 Hbody. destruct (mmap_gate fl).
  - destruct (negb (file_size s1 =? Z.of_nat (List.length content)));
      intros -> Hbody; cbn [is_ok negb].
    + cbv beta iota zeta. split; [reflexivity | discriminate].
    + apply Hbody. reflexivity.
  - destruct (file_size s1 <=? Z.of_nat (List.length content));
      intros -> Hbody; cbn [is_ok negb].
    + apply Hbody. reflexivity.
    + cbv beta iota zeta. split; [reflexivity | discriminate].
Qed.

End OpenRead.

(** ** Files that differ from a valid one *)

Section Patches.

Variables (c x : list byte) (off : Z) (n : nat).
Hypothesis Hoff : 0 <= off.
Hypothesis Hfit : (Z.to_nat off + n <= List.length c)%nat.
Hypothesis Hsrc : (n <= List.length x)%nat.

Lemma length_memcpy : List.length (memcpy c off x n) = List.length c.
Proof.
  unfold memcpy. rewrite !length_app, !length_firstn, length_skipn. lia.
Qed.

Lemma firstn_memcpy_before (m : nat) :
  (m <= Z.to_nat off)%nat -> firstn m (memcpy c off x n) = firstn m c.
Proof.
  intros H. unfold memcpy. rewrite firstn_app, firstn_firstn.
  rewrite length_firstn.
  replace (m - Nat.min (Z.to_nat off) (List.length c))%nat with 0%nat by lia.
  cbn [firstn]. rewrite app_nil_r. f_equal. lia.
Qed.

Lemma skipn_memcpy_after (m : nat) :
  (Z.to_nat off + n <= m)%nat -> skipn m (memcpy c off x n) = skipn m c.
Proof.
  intros H. unfold memcpy.
  rewrite skipn_app, length_firstn.
  rewrite (skipn_all2 (firstn (Z.to_nat off) c)) by (rewrite length_firstn; lia).
  cbn [app]. rewrite skipn_app, length_firstn.
  rewrite (skipn_all2 (firstn n x)) by (rewrite length_firstn; lia).
  cbn [app]. rewrite skipn_skipn. f_equal. lia.
Qed.

Lemma load_memcpy_same : load (memcpy c off x n) off n = le_combine (firstn n x).
Proof.
  unfold load, memcpy. f_equal.
  rewrite skipn_app_exact by (rewrite length_firstn; lia).
  apply firstn_app_exact. rewrite length_firstn. lia.
Qed.

Lemma load_memcpy_before (off' : Z) (n' : nat) :
  0 <= off' -> (Z.to_nat off' + n' <= Z.to_nat off)%nat ->
  load (memcpy c off x n) off' n' = load c off' n'.
Proof.
  intros H0 H.
  rewrite <- (load_firstn (memcpy c off x n) off' n' (Z.to_nat off)) by lia.
  rewrite <- (load_firstn c off' n' (Z.to_nat off)) by lia.
  rewrite firstn_memcpy_before by lia. reflexivity.
Qed.

Lemma load_memcpy_after (off' : Z) (n' : nat) :
  (Z.to_nat off + n <= Z.to_nat off')%nat ->
  load (memcpy c off x n) off' n' = load c off' n'.
Proof.
  intros H. unfold load. rewrite skipn_memcpy_after by lia. reflexivity.
Qed.

Lemma strncmp_memcpy_after (m : list byte) (k : nat) :
  (k <= Z.to_nat off)%nat -> strncmp (memcpy c off x n) m k = strncmp c m k.
Proof.
  intros H.
  rewrite <- (strncmp_firstn k (memcpy c off x n) m k) by lia.
  rewrite <- (strncmp_firstn k c m k) by lia.
  rewrite firstn_memcpy_before by lia. reflexivity.
Qed.

End Patches.

Lemma load_bound (c : list byte) (off : Z) (n : nat) :
  0 <= load c off n < 2 ^ (8 * Z.of_nat n).
Proof.
  unfold load.
  pose proof (le_combine_bound (firstn n (skipn (Z.to_nat off) c))) as H.
  pose proof (firstn_le_length n (skipn (Z.to_nat off) c)) as Hl.
  split; [lia|]. eapply Z.lt_le_trans; [apply H|].
  apply Z.pow_le_mono_r; lia.
Qed.

(** [strncmp] against a string without NUL is 0 exactly on the blocks that
    begin with the string. *)
Lemma strncmp_eq (m : list byte) :
  Forall (fun b => byte.unsigned b <> 0) m ->
  forall c, strncmp c m (List.length m) = 0 <-> firstn (List.length m) c = m.
Proof.
  induction 1 as [|y m Hy Hm IH]; intros c; cbn [List.length].
  - cbn. tauto.
  - pose proof (byte.unsigned_range y) as Ry.
    destruct c as [|b c]; cbn [strncmp head_char tl firstn].
    + replace (0 <? byte.unsigned y) with true by (symmetry; apply Z.ltb_lt; lia).
      split; discriminate.
    + destruct (byte.unsigned b <? byte.unsigned y) eqn:E1.
      { apply Z.ltb_lt in E1. split; [discriminate|].
        intros H. injection H as H _. subst b. lia. }
      destruct (byte.unsigned y <? byte.unsigned b) eqn:E2.
      { apply Z.ltb_lt in E2. split; [discriminate|].
        intros H. injection H as H _. subst b. lia. }
      apply Z.ltb_ge in E1, E2.
      assert (b = y) by (apply byte.unsigned_inj; lia). subst b.
      replace (byte.unsigned y =? 0) with false by (symmetry; apply Z.eqb_neq; exact Hy).
      rewrite IH. split; [intros ->; reflexivity | intros H; injection H; auto].
Qed.

Lemma strncmp_magic (c : list byte) :
  strncmp c KAS_MAGIC 8 = 0 <-> firstn 8 c = KAS_MAGIC.
Proof.
  apply (strncmp_eq KAS_MAGIC). repeat constructor; discriminate.
Qed.

(** Descriptors are checked on their numbers alone, and these are read at
    offsets from 64 on. *)
Section Agree.

Variables (b1 b2 : list byte) (size : Z).
Hypothesis Hload : forall off n, 64 <= off -> load b1 off n = load b2 off n.

Lemma read_descriptor_agree (off : Z) (it1 it2 : kaitem_t) :
  64 <= off ->
  numbers it1 = numbers it2 ->
  fst (read_descriptor b1 size off it1) = fst (read_descriptor b2 size off it2)
  /\ numbers (snd (read_descriptor b1 size off it1))
     = numbers (snd (read_descriptor b2 size off it2)).
Proof.
  intros Hoff Hnum. unfold read_descriptor.
  rewrite !Hload by lia.
  destruct (load b2 off 1 >=? KAS_NUM_TYPES); [split; [reflexivity | exact Hnum]|].
  unfold numbers in Hnum. injection Hnum as H1 H2 H3 H4 H5.
  destruct (add64 _ _ >? size).
  - split; [reflexivity|]. unfold numbers. cbn. congruence.
  - destruct (add64 _ _ >? size).
    + split; [reflexivity|]. unfold numbers. cbn. congruence.
    + split; [reflexivity|]. unfold numbers. cbn. reflexivity.
Qed.

Lemma read_descriptors_loop_agree (l1 : list kaitem_t) :
  forall l2 off,
    64 <= off ->
    off + 64 * Z.of_nat (List.length l1) < 2 ^ 64 ->
    map numbers l1 = map numbers l2 ->
    fst (read_descriptors_loop b1 size off l1) = fst (read_descriptors_loop b2 size off l2)
    /\ map numbers (snd (read_descriptors_loop b1 size off l1))
       = map numbers (snd (read_descriptors_loop b2 size off l2)).
Proof.
  induction l1 as [|it1 l1 IH]; intros [|it2 l2] off Hoff Hfit Hnum;
    try discriminate; [split; reflexivity|].
  cbn [map] in Hnum.
  assert (Hn : numbers it1 = numbers it2)
    by (injection Hnum; intros; unfold numbers; congruence).
  assert (Hrest : map numbers l1 = map numbers l2) by (injection Hnum; auto).
  cbn [read_descriptors_loop List.length] in *.
  destruct (read_descriptor_agree off it1 it2 Hoff Hn) as [E1 E2].
  destruct (read_descriptor b1 size off it1) as [r1 i1].
  destruct (read_descriptor b2 size off it2) as [r2 i2].
  cbn [fst snd] in E1, E2. subst r2.
  destruct (negb (is_ok r1)).
  - cbn [fst snd map]. split; [reflexivity|]. congruence.
  - unfold KAS_ITEM_DESCRIPTOR_SIZE. rewrite add64_small by lia.
    destruct (IH l2 (off + 64) ltac:(lia) ltac:(lia) Hrest) as [E3 E4].
    destruct (read_descriptors_loop b1 size (off + 64) l1) as [r3 l3].
    destruct (read_descriptors_loop b2 size (off + 64) l2) as [r4 l4].
    cbn [fst snd map] in *. split; congruence.
Qed.

End Agree.

Lemma check_keys_numbers (l1 : list kaitem_t) :
  forall l2 o, map numbers l1 = map numbers l2 -> check_keys o l1 = check_keys o l2.
Proof.
  induction l1 as [|it1 l1 IH]; intros [|it2 l2] o H; try discriminate; [reflexivity|].
  cbn [map] in H. injection H as H1 H2 H3 H4 H5 Hrest.
  cbn [check_keys]. rewrite H4, H2. destruct (negb _); [reflexivity|].
  apply IH. exact Hrest.
Qed.

Lemma check_arrays_numbers (l1 : list kaitem_t) :
  forall l2 o, map numbers l1 = map numbers l2 -> check_arrays o l1 = check_arrays o l2.
Proof.
  induction l1 as [|it1 l1 IH]; intros [|it2 l2] o H; try discriminate; [reflexivity|].
  cbn [map] in H. injection H as H1 H2 H3 H4 H5 Hrest.
  cbn [check_arrays]. rewrite H5, H3, H1. destruct (negb _); [reflexivity|].
  apply IH. exact Hrest.
Qed.

(** The code of the last step of a read is the same on two buffers that
    agree from offset 64 on. *)
Lemma read_body_agree (b1 b2 : list byte) (n size : Z) :
  (forall off k, 64 <= off -> load b1 off k = load b2 off k) ->
  0 <= n < 2 ^ 32 ->
  fst (fst (read_body b1 n size)) = fst (fst (read_body b2 n size)).
Proof.
  intros Hload Hn. unfold read_body.
  destruct (0 <? n); [|reflexivity].
  unfold kastore_read_descriptors.
  cbn [blank_store num_items file_size read_buffer buffer_bytes items].
  destruct (_ >? size); [reflexivity|].
  destruct (read_descriptors_loop_agree b1 b2 size Hload
              (repeat zero_item (Z.to_nat n)) (repeat zero_item (Z.to_nat n))
              KAS_HEADER_SIZE) as [E1 E2].
  - unfold KAS_HEADER_SIZE. lia.
  - rewrite repeat_length. unfold KAS_HEADER_SIZE. lia.
  - reflexivity.
  - destruct (read_descriptors_loop b1 size KAS_HEADER_SIZE _) as [r1 l1].
    destruct (read_descriptors_loop b2 size KAS_HEADER_SIZE _) as [r2 l2].
    cbn [fst snd] in E1, E2. subst r2.
    destruct (negb (is_ok r1)); [reflexivity|].
    cbn [set_items num_items items].
    rewrite (check_keys_numbers l1 l2 _ E2).
    destruct (check_keys _ l2) as [o|]; [|reflexivity].
    rewrite (check_arrays_numbers l1 l2 _ E2).
    destruct (check_arrays o l2); reflexivity.
Qed.

Lemma read_code_result (name : string) (w : world) (content : list byte) (fl : Z) :
  fs w name = Some content ->
  read_code name w fl = fst (fst (open_result content fl)).
Proof.
  intros Hfs. unfold read_code.
  pose proof (kastore_open_read_result name fl w content Hfs) as H.
  destruct (kastore_open name "r" fl w) as [[r s] w2]. apply H.
Qed.

Lemma header_check_ok (content : list byte) :
  header_check content = KAS_OK <->
  KAS_HEADER_SIZE <= Z.of_nat (List.length content)
  /\ strncmp content KAS_MAGIC 8 = 0
  /\ load content 8 2 = KAS_FILE_VERSION_MAJOR
  /\ KAS_HEADER_SIZE <= load content 16 8.
Proof.
  unfold header_check. split.
  - destruct (_ <? KAS_HEADER_SIZE) eqn:E1; [discriminate|].
    destruct (strncmp content KAS_MAGIC 8 =? 0) eqn:E2; cbn [negb]; [|discriminate].
    destruct (_ <? KAS_FILE_VERSION_MAJOR) eqn:E3; [discriminate|].
    destruct (_ >? KAS_FILE_VERSION_MAJOR) eqn:E4; [discriminate|].
    destruct (load content 16 8 <? KAS_HEADER_SIZE) eqn:E5; [discriminate|].
    intros _. apply Z.ltb_ge in E1, E3, E5. apply Z.eqb_eq in E2.
    rewrite Z.gtb_ltb in E4. apply Z.ltb_ge in E4. repeat split; try assumption. lia.
  - intros (H1 & H2 & H3 & H4).
    replace (_ <? KAS_HEADER_SIZE) with false by (symmetry; apply Z.ltb_ge; exact H1).
    rewrite H2, H3. cbn [Z.eqb negb].
    rewrite Z.ltb_irrefl, Z.gtb_ltb, Z.ltb_irrefl.
    replace (load content 16 8 <? KAS_HEADER_SIZE) with false
      by (symmetry; apply Z.ltb_ge; exact H4).
    reflexivity.
Qed.

(** What a file accepted by the mapping open is. *)
Lemma valid_file_facts (content : list byte) :
  fst (fst (open_result content 0)) = KAS_OK ->
  header_check content = KAS_OK
  /\ load content 16 8 = Z.of_nat (List.length content)
  /\ fst (fst (read_body content (load content 12 4) (load content 16 8))) = KAS_OK.
Proof.
  unfold open_result. change (mmap_gate 0) with true. cbv iota.
  destruct (header_check content); cbn [fst]; try discriminate.
  destruct (load content 16 8 =? Z.of_nat (List.length content)) eqn:E;
    cbn [negb fst]; [|discriminate].
  apply Z.eqb_eq in E. rewrite E at 1. rewrite Nat2Z.id, firstn_all.
  intros H. repeat split; assumption.
Qed.

(** ** No-mmap flag *)



(** ** Rejection *)

Section Rejection.

Variable content : list byte.
Hypothesis Hvalid : fst (fst (open_result content 0)) = KAS_OK.

Lemma valid_header :
  KAS_HEADER_SIZE <= Z.of_nat (List.length content)
  /\ strncmp content KAS_MAGIC 8 = 0
  /\ load content 8 2 = KAS_FILE_VERSION_MAJOR
  /\ KAS_HEADER_SIZE <= load content 16 8.
Proof.
  apply header_check_ok. apply (valid_file_facts content Hvalid).
Qed.

(** A file cut short is rejected as a bad file. *)
Lemma truncated_rejected (m : nat) (fl : Z) :
  (m < List.length content)%nat ->
  fst (fst (open_result (firstn m content) fl)) = KAS_ERR_BAD_FILE_FORMAT.
Proof.
  intros Hm.
  destruct valid_header as (H1 & H2 & H3 & H4).
  destruct (valid_file_facts content Hvalid) as (_ & Hsize & _).
  unfold KAS_HEADER_SIZE in *.
  assert (Hlen : List.length (firstn m content) = m) by (rewrite length_firstn; lia).
  unfold open_result.
  destruct (Z.of_nat m <? 64) eqn:E.
  - unfold header_check. rewrite Hlen. unfold KAS_HEADER_SIZE. rewrite E. reflexivity.
  - apply Z.ltb_ge in E.
    assert (Hh : header_check (firstn m content) = KAS_OK).
    { apply header_check_ok. rewrite Hlen.
      rewrite (strncmp_firstn 8 content KAS_MAGIC m) by lia.
      rewrite !(load_firstn content) by (cbn; lia).
      unfold KAS_HEADER_SIZE. repeat split; assumption. }
    rewrite Hh, Hlen. rewrite !(load_firstn content) by (cbn; lia).
    destruct (mmap_gate fl).
    + replace (load content 16 8 =? Z.of_nat m) with false
        by (symmetry; apply Z.eqb_neq; lia).
      reflexivity.
    + replace (load content 16 8 <=? Z.of_nat m) with false
        by (symmetry; apply Z.leb_gt; lia).
      reflexivity.
Qed.

(** A file with one of its first eight bytes changed is rejected as a bad
    file. *)
Lemma magic_changed_rejected (i : nat) (b : byte) (fl : Z) :
  (i < 8)%nat -> nth_error content i <> Some b ->
  fst (fst (open_result (memcpy content (Z.of_nat i) [b] 1) fl))
  = KAS_ERR_BAD_FILE_FORMAT.
Proof.
  intros Hi Hb.
  destruct valid_header as (H1 & H2 & H3 & H4). unfold KAS_HEADER_SIZE in *.
  unfold open_result, header_check.
  rewrite length_memcpy by (cbn [List.length]; lia).
  replace (Z.of_nat (List.length content) <? KAS_HEADER_SIZE) with false
    by (symmetry; apply Z.ltb_ge; exact H1).
  replace (strncmp (memcpy content (Z.of_nat i) [b] 1) KAS_MAGIC 8 =? 0) with false;
    [reflexivity|].
  symmetry. apply Z.eqb_neq. intros Hs.
  apply strncmp_magic in Hs. apply strncmp_magic in H2.
  apply Hb.
  assert (Hn : nth_error (firstn 8 (memcpy content (Z.of_nat i) [b] 1)) i = Some b).
  { rewrite nth_error_firstn.
    replace (i <? 8)%nat with true by (symmetry; apply Nat.ltb_lt; exact Hi).
    unfold memcpy. rewrite Nat2Z.id.
    rewrite nth_error_app2 by (rewrite length_firstn; lia).
    rewrite length_firstn.
    replace (i - Nat.min i (List.length content))%nat with 0%nat by lia.
    reflexivity. }
  rewrite Hs, <- H2 in Hn. rewrite nth_error_firstn in Hn.
  replace (i <? 8)%nat with true in Hn by (symmetry; apply Nat.ltb_lt; exact Hi).
  exact Hn.
Qed.

(** A file with another major version is rejected as too new or too old. *)
Lemma major_changed_rejected (v : Z) (fl : Z) :
  0 <= v < 2 ^ 16 -> v <> KAS_FILE_VERSION_MAJOR ->
  fst (fst (open_result (memcpy content 8 (le_split 2 v) 2) fl))
  = if v <? KAS_FILE_VERSION_MAJOR then KAS_ERR_VERSION_TOO_OLD
    else KAS_ERR_VERSION_TOO_NEW.
Proof.
  intros Hv Hne.
  destruct valid_header as (H1 & H2 & H3 & H4). unfold KAS_HEADER_SIZE in *.
  unfold open_result, header_check.
  rewrite length_memcpy by (rewrite ?length_le_split; lia).
  replace (Z.of_nat (List.length content) <? KAS_HEADER_SIZE) with false
    by (symmetry; apply Z.ltb_ge; exact H1).
  rewrite strncmp_memcpy_after by (rewrite ?length_le_split; lia).
  rewrite H2. cbn [Z.eqb negb].
  rewrite load_memcpy_same by (rewrite ?length_le_split; lia).
  change (firstn 2 (le_split 2 v)) with (le_split 2 v).
  rewrite le_combine_split. change (2 ^ (Z.of_nat 2 * 8)) with (2 ^ 16).
  rewrite Z.mod_small by lia.
  destruct (v <? KAS_FILE_VERSION_MAJOR) eqn:E; [reflexivity|].
  apply Z.ltb_ge in E.
  replace (v >? KAS_FILE_VERSION_MAJOR) with true
    by (symmetry; rewrite Z.gtb_ltb; apply Z.ltb_lt; lia).
  reflexivity.
Qed.

(** A file with another minor version is accepted. *)
Lemma minor_changed_accepted (v : Z) (fl : Z) :
  fst (fst (open_result (memcpy content 10 (le_split 2 v) 2) fl)) = KAS_OK.
Proof.
  destruct valid_header as (H1 & H2 & H3 & H4).
  destruct (valid_file_facts content Hvalid) as (_ & Hsize & Hbody).
  unfold KAS_HEADER_SIZE in *.
  set (c' := memcpy content 10 (le_split 2 v) 2).
  assert (Hlen : List.length c' = List.length content)
    by (apply length_memcpy; rewrite ?length_le_split; lia).
  assert (Hafter : forall off k, 12 <= off -> load c' off k = load content off k).
  { intros off k Hoff. apply load_memcpy_after; rewrite ?length_le_split; lia. }
  assert (Hh : header_check c' = KAS_OK).
  { apply header_check_ok. rewrite Hlen. unfold c'.
    rewrite strncmp_memcpy_after by (rewrite ?length_le_split; lia).
    rewrite load_memcpy_before by (rewrite ?length_le_split; lia).
    fold c'. rewrite (Hafter 16) by lia.
    unfold KAS_HEADER_SIZE. repeat split; assumption. }
  unfold open_result. rewrite Hh, Hlen, !Hafter by lia.
  rewrite Hsize, Z.eqb_refl, Z.leb_refl. cbn [negb].
  rewrite Nat2Z.id, <- Hlen, firstn_all, Hlen.
  assert (Hb : fst (fst (read_body c' (load content 12 4)
                           (Z.of_nat (List.length content)))) = KAS_OK).
  { rewrite <- Hbody, Hsize. apply read_body_agree.
    - intros off k Hoff. apply Hafter. lia.
    - apply (load_bound content 12 4). }
  destruct (mmap_gate fl); exact Hb.
Qed.

End Rejection.

(** C9. For a file that the mapping open accepts (its length is then the
    file size its header records): every truncation by one byte or more is
    rejected with BadFileFormat; so is the file with any one of the eight
    magic bytes changed; with the major version raised it is rejected with
    VersionTooNew, with the major version lowered with VersionTooOld; with
    the minor version changed it is accepted.  This holds whatever the open
    flags are. *)
Theorem malformed_files_are_rejected (name : string) (w : world) (content : list byte) :
  fs w name = Some content ->
  read_code name w 0 = KAS_OK ->
  (forall w' n fl,
      (1 <= n <= List.length content)%nat ->
      fs w' name = Some (firstn (List.length content - n) content) ->
      read_code name w' fl = KAS_ERR_BAD_FILE_FORMAT \/ read_code name w' fl = KAS_ERR_IO)
  /\ (forall w' i b fl,
         (i < 8)%nat -> nth_error content i <> Some b ->
         fs w' name = Some (memcpy content (Z.of_nat i) [b] 1) ->
         read_code name w' fl = KAS_ERR_BAD_FILE_FORMAT)
  /\ (forall w' v fl,
         KAS_FILE_VERSION_MAJOR < v < 2 ^ 16 ->
         fs w' name = Some (memcpy content 8 (le_split 2 v) 2) ->
         read_code name w' fl = KAS_ERR_VERSION_TOO_NEW)
  /\ (forall w' v fl,
         0 <= v < KAS_FILE_VERSION_MAJOR ->
         fs w' name = Some (memcpy content 8 (le_split 2 v) 2) ->
         read_code name w' fl = KAS_ERR_VERSION_TOO_OLD)
  /\ (forall w' v fl,
         fs w' name = Some (memcpy content 10 (le_split 2 v) 2) ->
         read_code name w' fl = KAS_OK).
Proof.
  intros Hfs Hok. rewrite (read_code_result name w content 0 Hfs) in Hok.
  repeat split.
  - intros w' n fl Hn Hfs'. left.
    rewrite (read_code_result name w' _ fl Hfs').
    apply truncated_rejected; [exact Hok | lia].
  - intros w' i b fl Hi Hb Hfs'.
    rewrite (read_code_result name w' _ fl Hfs').
    apply magic_changed_rejected; assumption.
  - intros w' v fl Hv Hfs'.
    rewrite (read_code_result name w' _ fl Hfs').
    rewrite major_changed_rejected; [|exact Hok|unfold KAS_FILE_VERSION_MAJOR in *; lia|lia].
    replace (v <? KAS_FILE_VERSION_MAJOR) with false by (symmetry; apply Z.ltb_ge; lia).
    reflexivity.
  - intros w' v fl Hv Hfs'.
    rewrite (read_code_result name w' _ fl Hfs').
    rewrite major_changed_rejected; [|exact Hok|unfold KAS_FILE_VERSION_MAJOR in *; lia|lia].
    replace (v <? KAS_FILE_VERSION_MAJOR) with true by (symmetry; apply Z.ltb_lt; lia).
    reflexivity.
  - intros w' v fl Hfs'.
    rewrite (read_code_result name w' _ fl Hfs').
    apply minor_changed_accepted. exact Hok.
Qed.

Lemma malformed_files_are_rejected_witness :
  (forall w' n fl,
      (1 <= n <= List.length unsorted_file)%nat ->
      fs w' "f" = Some (firstn (List.length unsorted_file - n) unsorted_file) ->
      read_code "f" w' fl = KAS_ERR_BAD_FILE_FORMAT \/ read_code "f" w' fl = KAS_ERR_IO)
  /\ (forall w' i b fl,
         (i < 8)%nat -> nth_error unsorted_file i <> Some b ->
         fs w' "f" = Some (memcpy unsorted_file (Z.of_nat i) [b] 1) ->
         read_code "f" w' fl = KAS_ERR_BAD_FILE_FORMAT)
  /\ (forall w' v fl,
         KAS_FILE_VERSION_MAJOR < v < 2 ^ 16 ->
         fs w' "f" = Some (memcpy unsorted_file 8 (le_split 2 v) 2) ->
         read_code "f" w' fl = KAS_ERR_VERSION_TOO_NEW)
  /\ (forall w' v fl,
         0 <= v < KAS_FILE_VERSION_MAJOR ->
         fs w' "f" = Some (memcpy unsorted_file 8 (le_split 2 v) 2) ->
         read_code "f" w' fl = KAS_ERR_VERSION_TOO_OLD)
  /\ (forall w' v fl,
         fs w' "f" = Some (memcpy unsorted_file 10 (le_split 2 v) 2) ->
         read_code "f" w' fl = KAS_OK).
Proof.
  apply (malformed_files_are_rejected "f" (disk unsorted_file) unsorted_file).
  - reflexivity.
  - vm_compute. reflexivity.
Defined.

(** * Further properties *)

(** ** The key order *)

(** X1. On items whose keys are in memory, the sign of [compare_items] is
    a total order on the keys; its size is the one [memcmp] gives and is not
    used.  The result is 0 exactly for byte-equal keys, it is negative one
    way round exactly when it is positive the other way round, it is
    negative exactly when the first key comes before the second in the order
    of section 4.2 (bytes compared as unsigned, a proper prefix first), and
    two results that are not positive compose. *)
Theorem compare_items_total_order (a b c : kaitem_t) :
  keyed a -> keyed b -> keyed c ->
  (compare_items a b = 0 <-> key_bytes a = key_bytes b)
  /\ (compare_items a b < 0 <-> 0 < compare_items b a)
  /\ (compare_items a b < 0 <-> lex (key_bytes a) (key_bytes b) < 0)
  /\ (compare_items a b <= 0 -> compare_items b c <= 0 -> compare_items a c <= 0).
Proof.
  intros Ha Hb Hc.
  rewrite (compare_items_lex a b Ha Hb), (compare_items_lex b a Hb Ha),
    (compare_items_lex b c Hb Hc), (compare_items_lex a c Ha Hc).
  split; [split; [apply lex_eq | intros ->; apply lex_refl]|].
  split; [rewrite (lex_antisym (key_bytes b) (key_bytes a)); lia|].
  split; [reflexivity | apply lex_trans].
Qed.

Lemma item_ab_keyed : keyed item_ab.
Proof. split; [discriminate | apply Z.leb_le; reflexivity]. Defined.

Lemma item_b_keyed : keyed item_b.
Proof. split; [discriminate | apply Z.leb_le; reflexivity]. Defined.

Lemma compare_items_total_order_witness :
  (compare_items item_ab item_b = 0 <-> key_bytes item_ab = key_bytes item_b)
  /\ (compare_items item_ab item_b < 0 <-> 0 < compare_items item_b item_ab)
  /\ (compare_items item_ab item_b < 0 <-> lex (key_bytes item_ab) (key_bytes item_b) < 0)
  /\ (compare_items item_ab item_b <= 0 -> compare_items item_b item_b <= 0 ->
      compare_items item_ab item_b <= 0).
Proof.
  exact (compare_items_total_order item_ab item_b item_b
           item_ab_keyed item_b_keyed item_b_keyed).
Defined.

(** ** Open *)

(** X2. Any mode string other than "r" and "w" makes open return BadMode,
    with the store zeroed and nothing done to the world. *)
Theorem open_rejects_other_modes (name open_mode : string) (fl : Z) (w : world) :
  open_mode <> "r"%string -> open_mode <> "w"%string ->
  kastore_open name open_mode fl w = (KAS_ERR_BAD_MODE, zero_store, w).
Proof.
  intros Hr Hw. unfold kastore_open.
  destruct (negb (Nat.eqb (String.length open_mode) 1)); [reflexivity|].
  apply String.eqb_neq in Hr, Hw. rewrite Hr, Hw. reflexivity.
Qed.

Lemma open_rejects_other_modes_witness :
  kastore_open "f" "rw" 0 no_files = (KAS_ERR_BAD_MODE, zero_store, no_files).
Proof.
  apply (open_rejects_other_modes "f" "rw" 0 no_files); discriminate.
Defined.

Lemma fread_keeps_disk (size : Z) (stream : option FILE) (w : world) :
  fs (snd (fread size stream w)) = fs w /\ log (snd (fread size stream w)) = log w.
Proof.
  unfold fread. destruct stream as [f|]; [|split; reflexivity].
  destruct (fs w (f_name f)); [|split; reflexivity].
  destruct (size =? 0); [split; reflexivity|].
  destruct (size <=? _); split; reflexivity.
Qed.

Lemma kastore_read_header_keeps_disk (s : kastore_t) (w : world) :
  fs (snd (kastore_read_header s w)) = fs w
  /\ log (snd (kastore_read_header s w)) = log w.
Proof.
  unfold kastore_read_header.
  pose proof (fread_keeps_disk KAS_HEADER_SIZE (file s) w) as H.
  destruct (fread KAS_HEADER_SIZE (file s) w) as [[[c h] f] w1]. cbn [snd] in H.
  repeat match goal with
         | |- context [if ?b then _ else _] => destruct b
         end; exact H.
Qed.

Lemma kastore_mmap_file_keeps_disk (s : kastore_t) (w : world) :
  fs (snd (kastore_mmap_file s w)) = fs w /\ log (snd (kastore_mmap_file s w)) = log w.
Proof.
  unfold kastore_mmap_file. destruct (stat_size (filename s) w); [|split; reflexivity].
  destruct (negb _); [split; reflexivity|].
  destruct (mmap _ _ _); split; reflexivity.
Qed.

Lemma kastore_read_file_keeps_disk (s : kastore_t) (w : world) :
  fs (snd (kastore_read_file s w)) = fs w /\ log (snd (kastore_read_file s w)) = log w.
Proof.
  unfold kastore_read_file, fseek0.
  destruct (file (set_read_buffer s (Heap []))) as [f|]; cbn [Z.eqb negb];
    [|split; reflexivity].
  match goal with
  | |- context [fread ?a ?b ?c] =>
      pose proof (fread_keeps_disk a b c) as H; destruct (fread a b c) as [[[c0 d] f2] w2]
  end.
  cbn [snd] in H. destruct (c0 =? 0); exact H.
Qed.

Lemma kastore_read_keeps_disk (s : kastore_t) (w : world) :
  fs (snd (kastore_read s w)) = fs w /\ log (snd (kastore_read s w)) = log w.
Proof.
  unfold kastore_read.
  pose proof (kastore_read_header_keeps_disk s w) as H1.
  destruct (kastore_read_header s w) as [[r1 s1] w1]. cbn [snd] in H1.
  destruct (negb (is_ok r1)); [exact H1|].
  assert (H2 : fs (snd (if mmap_gate (flags s1) then kastore_mmap_file s1 w1
                       else kastore_read_file s1 w1)) = fs w
               /\ log (snd (if mmap_gate (flags s1) then kastore_mmap_file s1 w1
                            else kastore_read_file s1 w1)) = log w).
  { destruct H1 as [F1 L1]. rewrite <- F1, <- L1.
    destruct (mmap_gate (flags s1));
      [apply kastore_mmap_file_keeps_disk | apply kastore_read_file_keeps_disk]. }
  destruct (if mmap_gate (flags s1) then _ else _) as [[r2 s2] w2]. cbn [snd] in H2.
  destruct (negb (is_ok r2)); [exact H2|].
  destruct (0 <? num_items s2); [|exact H2].
  destruct (kastore_read_descriptors _) as [r3 s3]. exact H2.
Qed.

(** X3. A read-mode open writes nothing: whatever it returns, every file is
    as it was and nothing has been handed back to the system; and when there
    is no file of that name it returns IO. *)
Theorem open_read_keeps_disk (name : string) (fl : Z) (w : world) :
  fs (snd (kastore_open name "r" fl w)) = fs w
  /\ log (snd (kastore_open name "r" fl w)) = log w
  /\ (fs w name = None -> fst (fst (kastore_open name "r" fl w)) = KAS_ERR_IO).
Proof.
  unfold kastore_open.
  change (negb (Nat.eqb (String.length "r") 1)) with false.
  change (String.eqb "r" "r") with true. cbv iota beta zeta.
  unfold fopen. destruct (fs w name) as [content|] eqn:Hfs.
  - cbn [set_mode set_file mode].
    change (KAS_READ =? KAS_READ) with true. cbv iota.
    match goal with
    | |- context [kastore_read ?a w] => pose proof (kastore_read_keeps_disk a w) as H
    end.
    destruct H as [F L]. split; [exact F|]. split; [exact L | discriminate].
  - cbn [fst snd set_errno fs log]. repeat split.
Qed.

Lemma open_read_keeps_disk_witness :
  fst (fst (kastore_open "f" "r" 0 no_files)) = KAS_ERR_IO.
Proof.
  exact (proj2 (proj2 (open_read_keeps_disk "f" 0 no_files)) eq_refl).
Defined.

(** ** Get and put *)

Lemma key_item_keyed (k : list byte) (klen : Z) :
  0 <= klen <= Z.of_nat (List.length k) -> keyed (key_item k klen).
Proof.
  intros H. unfold keyed, key_item. cbn [set_key key_len key].
  rewrite length_firstn. lia.
Qed.

Lemma key_item_bytes (k : list byte) (klen : Z) :
  key_bytes (key_item k klen) = firstn (Z.to_nat klen) k.
Proof.
  unfold key_bytes, key_item. cbn [set_key key_len key].
  rewrite firstn_firstn, Nat.min_id. reflexivity.
Qed.


(** X5. On a store whose items are counted, keyed and in strictly ascending
    key order, [kastore_get] returns OK exactly for the keys that some item
    has; only the first [klen] bytes of the key argument are looked at. *)
Theorem get_finds_exactly_the_present_keys (s : kastore_t) (k : list byte) (klen : Z) :
  num_items s = Z.of_nat (List.length (items s)) ->
  Forall keyed (items s) ->
  ascending (map key_bytes (items s)) ->
  0 <= klen <= Z.of_nat (List.length k) ->
  fst (kastore_get s k klen) = KAS_OK
  <-> In (firstn (Z.to_nat klen) k) (map key_bytes (items s)).
Proof.
  intros Hnum Hkeyed Hasc Hklen. split.
  - intros Hok. apply in_map_iff.
    unfold kastore_get in Hok. fold (key_item k klen) in Hok. unfold bsearch in Hok.
    destruct (bsearch_loop _ _ _ _ _) as [p|] eqn:E; [|discriminate].
    destruct (bsearch_loop_sound _ _ _ _ _ _ E) as [Hin Hc].
    exists p. split; [|exact Hin].
    rewrite compare_items_lex in Hc.
    + apply lex_eq in Hc. rewrite <- Hc. apply key_item_bytes.
    + apply key_item_keyed. exact Hklen.
    + rewrite Forall_forall in Hkeyed. apply Hkeyed. exact Hin.
  - intros Hin. apply in_map_iff in Hin. destruct Hin as (p & Hp & Hin).
    rewrite (kastore_get_found s k klen Hnum Hkeyed Hklen p Hasc Hin Hp). reflexivity.
Qed.

Lemma two_key_store_keyed : Forall keyed (items two_key_store).
Proof.
  repeat constructor; cbn; try discriminate; apply Z.leb_le; reflexivity.
Defined.

Lemma two_key_store_ascending : ascending (map key_bytes (items two_key_store)).
Proof.
  repeat constructor.
Defined.

Lemma get_finds_exactly_the_present_keys_witness :
  fst (kastore_get two_key_store (bytes_of [98; 99]) 1) = KAS_OK
  <-> In (firstn (Z.to_nat 1) (bytes_of [98; 99])) (map key_bytes (items two_key_store)).
Proof.
  apply (get_finds_exactly_the_present_keys two_key_store (bytes_of [98; 99]) 1).
  - reflexivity.
  - exact two_key_store_keyed.
  - exact two_key_store_ascending.
  - cbn. lia.
Defined.

Lemma existsb_compare_key (n : kaitem_t) (l : list kaitem_t) :
  keyed n -> Forall keyed l ->
  existsb (fun it => compare_items n it =? 0) l = true
  <-> In (key_bytes n) (map key_bytes l).
Proof.
  intros Hn Hl. rewrite existsb_exists, in_map_iff. rewrite Forall_forall in Hl.
  split; intros (it & H1 & H2).
  - exists it. split; [|exact H1]. apply Z.eqb_eq in H2.
    rewrite compare_items_lex in H2 by auto. apply lex_eq in H2. congruence.
  - exists it. split; [exact H2|]. apply Z.eqb_eq.
    rewrite compare_items_lex by auto. rewrite H1. apply lex_refl.
Qed.

(** X6. On a counted store, [kastore_put] returns OK exactly when the type
    is one of the eight, the key is not empty and no item has the key yet; it
    then adds one item at the end, made of the type, the first [klen] bytes
    of the key, and the array pointer and length as given.  Whatever it
    returns, the count stays the number of items, the items stay keyed, and
    keys that were distinct stay distinct. *)
Theorem put_accepts_exactly_new_keys (s : kastore_t) (k : list byte) (klen : Z)
  (arr : list byte) (alen ty fl : Z) :
  counted s ->
  0 <= klen <= Z.of_nat (List.length k) ->
  let r := kastore_put s k klen arr alen ty fl in
  (fst r = KAS_OK
   <-> 0 <= ty < KAS_NUM_TYPES /\ klen <> 0
       /\ ~ In (firstn (Z.to_nat klen) k) (map key_bytes (items s)))
  /\ (fst r = KAS_OK ->
      items (snd r)
      = items s ++ [mk_item ty klen alen (firstn (Z.to_nat klen) k) arr 0 0])
  /\ num_items (snd r) = Z.of_nat (List.length (items (snd r)))
  /\ Forall keyed (items (snd r))
  /\ (NoDup (map key_bytes (items s)) -> NoDup (map key_bytes (items (snd r)))).
Proof.
  intros (Hnum & Hcount & Hkeyed) Hklen. cbv zeta. unfold kastore_put.
  destruct ((ty <? 0) || (ty >=? KAS_NUM_TYPES)) eqn:Ety.
  { cbn [fst snd]. repeat split; try assumption; try discriminate; try (intros; assumption).
    intros (Ht & _). apply orb_true_iff in Ety.
    rewrite Z.geb_leb in Ety. destruct Ety as [E | E];
      [apply Z.ltb_lt in E | apply Z.leb_le in E]; lia. }
  apply orb_false_iff in Ety. destruct Ety as [E1 E2].
  apply Z.ltb_ge in E1. rewrite Z.geb_leb in E2. apply Z.leb_gt in E2.
  destruct (klen =? 0) eqn:Ek.
  { apply Z.eqb_eq in Ek. cbn [fst snd].
    repeat split; try assumption; try discriminate; try (intros; assumption).
    intros (_ & Hne & _). contradiction. }
  apply Z.eqb_neq in Ek.
  rewrite Hnum, Nat2Z.id, firstn_all.
  set (n := set_array _ 0 alen arr).
  assert (Hn : keyed n).
  { unfold keyed, n. cbn [set_array set_key set_type key_len key].
    rewrite length_firstn. lia. }
  assert (Hb : key_bytes n = firstn (Z.to_nat klen) k).
  { unfold key_bytes, n. cbn [set_array set_key set_type key_len key].
    rewrite firstn_firstn, Nat.min_id. reflexivity. }
  pose proof (existsb_compare_key n (items s) Hn Hkeyed) as Hex.
  rewrite Hb in Hex.
  destruct (existsb _ (items s)) eqn:Edup; cbn [fst snd set_items items num_items].
  - split.
    { split; [discriminate|]. intros (_ & _ & Hnew). exfalso. apply Hnew, Hex. reflexivity. }
    split; [discriminate|]. split; [reflexivity|]. split; [exact Hkeyed|].
    intros Hnd. exact Hnd.
  - assert (Hnew : ~ In (firstn (Z.to_nat klen) k) (map key_bytes (items s))).
    { intros Hin. apply Hex in Hin. discriminate. }
    split.
    { split; [intros _ | intros _; reflexivity].
      split; [split; [exact E1 | exact E2]|]. split; [exact Ek | exact Hnew]. }
    split; [intros _; reflexivity|].
    split.
    { rewrite length_app. cbn [List.length]. unfold add64, SIZE_RANGE.
      rewrite Z.mod_small; lia. }
    split.
    { apply Forall_app. split; [exact Hkeyed | constructor; [exact Hn | constructor]]. }
    intros Hnd. rewrite map_app. cbn [map]. rewrite Hb.
    apply NoDup_app; [exact Hnd | repeat constructor; intros [] | ].
    intros x Hx [<- | []]. exact (Hnew Hx).
Qed.

Lemma two_key_store_counted : counted two_key_store.
Proof.
  split; [reflexivity|]. split; [cbn; lia | exact two_key_store_keyed].
Defined.

Lemma put_accepts_exactly_new_keys_witness :
  let r := kastore_put two_key_store (bytes_of [99]) 1 (bytes_of [1; 2]) 2 0 0 in
  (fst r = KAS_OK
   <-> 0 <= 0 < KAS_NUM_TYPES /\ 1 <> 0
       /\ ~ In (firstn (Z.to_nat 1) (bytes_of [99])) (map key_bytes (items two_key_store)))
  /\ (fst r = KAS_OK ->
      items (snd r)
      = items two_key_store
          ++ [mk_item 0 1 2 (firstn (Z.to_nat 1) (bytes_of [99])) (bytes_of [1; 2]) 0 0])
  /\ num_items (snd r) = Z.of_nat (List.length (items (snd r)))
  /\ Forall keyed (items (snd r))
  /\ (NoDup (map key_bytes (items two_key_store)) ->
      NoDup (map key_bytes (items (snd r)))).
Proof.
  apply (put_accepts_exactly_new_keys two_key_store (bytes_of [99]) 1 (bytes_of [1; 2]) 2 0 0).
  - exact two_key_store_counted.
  - cbn. lia.
Defined.

(** ** Header and descriptor blocks *)

Lemma kastore_read_header_any (s0 h : kastore_t) (w : world) (name : string)
  (rest : list byte) :
  file s0 = Some (mk_FILE name 0 false) ->
  fs w name = Some (header_block h ++ rest) ->
  kastore_read_header s0 w
  = (if file_size h mod 2 ^ 64 <? KAS_HEADER_SIZE then KAS_ERR_BAD_FILE_FORMAT else KAS_OK,
     set_file_size
       (set_num_items
          (set_file_version (set_file s0 (Some (mk_FILE name 64 false)))
             (KAS_FILE_VERSION_MAJOR, KAS_FILE_VERSION_MINOR))
          (num_items h mod 2 ^ 32))
       (file_size h mod 2 ^ 64),
     w).
Proof.
  intros Hfile Hfs.
  unfold kastore_read_header, fread. rewrite Hfile. cbn [f_name f_pos f_eof].
  rewrite Hfs. cbn [skipn].
  change (KAS_HEADER_SIZE =? 0) with false. cbv iota.
  replace (KAS_HEADER_SIZE <=? Z.of_nat (List.length (header_block h ++ rest)))
    with true
    by (symmetry; apply Z.leb_le; rewrite length_app, length_header_block;
        unfold KAS_HEADER_SIZE; lia).
  change (Z.to_nat KAS_HEADER_SIZE) with 64%nat.
  rewrite (firstn_app_exact (header_block h) rest 64) by reflexivity.
  change (1 =? 0) with false. cbv iota.
  rewrite strncmp_header. cbn [Z.eqb negb].
  change (load (header_block h) 8 2) with (le_combine (le_split 2 KAS_FILE_VERSION_MAJOR)).
  change (load (header_block h) 10 2)
    with (le_combine (le_split 2 KAS_FILE_VERSION_MINOR)).
  change (load (header_block h) 12 4) with (le_combine (le_split 4 (num_items h))).
  change (load (header_block h) 16 8) with (le_combine (le_split 8 (file_size h))).
  rewrite !le_combine_split.
  change (KAS_FILE_VERSION_MAJOR mod 2 ^ (Z.of_nat 2 * 8)) with KAS_FILE_VERSION_MAJOR.
  change (KAS_FILE_VERSION_MINOR mod 2 ^ (Z.of_nat 2 * 8)) with KAS_FILE_VERSION_MINOR.
  change (2 ^ (Z.of_nat 4 * 8)) with (2 ^ 32).
  change (2 ^ (Z.of_nat 8 * 8)) with (2 ^ 64).
  cbn [set_file_version file_version fst].
  change (KAS_FILE_VERSION_MAJOR <? KAS_FILE_VERSION_MAJOR) with false.
  change (KAS_FILE_VERSION_MAJOR >? KAS_FILE_VERSION_MAJOR) with false.
  cbv iota.
  cbn [set_file_size set_num_items file_size].
  destruct (file_size h mod 2 ^ 64 <? KAS_HEADER_SIZE); reflexivity.
Qed.

(** X7. The header that [kastore_write_header] writes to a new file is read
    back by [kastore_read_header] with version 1.0, the item count cut to its
    low 32 bits and the file size cut to 64 bits; the reader accepts it
    unless that size is below the 64 bytes of the header itself. *)
Theorem header_round_trip (s t : kastore_t) (f : FILE) (w : world) :
  file s = Some f ->
  fs w (f_name f) = Some [] ->
  file t = Some (mk_FILE (f_name f) 0 false) ->
  exists s1 w1,
    kastore_write_header s w = (KAS_OK, s1, w1)
    /\ fs w1 (f_name f) = Some (header_block s)
    /\ kastore_read_header t w1
       = (if file_size s mod 2 ^ 64 <? KAS_HEADER_SIZE
          then KAS_ERR_BAD_FILE_FORMAT else KAS_OK,
          set_file_size
            (set_num_items
               (set_file_version (set_file t (Some (mk_FILE (f_name f) 64 false)))
                  (KAS_FILE_VERSION_MAJOR, KAS_FILE_VERSION_MINOR))
               (num_items s mod 2 ^ 32))
            (file_size s mod 2 ^ 64),
          w1).
Proof.
  intros Hs Hfs Ht.
  destruct (fwrite_appends (header_block s) KAS_HEADER_SIZE f w [] Hfs ltac:(discriminate))
    as (f' & w' & E & N & F).
  cbn [app] in F. change (Z.to_nat KAS_HEADER_SIZE) with 64%nat in F.
  rewrite firstn_all2 in F by (rewrite length_header_block; apply Nat.le_refl).
  unfold kastore_write_header. rewrite Hs, E.
  change (negb (1 =? 1)) with false. cbv iota.
  eexists _, w'. split; [reflexivity|]. split; [exact F|].
  apply (kastore_read_header_any t s w' (f_name f) []); [exact Ht|].
  rewrite app_nil_r. exact F.
Qed.

Lemma header_round_trip_witness :
  exists s1 w1,
    kastore_write_header wide_header_store (disk []) = (KAS_OK, s1, w1)
    /\ fs w1 "f"%string = Some (header_block wide_header_store)
    /\ kastore_read_header (fresh_read_store "f" 0) w1
       = (KAS_OK,
          set_file_size
            (set_num_items
               (set_file_version
                  (set_file (fresh_read_store "f" 0) (Some (mk_FILE "f" 64 false)))
                  (KAS_FILE_VERSION_MAJOR, KAS_FILE_VERSION_MINOR))
               5)
            72,
          w1).
Proof.
  exact (header_round_trip wide_header_store (fresh_read_store "f" 0)
           (mk_FILE "f" 0 false) (disk []) eq_refl eq_refl eq_refl).
Defined.

(** X8. A descriptor block written for an item whose regions lie within the
    file is read back, wherever it stands in the buffer, with the item's
    type, starts and lengths, and with key and array pointing at their starts
    in the buffer. *)
Theorem descriptor_round_trip (it z : kaitem_t) (p r : list byte) (fsize : Z) :
  fsize < 2 ^ 64 ->
  in_file fsize it ->
  read_descriptor (p ++ descriptor_block it ++ r) fsize (Z.of_nat (List.length p)) z
  = (KAS_OK, mk_item (type it) (key_len it) (array_len it)
               (skipn (Z.to_nat (key_start it)) (p ++ descriptor_block it ++ r))
               (skipn (Z.to_nat (array_start it)) (p ++ descriptor_block it ++ r))
               (key_start it) (array_start it)).
Proof.
  intros Hf Hin.
  exact (read_descriptor_block it z p r _ fsize _ eq_refl eq_refl Hf Hin).
Qed.

Lemma placed_item_in_file : in_file 204 placed_item.
Proof. repeat split; apply Z.leb_le || apply Z.ltb_lt; reflexivity. Defined.

Lemma descriptor_round_trip_witness :
  read_descriptor (pad ++ descriptor_block placed_item ++ []) 204
    (Z.of_nat (List.length pad)) zero_item
  = (KAS_OK, mk_item 2 1 1
               (skipn (Z.to_nat 192) (pad ++ descriptor_block placed_item ++ []))
               (skipn (Z.to_nat 200) (pad ++ descriptor_block placed_item ++ []))
               192 200).
Proof.
  apply (descriptor_round_trip placed_item zero_item pad [] 204);
    [reflexivity | exact placed_item_in_file].
Defined.

(** ** The written file *)


Lemma sample_store_good : Forall good_item (items sample_store).
Proof.
  repeat constructor; try discriminate; apply Z.leb_le; reflexivity.
Defined.


Lemma ascending_perm_eq (l1 : list kaitem_t) :
  forall l2,
    ascending (map key_bytes l1) -> ascending (map key_bytes l2) ->
    Permutation l1 l2 -> l1 = l2.
Proof.
  induction l1 as [|a l1 IH]; intros l2 H1 H2 Hp.
  - apply Permutation_nil in Hp. symmetry. exact Hp.
  - destruct l2 as [|b l2]; [apply Permutation_sym, Permutation_nil in Hp; discriminate|].
    cbn [map] in H1, H2.
    apply StronglySorted_inv in H1. destruct H1 as [S1 F1].
    apply StronglySorted_inv in H2. destruct H2 as [S2 F2].
    rewrite Forall_forall in F1, F2.
    assert (Hab : a = b).
    { assert (Hin1 : In a (b :: l2))
        by (apply (Permutation_in a Hp); left; reflexivity).
      assert (Hin2 : In b (a :: l1))
        by (apply (Permutation_in b (Permutation_sym Hp)); left; reflexivity).
      destruct Hin1 as [E | Hin1]; [symmetry; exact E|].
      destruct Hin2 as [E | Hin2]; [exact E|].
      pose proof (F2 _ (in_map key_bytes _ _ Hin1)) as L1.
      pose proof (F1 _ (in_map key_bytes _ _ Hin2)) as L2.
      pose proof (lex_antisym (key_bytes a) (key_bytes b)). lia. }
    subst b. f_equal. apply IH; [exact S1 | exact S2 |].
    exact (Permutation_cons_inv Hp).
Qed.

Lemma qsort_of_perm (l1 l2 : list kaitem_t) :
  Forall keyed l1 -> NoDup (map key_bytes l1) -> Permutation l1 l2 ->
  qsort l1 = qsort l2.
Proof.
  intros Hk Hnd Hp. apply ascending_perm_eq.
  - apply qsort_ascending; assumption.
  - apply qsort_ascending.
    + exact (Permutation_Forall Hp Hk).
    + exact (Permutation_NoDup (Permutation_map key_bytes Hp) Hnd).
  - transitivity l1; [apply qsort_perm|].
    transitivity l2; [exact Hp | symmetry; apply qsort_perm].
Qed.

(** X10. The order of the puts does not reach the file: two write-mode
    stores that differ only in the order of their items, the keys distinct
    as [kastore_put] keeps them, are flushed and closed with the same result,
    byte for byte. *)
Theorem put_order_is_not_written (s : kastore_t) (l : list kaitem_t) (f : FILE)
  (w : world) :
  file s = Some f ->
  Forall keyed (items s) ->
  NoDup (map key_bytes (items s)) ->
  Permutation (items s) l ->
  kastore_write_file (set_items s (num_items s) l) w = kastore_write_file s w
  /\ kastore_close (set_items s (num_items s) l) w = kastore_close s w.
Proof.
  intros Hfile Hk Hnd Hp.
  pose proof (qsort_of_perm _ _ Hk Hnd Hp) as Hq.
  assert (Hw : kastore_write_file (set_items s (num_items s) l) w = kastore_write_file s w).
  { unfold kastore_write_file. cbn [set_items items num_items flags mode file_version
      file filename file_size read_buffer]. rewrite <- Hq. reflexivity. }
  split; [exact Hw|].
  unfold kastore_close. rewrite Hw.
  cbn [set_items mode file items flags read_buffer]. rewrite Hfile.
  destruct (mode s =? KAS_WRITE); [reflexivity|].
  cbv beta iota zeta. unfold kastore_munmap_file.
  cbn [set_items mode file items flags read_buffer file_size]. rewrite Hfile.
  replace (is_nil l) with (is_nil (items s)); [reflexivity|].
  destruct (items s), l; try reflexivity.
  - apply Permutation_nil in Hp. discriminate.
  - apply Permutation_sym, Permutation_nil in Hp. discriminate.
Qed.

Lemma sample_store_keyed : Forall keyed (items sample_store).
Proof.
  repeat constructor; try discriminate; apply Z.leb_le; reflexivity.
Defined.

Lemma sample_store_distinct : NoDup (map key_bytes (items sample_store)).
Proof.
  constructor; [intros [H | []]; discriminate H|].
  constructor; [intros [] | constructor].
Defined.

Lemma sample_store_swapped : Permutation (items sample_store) (items sample_store_rev).
Proof. apply perm_swap. Defined.

Lemma put_order_is_not_written_witness :
  kastore_write_file
    (set_items sample_store (num_items sample_store) (items sample_store_rev)) (disk [])
  = kastore_write_file sample_store (disk [])
  /\ kastore_close
       (set_items sample_store (num_items sample_store) (items sample_store_rev)) (disk [])
     = kastore_close sample_store (disk []).
Proof.
  apply (put_order_is_not_written sample_store (items sample_store_rev)
           (mk_FILE "f" 0 false) (disk [])).
  - reflexivity.
  - exact sample_store_keyed.
  - exact sample_store_distinct.
  - exact sample_store_swapped.
Defined.

Lemma pack_keys_types (l : list kaitem_t) :
  forall o, map type (fst (pack_keys o l)) = map type l.
Proof.
  induction l as [|it l IH]; intros o; cbn [pack_keys]; [reflexivity|].
  specialize (IH (add64 o (key_len it))).
  destruct (pack_keys _ l) as [rest o']. cbn [fst map] in *. rewrite IH. reflexivity.
Qed.

Lemma type_size_divides (ty : Z) :
  0 <= ty < KAS_NUM_TYPES -> exists q, KAS_ARRAY_ALIGN = q * type_size ty /\ 0 < type_size ty.
Proof.
  unfold KAS_NUM_TYPES. intros H.
  assert (E : ty = 0 \/ ty = 1 \/ ty = 2 \/ ty = 3 \/ ty = 4 \/ ty = 5 \/ ty = 6 \/ ty = 7)
    by lia.
  destruct E as [-> | [-> | [-> | [-> | [-> | [-> | [-> | ->]]]]]]];
    [exists 8 | exists 8 | exists 2 | exists 2 | exists 1 | exists 1 | exists 2 | exists 1];
    split; reflexivity.
Qed.

Lemma pack_arrays_natural (l : list kaitem_t) :
  forall o,
    Forall (fun it => 0 <= type it < KAS_NUM_TYPES) l ->
    Forall (fun it => array_start it mod KAS_ARRAY_ALIGN = 0
                      /\ array_start it mod type_size (type it) = 0)
           (fst (pack_arrays o l)).
Proof.
  induction l as [|it l IH]; intros o Ht; cbn [pack_arrays].
  - constructor.
  - apply Forall_cons_iff in Ht. destruct Ht as [Hit Hl].
    specialize (IH (add64 (align_up o) (mul64 (array_len it) (type_size (type it)))) Hl).
    destruct (pack_arrays _ l) as [rest' o']. cbn [fst] in *.
    constructor; [|exact IH].
    cbn [set_array_start array_start type].
    pose proof (align_up_mod o) as H8. split; [exact H8|].
    destruct (type_size_divides _ Hit) as (q & Hq & Hpos).
    unfold KAS_ARRAY_ALIGN in Hq.
    apply Z.mod_divide in H8; [|discriminate]. destruct H8 as [c Hc].
    rewrite Hc, Hq, Z.mul_assoc. apply Z.mod_mul. lia.
Qed.

(** X11. The packer places every array at a multiple of 8 and therefore at
    a multiple of the width of its elements, whatever the key lengths are
    and whether or not the offsets wrap around: the widths 1, 4 and 8 all
    divide the alignment. *)
Theorem packed_arrays_are_naturally_aligned (s : kastore_t) :
  Forall (fun it => 0 <= type it < KAS_NUM_TYPES) (items s) ->
  fst (kastore_pack_items s) = KAS_OK
  /\ Forall (fun it => array_start it mod KAS_ARRAY_ALIGN = 0
                       /\ array_start it mod type_size (type it) = 0)
            (items (snd (kastore_pack_items s))).
Proof.
  intros Ht. unfold kastore_pack_items.
  pose proof (pack_keys_types (items s)
                (add64 KAS_HEADER_SIZE (mul64 (num_items s) KAS_ITEM_DESCRIPTOR_SIZE)))
    as Hty.
  destruct (pack_keys _ (items s)) as [l1 o1]. cbn [fst] in Hty.
  assert (Ht1 : Forall (fun it => 0 <= type it < KAS_NUM_TYPES) l1).
  { rewrite <- (Forall_map type (fun t => 0 <= t < KAS_NUM_TYPES)) in Ht |- *.
    rewrite Hty. exact Ht. }
  pose proof (pack_arrays_natural l1 o1 Ht1) as Hal.
  destruct (pack_arrays o1 l1) as [l2 o2]. cbn [fst snd set_file_size set_items items] in *.
  split; [reflexivity | exact Hal].
Qed.

Lemma packed_arrays_are_naturally_aligned_witness :
  fst (kastore_pack_items sample_store) = KAS_OK
  /\ Forall (fun it => array_start it mod KAS_ARRAY_ALIGN = 0
                       /\ array_start it mod type_size (type it) = 0)
            (items (snd (kastore_pack_items sample_store))).
Proof.
  apply (packed_arrays_are_naturally_aligned sample_store).
  repeat constructor; try discriminate.
Defined.

(** ** What an accepted file guarantees *)

Lemma read_descriptor_facts (buf : list byte) (fsize off : Z) (z it : kaitem_t) :
  read_descriptor buf fsize off z = (KAS_OK, it) -> read_from buf fsize it.
Proof.
  unfold read_descriptor. cbv zeta.
  pose proof (load_bound buf off 1) as Hty.
  pose proof (load_bound buf (off + 8) 8) as B1.
  pose proof (load_bound buf (off + 16) 8) as B2.
  pose proof (load_bound buf (off + 24) 8) as B3.
  pose proof (load_bound buf (off + 32) 8) as B4.
  change (2 ^ (8 * Z.of_nat 8)) with (2 ^ 64) in B1, B2, B3, B4.
  destruct (load buf off 1 >=? KAS_NUM_TYPES) eqn:Et; [discriminate|].
  rewrite Z.geb_leb in Et. apply Z.leb_gt in Et.
  destruct (add64 _ _ >? fsize) eqn:Ek; [discriminate|].
  destruct (add64 _ (mul64 _ _) >? fsize) eqn:Ea; [discriminate|].
  rewrite Z.gtb_ltb in Ek, Ea. apply Z.ltb_ge in Ek, Ea.
  intros H. injection H as <-. unfold read_from.
  cbn [set_array set_key set_type type key array key_start key_len array_start array_len].
  split; [split; [apply Hty | exact Et]|].
  split; [exact B1|]. split; [exact B2|]. split; [exact B3|]. split; [exact B4|].
  split; [reflexivity|]. split; [reflexivity|].
  split; [exact Ek | exact Ea].
Qed.

Lemma read_descriptors_loop_facts (buf : list byte) (fsize : Z) (l0 : list kaitem_t) :
  forall off l,
    read_descriptors_loop buf fsize off l0 = (KAS_OK, l) ->
    List.length l = List.length l0 /\ Forall (read_from buf fsize) l.
Proof.
  induction l0 as [|z l0 IH]; intros off l H; cbn [read_descriptors_loop] in H.
  - injection H as <-. split; [reflexivity | constructor].
  - destruct (read_descriptor buf fsize off z) as [r it] eqn:E.
    destruct r; cbn [is_ok negb] in H; try discriminate.
    destruct (read_descriptors_loop buf fsize _ l0) as [r' rest] eqn:E'.
    injection H as -> <-.
    destruct (IH _ _ E') as [Hlen Hall].
    split; [cbn [List.length]; rewrite Hlen; reflexivity|].
    constructor; [exact (read_descriptor_facts _ _ _ _ _ E) | exact Hall].
Qed.

Lemma read_body_facts (buf : list byte) (n size : Z) (l : list kaitem_t) (m : Z) :
  0 <= n ->
  read_body buf n size = (KAS_OK, m, l) ->
  m = n /\ n = Z.of_nat (List.length l) /\ Forall (read_from buf size) l.
Proof.
  intros Hn. unfold read_body. destruct (0 <? n) eqn:En.
  - unfold kastore_read_descriptors.
    cbn [blank_store num_items items file_size read_buffer buffer_bytes].
    destruct (_ >? size); [discriminate|].
    destruct (read_descriptors_loop buf size KAS_HEADER_SIZE _) as [r l'] eqn:E.
    cbn [set_items num_items items].
    destruct r; cbn [is_ok negb]; try discriminate.
    destruct (read_descriptors_loop_facts _ _ _ _ _ E) as [Hlen Hall].
    rewrite repeat_length in Hlen.
    destruct (check_keys _ l') as [o|]; [|discriminate].
    destruct (check_arrays o l'); [|discriminate].
    intros H. injection H as <- <-. split; [reflexivity|].
    split; [rewrite Hlen; lia | exact Hall].
  - apply Z.ltb_ge in En. intros H. injection H as <- <-.
    split; [reflexivity|]. split; [cbn; lia | constructor].
Qed.

(** X12. A store that a read-mode open returns with OK has passed the
    checks of the reader: its count is the count of the header and the
    number of its items, the file is no shorter than the size in its header,
    and every item has a type tag of the registry, key and array pointers at
    their starts in the buffer, an array start that is a multiple of 8, and
    the sums [key_start + key_len] and [array_start + array_len * width],
    taken modulo 2^64 as the reader takes them, at most the file size.  This
    keeps a region within the file only when its sum does not wrap around. *)
Theorem opened_store_is_checked (name : string) (fl : Z) (w w' : world)
  (content : list byte) (s : kastore_t) :
  fs w name = Some content ->
  kastore_open name "r" fl w = (KAS_OK, s, w') ->
  let size := load content 16 8 in
  num_items s = load content 12 4
  /\ num_items s = Z.of_nat (List.length (items s))
  /\ KAS_HEADER_SIZE <= size <= Z.of_nat (List.length content)
  /\ Forall (read_from (firstn (Z.to_nat size) content) size) (items s)
  /\ Forall (fun it => array_start it mod KAS_ARRAY_ALIGN = 0) (items s).
Proof.
  intros Hfs Hopen. cbv zeta.
  pose proof (kastore_open_read_result name fl w content Hfs) as Hres.
  rewrite Hopen in Hres. destruct Hres as [Hr Hs].
  destruct (Hs eq_refl) as [Hnum Hitems]. clear Hs.
  assert (Hwalk := kastore_open_read_walk _ _ _ _ _ Hopen).
  assert (Hal : Forall (fun it => array_start it mod KAS_ARRAY_ALIGN = 0) (items s)).
  { rewrite <- Hwalk. unfold kastore_pack_items.
    destruct (pack_keys _ (items s)) as [l1 o1].
    pose proof (pack_arrays_aligned l1 o1) as H.
    destruct (pack_arrays o1 l1) as [l2 o2]. exact H. }
  pose proof (load_bound content 12 4) as Hn.
  unfold open_result in Hr, Hnum, Hitems.
  destruct (header_check content) eqn:Eh; cbn [fst snd] in Hr; try discriminate.
  apply header_check_ok in Eh. destruct Eh as (_ & _ & _ & Hmin).
  set (size := load content 16 8) in *.
  assert (Hbody : exists m l,
             read_body (firstn (Z.to_nat size) content) (load content 12 4) size
             = (KAS_OK, m, l)
             /\ num_items s = m /\ items s = l
             /\ size <= Z.of_nat (List.length content)).
  { destruct (mmap_gate fl).
    - destruct (size =? Z.of_nat (List.length content)) eqn:E; cbn [negb] in *;
        [|discriminate].
      apply Z.eqb_eq in E.
      destruct (read_body _ _ size) as [[r m] l]. cbn [fst snd] in *.
      exists m, l. subst r. repeat split; try assumption. lia.
    - destruct (size <=? Z.of_nat (List.length content)) eqn:E; [|discriminate].
      apply Z.leb_le in E.
      destruct (read_body _ _ size) as [[r m] l]. cbn [fst snd] in *.
      exists m, l. subst r. repeat split; assumption. }
  destruct Hbody as (m & l & Eb & Hm & Hl & Hle).
  destruct (read_body_facts _ _ _ _ _ (proj1 Hn) Eb) as (E1 & E2 & E3).
  subst m l. split; [congruence|]. split; [congruence|].
  split; [lia|]. split; [exact E3 | exact Hal].
Qed.

Lemma opened_store_is_checked_witness :
  let s := snd (fst (kastore_open "f" "r" 0 (disk unsorted_file))) in
  let size := load unsorted_file 16 8 in
  num_items s = load unsorted_file 12 4
  /\ num_items s = Z.of_nat (List.length (items s))
  /\ KAS_HEADER_SIZE <= size <= Z.of_nat (List.length unsorted_file)
  /\ Forall (read_from (firstn (Z.to_nat size) unsorted_file) size) (items s)
  /\ Forall (fun it => array_start it mod KAS_ARRAY_ALIGN = 0) (items s).
Proof.
  apply (opened_store_is_checked "f" 0 (disk unsorted_file)
           (snd (kastore_open "f" "r" 0 (disk unsorted_file))) unsorted_file).
  - reflexivity.
  - vm_compute. reflexivity.
Defined.

(** ** The writer and the world *)














(** ** Close and the resources of a store *)











(** ** What the reader does not look at *)



Lemma load_skipn_agree (a b : list byte) (m : nat) (j : Z) (k : nat) :
  (forall i, (64 <= i)%nat -> skipn i a = skipn i b) ->
  64 <= j -> load (firstn m a) j k = load (firstn m b) j k.
Proof.
  intros H Hj. unfold load. rewrite !skipn_firstn_comm.
  rewrite (H (Z.to_nat j)) by lia. reflexivity.
Qed.

(** X16. The bytes 24 to 63 of the header are reserved and the reader does
    not look at them: overwriting any of them leaves the code of a read-mode
    open as it was, whatever the file and the flags are. *)
Theorem reserved_header_bytes_are_not_read (name : string) (w w' : world)
  (content x : list byte) (off : Z) (n : nat) (fl : Z) :
  fs w name = Some content ->
  fs w' name = Some (memcpy content off x n) ->
  24 <= off -> off + Z.of_nat n <= KAS_HEADER_SIZE ->
  (Z.to_nat off + n <= List.length content)%nat ->
  (n <= List.length x)%nat ->
  read_code name w' fl = read_code name w fl.
Proof.
  unfold KAS_HEADER_SIZE. intros Hfs Hfs' Hlo Hhi Hfit Hsrc.
  rewrite (read_code_result name w' _ fl Hfs'), (read_code_result name w _ fl Hfs).
  set (c' := memcpy content off x n).
  assert (Hoff : 0 <= off) by lia.
  assert (Hlen : List.length c' = List.length content)
    by (apply length_memcpy; assumption).
  assert (Hbefore : forall j k, 0 <= j -> (Z.to_nat j + k <= 24)%nat ->
                      load c' j k = load content j k).
  { intros j k Hj Hk. apply load_memcpy_before; try assumption; lia. }
  assert (Hmagic : strncmp c' KAS_MAGIC 8 = strncmp content KAS_MAGIC 8)
    by (apply strncmp_memcpy_after; lia).
  assert (Hh : header_check c' = header_check content).
  { unfold header_check. rewrite Hlen, Hmagic, !Hbefore by lia. reflexivity. }
  assert (Hskip : forall i, (64 <= i)%nat -> skipn i c' = skipn i content).
  { intros i Hi. apply skipn_memcpy_after; try assumption; lia. }
  unfold open_result. rewrite Hh, Hlen, !Hbefore by lia.
  destruct (header_check content); try reflexivity.
  pose proof (load_bound content 12 4) as Hn.
  assert (Hb : fst (fst (read_body (firstn (Z.to_nat (load content 16 8)) c')
                           (load content 12 4) (load content 16 8)))
               = fst (fst (read_body (firstn (Z.to_nat (load content 16 8)) content)
                             (load content 12 4) (load content 16 8)))).
  { apply read_body_agree; [|exact Hn].
    intros j k Hj. apply load_skipn_agree; assumption. }
  destruct (mmap_gate fl).
  - destruct (negb _); [reflexivity | exact Hb].
  - destruct (_ <=? _); [exact Hb | reflexivity].
Qed.

Lemma reserved_header_bytes_are_not_read_witness :
  memcpy unsorted_file 24 reserved_noise 40 <> unsorted_file
  /\ read_code "f" (disk unsorted_file) 0 = KAS_OK
  /\ read_code "f" (disk (memcpy unsorted_file 24 reserved_noise 40)) 0
     = read_code "f" (disk unsorted_file) 0.
Proof.
  split; [|split].
  - intros H. apply (f_equal (fun l => nth 24 l Byte.x00)) in H. discriminate H.
  - reflexivity.
  - apply (reserved_header_bytes_are_not_read "f" (disk unsorted_file)
             (disk (memcpy unsorted_file 24 reserved_noise 40)) unsorted_file
             reserved_noise 24 40 0).
    + reflexivity.
    + reflexivity.
    + apply Z.leb_le. reflexivity.
    + apply Z.leb_le. reflexivity.
    + apply Nat.leb_le. reflexivity.
    + apply Nat.leb_le. reflexivity.
Defined.

(** ** The size of the file *)

Lemma arrays_end_lower (l : list kaitem_t) :
  forall o acc,
    o + (fold_right (fun it a => item_size it + a) acc l - acc)
    <= arrays_end o (map item_size l).
Proof.
  induction l as [|it l IH]; intros o acc; cbn [map arrays_end fold_right]; [lia|].
  specialize (IH (round_up o + item_size it) acc).
  pose proof (round_up_bounds o). lia.
Qed.

(** X17. For a counted store of good items, the file size the packer
    computes is the 64 bytes of the header, 64 bytes for each descriptor, the
    keys and the arrays, plus at most 7 bytes of padding for each array. *)
Theorem file_size_is_payload_plus_padding (s : kastore_t) :
  num_items s = Z.of_nat (List.length (items s)) ->
  Z.of_nat (List.length (items s)) < 2 ^ 32 ->
  Forall good_item (items s) ->
  store_bound (items s) < 2 ^ 64 ->
  let payload :=
    fold_right (fun it a => KAS_ITEM_DESCRIPTOR_SIZE + key_len it + item_size it + a)
      KAS_HEADER_SIZE (items s) in
  payload <= file_size (snd (kastore_pack_items s))
  <= payload + 7 * Z.of_nat (List.length (items s)).
Proof.
  intros Hnum Hcount Hgood Hbound. cbv zeta.
  pose proof (packed_size_bound (items s)) as Hup.
  destruct (kastore_pack_items_packed s Hnum Hcount Hgood ltac:(lia))
    as (s' & E & Hp & Hstrip & _).
  rewrite E. cbn [snd].
  destruct Hp as (_ & _ & _ & _ & _ & Hfsz & _). rewrite Hfsz.
  assert (Hps : packed_size (items s') = packed_size (items s)).
  { unfold packed_size, keys_limit.
    rewrite (map_strip_length _ _ Hstrip).
    rewrite (map_strip_via key_len _ _ ltac:(reflexivity) Hstrip).
    rewrite (map_strip_via item_size _ _ ltac:(reflexivity) Hstrip).
    reflexivity. }
  rewrite Hps.
  assert (Hsb : forall l,
             store_bound l
             = fold_right
                 (fun it a => KAS_ITEM_DESCRIPTOR_SIZE + key_len it + item_size it + a)
                 KAS_HEADER_SIZE l
               + 7 * Z.of_nat (List.length l)).
  { unfold store_bound. induction l as [|it l IH]; cbn [fold_right List.length];
      [lia|]. rewrite IH. lia. }
  specialize (Hsb (items s)).
  split; [|lia].
  unfold packed_size, keys_limit.
  pose proof (arrays_end_lower (items s)
                (keys_end (keys_begin (List.length (items s))) (map key_len (items s))) 0)
    as Hlow.
  rewrite (keys_end_bound (items s) _ 0) in *.
  assert (Hsum : forall l,
             fold_right
               (fun it a => KAS_ITEM_DESCRIPTOR_SIZE + key_len it + item_size it + a)
               KAS_HEADER_SIZE l
             = keys_begin (List.length l)
               + fold_right (fun it a => key_len it + a) 0 l
               + fold_right (fun it a => item_size it + a) 0 l).
  { unfold keys_begin. induction l as [|it l IH]; cbn [fold_right List.length];
      [lia|]. rewrite IH. lia. }
  rewrite (Hsum (items s)). lia.
Qed.

Lemma file_size_is_payload_plus_padding_witness :
  let payload :=
    fold_right (fun it a => KAS_ITEM_DESCRIPTOR_SIZE + key_len it + item_size it + a)
      KAS_HEADER_SIZE (items sample_store) in
  payload <= file_size (snd (kastore_pack_items sample_store))
  <= payload + 7 * Z.of_nat (List.length (items sample_store)).
Proof.
  apply (file_size_is_payload_plus_padding sample_store).
  - reflexivity.
  - reflexivity.
  - exact sample_store_good.
  - reflexivity.
Defined.

(** ** Messages *)

(** X18. [kas_strerror] gives every kind it knows a message of its own: two
    kinds other than IO with the same message are the same kind, or are both
    among OK and EmptyKey, which have no case in the switch and get the
    message of an unknown code.  So the code [kastore_put] returns for an
    empty key is reported as an unknown error.  The message for IO is the
    system's message for [errno] when that is set. *)
Theorem messages_tell_the_kinds_apart (strerror : Z -> string) (w : world) :
  (forall e1 e2,
      e1 <> KAS_ERR_IO -> e2 <> KAS_ERR_IO ->
      kas_strerror strerror e1 w = kas_strerror strerror e2 w ->
      e1 = e2
      \/ ((e1 = KAS_OK \/ e1 = KAS_ERR_EMPTY_KEY)
          /\ (e2 = KAS_OK \/ e2 = KAS_ERR_EMPTY_KEY)))
  /\ (forall s k arr alen ty fl,
         0 <= ty < KAS_NUM_TYPES ->
         kas_strerror strerror (fst (kastore_put s k 0 arr alen ty fl)) w
         = "Unknown error"%string)
  /\ (errno w <> 0 -> kas_strerror strerror KAS_ERR_IO w = strerror (errno w)).
Proof.
  split; [|split].
  - intros e1 e2 H1 H2 H.
    destruct e1, e2; cbn [kas_strerror] in H; try congruence;
      try (left; reflexivity); try discriminate H;
      right; split; auto.
  - intros s k arr alen ty fl Hty. unfold kastore_put.
    replace ((ty <? 0) || (ty >=? KAS_NUM_TYPES)) with false; [reflexivity|].
    symmetry. apply orb_false_iff. split; [apply Z.ltb_ge; lia|].
    rewrite Z.geb_leb. apply Z.leb_gt. lia.
  - intros He. cbn [kas_strerror].
    replace (errno w =? 0) with false by (symmetry; apply Z.eqb_neq; exact He).
    reflexivity.
Qed.

Lemma messages_tell_the_kinds_apart_witness :
  kas_strerror plain_strerror
    (fst (kastore_put two_key_store (bytes_of [99]) 0 [] 0 0 0)) no_files
  = "Unknown error"%string.
Proof.
  apply (proj1 (proj2 (messages_tell_the_kinds_apart plain_strerror no_files))).
  split; [apply Z.leb_le | apply Z.ltb_lt]; reflexivity.
Defined.

(** ** Rejections at the descriptors *)

(** X19. [kastore_read_descriptors], on a store whose block has one slot
    for each of its 1 to 2^32 - 1 counted items: when the descriptors of that
    many items do not fit in the file size, it returns BadFileFormat; when
    they fit and the first descriptor carries a type tag of 8 or more, it
    returns BadType, whatever starts and lengths the descriptors carry.  In
    both cases the store is left as it was. *)
Theorem descriptors_are_checked_first (s : kastore_t) :
  num_items s = Z.of_nat (List.length (items s)) ->
  0 < num_items s < 2 ^ 32 ->
  (KAS_HEADER_SIZE + num_items s * KAS_ITEM_DESCRIPTOR_SIZE > file_size s ->
   kastore_read_descriptors s = (KAS_ERR_BAD_FILE_FORMAT, s))
  /\ (KAS_HEADER_SIZE + num_items s * KAS_ITEM_DESCRIPTOR_SIZE <= file_size s ->
      KAS_NUM_TYPES <= load (buffer_bytes (read_buffer s)) KAS_HEADER_SIZE 1 ->
      kastore_read_descriptors s = (KAS_ERR_BAD_TYPE, s)).
Proof.
  unfold KAS_HEADER_SIZE, KAS_ITEM_DESCRIPTOR_SIZE, KAS_NUM_TYPES.
  intros Hnum Hn.
  unfold kastore_read_descriptors, KAS_HEADER_SIZE, KAS_ITEM_DESCRIPTOR_SIZE.
  rewrite mul64_small by lia. rewrite add64_small by lia.
  split.
  - intros Hbig.
    replace (64 + num_items s * 64 >? file_size s) with true
      by (symmetry; rewrite Z.gtb_ltb; apply Z.ltb_lt; lia).
    reflexivity.
  - intros Hfit Hty.
    replace (64 + num_items s * 64 >? file_size s) with false
      by (symmetry; rewrite Z.gtb_ltb; apply Z.ltb_ge; lia).
    destruct (items s) as [|z rest] eqn:Hitems; [cbn [List.length] in Hnum; lia|].
    cbn [read_descriptors_loop]. unfold read_descriptor at 1.
    replace (load (buffer_bytes (read_buffer s)) 64 1 >=? KAS_NUM_TYPES) with true
      by (symmetry; rewrite Z.geb_leb; apply Z.leb_le; exact Hty).
    cbn [is_ok negb]. rewrite <- Hitems. destruct s; reflexivity.
Qed.

Lemma descriptors_are_checked_first_witness :
  kastore_read_descriptors (blank_store crowded_file 3 128)
  = (KAS_ERR_BAD_FILE_FORMAT, blank_store crowded_file 3 128)
  /\ kastore_read_descriptors (blank_store unknown_type_file 1 136)
     = (KAS_ERR_BAD_TYPE, blank_store unknown_type_file 1 136).
Proof.
  split.
  - apply (descriptors_are_checked_first (blank_store crowded_file 3 128));
      [reflexivity | split; reflexivity | reflexivity].
  - apply (descriptors_are_checked_first (blank_store unknown_type_file 1 136));
      [reflexivity | split; reflexivity | apply Z.leb_le; reflexivity
      | apply Z.leb_le; reflexivity].
Defined.
